(** * Pi-to-Pi network benchmark: frame codec, receiver engine, aggregator

    A shallow embedding of [network_benchmark.py] (class [NetworkBenchmark])
    together with the pieces of the Python runtime it relies on: [bytes]
    values, slicing, [struct.pack]/[struct.unpack] with the format ['<Idi'],
    sockets read with [recv]/[recvfrom], and [time.time()].

    Conventions.
    - Python [int] is [Z]; [bytes] is [list byte]; [float] is the kernel's
      binary64 [float], so timestamps and latencies are computed with the
      same IEEE-754 operations the interpreter uses.
    - A call that may raise returns [result]: [Return v] or [Raise e].
    - The network is an explicit script of events consumed by the reads.
    - The results block of [_display_results]/[_save_results] is embedded
      over the same binary64 [float]: [sum] adds from the left starting at
      [0.0], [/] and [*] round to nearest even, [int] truncates, and the
      literals [0.95], [0.99] are the doubles nearest to them.
      [list.sort] is embedded on lists without NaN, where the order it
      leaves is determined by the values.  [Binary64] holds the facts
      about rounding that the figures need.
    - [Sender], [Loopback], [Datagrams], [ReceiverRuns], [SetupRuns] and
      [Report] extend the embedding to [_sender_loop] and to whole runs;
      [Radio] embeds class [TCPRadioBenchmark] of [benchmark.py] over the
      same sockets. *)

From Stdlib Require Import Strings.String.
From Stdlib Require Import ZArith List Bool Lia Strings.Byte Floats Uint63.
From Stdlib Require Import Permutation Sorted.
Import ListNotations.

Local Open Scope Z_scope.

(* ================================================================== *)
(** ** The Python runtime the program uses                             *)
(* ================================================================== *)

Module Py.

(** Exceptions that the modelled code can meet. *)
Inductive exn : Type :=
| ValueError            (* raise ValueError("Packet too short") *)
| StructError           (* struct.error *)
| OverflowError         (* repeat count does not fit an index *)
| ZeroDivisionError     (* x % 0 *)
| IndexError            (* list index out of range *)
| SocketTimeout         (* socket.timeout *)
| ConnectionRefusedError
| OSError.              (* any other socket failure *)

Inductive result (A : Type) : Type :=
| Return (a : A)
| Raise (e : exn).
Arguments Return {A} a.
Arguments Raise {A} e.

Definition bind {A B} (r : result A) (k : A -> result B) : result B :=
  match r with
  | Return a => k a
  | Raise e => Raise e
  end.

Notation "x <- r ;; k" := (bind r (fun x => k))
  (at level 61, r at next level, right associativity).
Notation "' p <- r ;; k" := (bind r (fun x => let 'p := x in k))
  (at level 61, p pattern, r at next level, right associativity).

Definition bytes := list byte.

(** [len(x)] as a Python integer. *)
Definition len {A} (l : list A) : Z := Z.of_nat (length l).

(** [x[start:stop]] with integer bounds: a negative bound counts from the
    end, every bound is clamped to [0, len], an empty range gives [[]]. *)
Definition slice_index (n i : Z) : Z :=
  if i <? 0 then Z.max (i + n) 0 else Z.min i n.

Definition py_slice {A} (l : list A) (start stop : Z) : list A :=
  let lo := slice_index (len l) start in
  let hi := slice_index (len l) stop in
  firstn (Z.to_nat (hi - lo)) (skipn (Z.to_nat lo) l).

(** [b * n] for a one-byte string [b]: empty for [n <= 0]; a count that
    does not fit [Py_ssize_t] raises [OverflowError]. *)
Definition PY_SSIZE_T_MAX : Z := 2 ^ 63 - 1.

Definition bytes_repeat (b : byte) (n : Z) : result bytes :=
  if n >? PY_SSIZE_T_MAX then Raise OverflowError
  else Return (repeat b (Z.to_nat n)).

(** *** Little-endian integers *)

Definition byte_of_Z (z : Z) : byte :=
  match Byte.of_N (Z.to_N (z mod 256)) with
  | Some b => b
  | None => x00
  end.

Definition Z_of_byte (b : byte) : Z := Z.of_N (Byte.to_N b).

Fixpoint le_encode (n : nat) (z : Z) : bytes :=
  match n with
  | O => []
  | S k => byte_of_Z z :: le_encode k (z / 256)
  end.

Fixpoint le_decode (bs : bytes) : Z :=
  match bs with
  | [] => 0
  | b :: rest => Z_of_byte b + 256 * le_decode rest
  end.

(** *** binary64 images *)

(** The 64-bit IEEE-754 image of a double (NaN is the quiet NaN). *)
Definition f64_bits (f : float) : Z :=
  match Prim2SF f with
  | S754_zero s => if s then 2 ^ 63 else 0
  | S754_infinity s => (if s then 2 ^ 63 else 0) + 2047 * 2 ^ 52
  | S754_nan => 2047 * 2 ^ 52 + 2 ^ 51
  | S754_finite s m e =>
      (if s then 2 ^ 63 else 0) +
      (if Z.pos m <? 2 ^ 52 then Z.pos m
       else (e + 1075) * 2 ^ 52 + (Z.pos m - 2 ^ 52))
  end.

Definition bits_f64 (b : Z) : float :=
  let s := Z.testbit b 63 in
  let E := Z.land (Z.shiftr b 52) 2047 in
  let M := Z.land b (2 ^ 52 - 1) in
  SF2Prim
    (if E =? 0 then
       match M with
       | Z.pos m => S754_finite s m (-1074)
       | _ => S754_zero s
       end
     else if E =? 2047 then
       (if M =? 0 then S754_infinity s else S754_nan)
     else
       match M + 2 ^ 52 with
       | Z.pos m => S754_finite s m (E - 1075)
       | _ => S754_nan
       end).

(** *** [struct] with the format ['<Idi'] (no padding, 16 bytes) *)

Definition pack_I (v : Z) : result bytes :=
  if (0 <=? v) && (v <? 2 ^ 32) then Return (le_encode 4 v)
  else Raise StructError.

Definition pack_i (v : Z) : result bytes :=
  if (- 2 ^ 31 <=? v) && (v <? 2 ^ 31) then Return (le_encode 4 (v mod 2 ^ 32))
  else Raise StructError.

Definition pack_d (f : float) : bytes := le_encode 8 (f64_bits f).

Definition unpack_I (bs : bytes) : Z := le_decode bs.

Definition unpack_i (bs : bytes) : Z :=
  let u := le_decode bs in
  if u <? 2 ^ 31 then u else u - 2 ^ 32.

Definition unpack_d (bs : bytes) : float := bits_f64 (le_decode bs).

Definition struct_pack_Idi (a : Z) (t : float) (n : Z) : result bytes :=
  x <- pack_I a ;;
  z <- pack_i n ;;
  Return (x ++ pack_d t ++ z).

Definition struct_unpack_Idi (bs : bytes) : result (Z * float * Z) :=
  if len bs =? 16 then
    Return (unpack_I (firstn 4 bs),
            unpack_d (firstn 8 (skipn 4 bs)),
            unpack_i (skipn 12 bs))
  else Raise StructError.

End Py.

Import Py.

(* ================================================================== *)
(** ** Configuration and records                                       *)
(* ================================================================== *)

Inductive TransportMode : Type := TCP | UDP.

Record BenchmarkConfig : Type := {
  mode : TransportMode;
  host : string;
  port : Z;
  payload_size : Z;
  max_packets : Z;
  send_delay : float;
  timeout : float;
  is_sender : bool;
  is_receiver : bool;
  print_logs : bool;
  log_frequency : Z;
  save_results : bool;
  results_file : string
}.

Record PacketMetrics : Type := {
  msg_id : Z;
  send_time : float;
  recv_time : float;
  metric_payload_size : Z;
  latency_ms : float
}.

(* ================================================================== *)
(** ** Packet operations                                               *)
(* ================================================================== *)

Module Codec.

(** [_create_packet]: [now] is the value [time.time()] returns. *)
Definition _create_packet (cfg : BenchmarkConfig) (now : float) (msg_id : Z)
  : result (bytes * float) :=
  let send_time := now in
  payload <- bytes_repeat "a"%byte (payload_size cfg) ;;
  header <- struct_pack_Idi msg_id send_time (len payload) ;;
  Return (header ++ payload, send_time).

(** [_parse_packet]. *)
Definition _parse_packet (data : bytes) : result (Z * float * bytes) :=
  if len data <? 16 then Raise ValueError
  else
    '(msg_id, send_time, payload_len) <- struct_unpack_Idi (py_slice data 0 16) ;;
    let payload := py_slice data 16 (16 + payload_len) in
    Return (msg_id, send_time, payload).

(** The three header fields of a received buffer, by offset. *)
Definition header_msg_id (data : bytes) : Z := unpack_I (firstn 4 data).
Definition header_send_time (data : bytes) : float :=
  unpack_d (firstn 8 (skipn 4 data)).
Definition header_payload_len (data : bytes) : Z :=
  unpack_i (firstn 4 (skipn 12 data)).

(** *** Bytes and little-endian integers *)

Lemma Z_of_byte_range (b : byte) : 0 <= Z_of_byte b < 256.
Proof.
  unfold Z_of_byte. pose proof (Byte.to_N_bounded b). lia.
Qed.

Lemma Z_of_byte_of_Z (z : Z) : Z_of_byte (byte_of_Z z) = z mod 256.
Proof.
  unfold Z_of_byte, byte_of_Z.
  assert (Hm : 0 <= z mod 256 < 256) by (apply Z.mod_pos_bound; lia).
  destruct (Byte.of_N (Z.to_N (z mod 256))) as [b|] eqn:E.
  - apply Byte.to_of_N in E. rewrite E. apply Z2N.id. lia.
  - apply Byte.of_N_None_iff in E. lia.
Qed.

Lemma le_encode_length (n : nat) (z : Z) : length (le_encode n z) = n.
Proof.
  revert z. induction n as [|n IH]; intros z; simpl; [reflexivity|].
  now rewrite IH.
Qed.

Lemma le_decode_encode (n : nat) (z : Z) :
  0 <= z < 256 ^ Z.of_nat n -> le_decode (le_encode n z) = z.
Proof.
  revert z. induction n as [|n IH]; intros z Hz.
  - simpl in *. lia.
  - cbn [le_encode le_decode]. rewrite Z_of_byte_of_Z.
    rewrite Nat2Z.inj_succ, Z.pow_succ_r in Hz by lia.
    rewrite IH.
    + pose proof (Z.div_mod z 256). lia.
    + split.
      * apply Z.div_pos; lia.
      * apply Z.div_lt_upper_bound; lia.
Qed.

Lemma le_decode_range (bs : bytes) :
  0 <= le_decode bs < 256 ^ Z.of_nat (length bs).
Proof.
  induction bs as [|b bs IH].
  - simpl. lia.
  - cbn [le_decode length]. rewrite Nat2Z.inj_succ, Z.pow_succ_r by lia.
    pose proof (Z_of_byte_range b). lia.
Qed.

Lemma unpack_pack_I (v : Z) (bs : bytes) :
  pack_I v = Return bs -> length bs = 4%nat /\ unpack_I bs = v.
Proof.
  unfold pack_I, unpack_I.
  destruct ((0 <=? v) && (v <? 2 ^ 32)) eqn:E; [|discriminate].
  intros H. assert (bs = le_encode 4 v) as -> by congruence. clear H.
  split; [apply le_encode_length|].
  apply le_decode_encode. change (256 ^ Z.of_nat 4) with (2 ^ 32). lia.
Qed.

Lemma unpack_pack_i (v : Z) (bs : bytes) :
  pack_i v = Return bs -> length bs = 4%nat /\ unpack_i bs = v.
Proof.
  unfold pack_i, unpack_i.
  destruct ((- 2 ^ 31 <=? v) && (v <? 2 ^ 31)) eqn:E; [|discriminate].
  intros H. assert (bs = le_encode 4 (v mod 2 ^ 32)) as -> by congruence. clear H.
  split; [apply le_encode_length|].
  assert (Hm : 0 <= v mod 2 ^ 32 < 2 ^ 32) by (apply Z.mod_pos_bound; lia).
  rewrite le_decode_encode by (change (256 ^ Z.of_nat 4) with (2 ^ 32); lia).
  destruct (Z.ltb_spec v 0) as [Hneg|Hpos].
  - assert (Hv : v mod 2 ^ 32 = v + 2 ^ 32).
    { symmetry. apply Z.mod_unique with (q := -1); lia. }
    rewrite Hv. destruct (Z.ltb_spec (v + 2 ^ 32) (2 ^ 31)); lia.
  - rewrite Z.mod_small by lia.
    destruct (Z.ltb_spec v (2 ^ 31)); lia.
Qed.

Lemma pack_d_length (t : float) : length (pack_d t) = 8%nat.
Proof. apply le_encode_length. Qed.

(** *** binary64 images *)

Lemma digits2_pos_bounds (m : positive) :
  2 ^ (Z.pos (digits2_pos m) - 1) <= Z.pos m < 2 ^ Z.pos (digits2_pos m).
Proof.
  induction m as [m IH|m IH|]; cbn [digits2_pos].
  - rewrite Pos2Z.inj_succ.
    replace (Z.succ (Z.pos (digits2_pos m)) - 1) with (Z.succ (Z.pos (digits2_pos m) - 1)) by lia.
    rewrite !Z.pow_succ_r by lia. lia.
  - rewrite Pos2Z.inj_succ.
    replace (Z.succ (Z.pos (digits2_pos m)) - 1) with (Z.succ (Z.pos (digits2_pos m) - 1)) by lia.
    rewrite !Z.pow_succ_r by lia. lia.
  - simpl. lia.
Qed.

(** What validity says of a finite binary64: a mantissa of 53 bits with an
    exponent from -1074 to 971, or a shorter mantissa at exponent -1074. *)
Lemma valid_finite_shape (m : positive) (e : Z) :
  bounded prec emax m e = true ->
  (2 ^ 52 <= Z.pos m < 2 ^ 53 /\ -1074 <= e <= 971) \/
  (Z.pos m < 2 ^ 52 /\ e = -1074).
Proof.
  unfold bounded, canonical_mantissa, fexp, emin, prec, emax.
  intros H. apply andb_true_iff in H. destruct H as [Hc He].
  apply Z.eqb_eq in Hc. apply Z.leb_le in He.
  pose proof (digits2_pos_bounds m) as [Hlo Hhi].
  set (d := Z.pos (digits2_pos m)) in *.
  assert (Hd : 0 < d) by (unfold d; lia).
  destruct (Z.lt_trichotomy d 53) as [Hlt|[Heq|Hgt]].
  - right. split; [|lia].
    apply Z.lt_le_trans with (2 ^ d); [exact Hhi|].
    apply Z.pow_le_mono_r; lia.
  - left. rewrite Heq in *. change (53 - 1) with 52 in Hlo. lia.
  - lia.
Qed.

(** The three fields of a 64-bit image, by arithmetic. *)
Lemma bit_fields (sg E M : Z) :
  0 <= sg <= 1 -> 0 <= E < 2 ^ 11 -> 0 <= M < 2 ^ 52 ->
  let b := sg * 2 ^ 63 + E * 2 ^ 52 + M in
  (b / 2 ^ 63) mod 2 = sg /\ (b / 2 ^ 52) mod 2 ^ 11 = E /\ b mod 2 ^ 52 = M.
Proof.
  intros Hs HE HM b.
  assert (H63 : b / 2 ^ 63 = sg).
  { symmetry. apply Z.div_unique with (r := E * 2 ^ 52 + M); unfold b; lia. }
  assert (H52 : b / 2 ^ 52 = sg * 2 ^ 11 + E).
  { symmetry. apply Z.div_unique with (r := M); unfold b; lia. }
  repeat split.
  - rewrite H63. apply Z.mod_small. lia.
  - rewrite H52. symmetry. apply Z.mod_unique with (q := sg); lia.
  - symmetry. apply Z.mod_unique with (q := sg * 2 ^ 11 + E); unfold b; lia.
Qed.

Lemma decode_bit_fields (s : bool) (E M : Z) :
  0 <= E < 2 ^ 11 -> 0 <= M < 2 ^ 52 ->
  let b := (if s then 2 ^ 63 else 0) + (E * 2 ^ 52 + M) in
  Z.testbit b 63 = s /\ Z.land (Z.shiftr b 52) 2047 = E /\ Z.land b (2 ^ 52 - 1) = M.
Proof.
  intros HE HM b.
  destruct (bit_fields (Z.b2z s) E M) as (H1 & H2 & H3); trivial.
  { destruct s; simpl; lia. }
  assert (Eb : b = Z.b2z s * 2 ^ 63 + E * 2 ^ 52 + M).
  { unfold b. destruct s; simpl Z.b2z; lia. }
  rewrite Eb. repeat split.
  - rewrite Z.testbit_eqb by lia. rewrite H1. now destruct s.
  - rewrite Z.shiftr_div_pow2 by lia. change 2047 with (Z.ones 11).
    rewrite Z.land_ones by lia. exact H2.
  - change (2 ^ 52 - 1) with (Z.ones 52). rewrite Z.land_ones by lia. exact H3.
Qed.

Lemma f64_bits_range (f : float) : 0 <= f64_bits f < 2 ^ 64.
Proof.
  unfold f64_bits. pose proof (Prim2SF_valid f) as Hv.
  destruct (Prim2SF f) as [s|s| |s m e].
  - destruct s; lia.
  - destruct s; lia.
  - lia.
  - cbn [valid_binary] in Hv.
    destruct (valid_finite_shape m e Hv) as [[Hm He]|[Hm He]];
      destruct (Z.ltb_spec (Z.pos m) (2 ^ 52)); destruct s; lia.
Qed.

(** Every double is recovered from its image. *)
Lemma bits_f64_of_bits (f : float) : bits_f64 (f64_bits f) = f.
Proof.
  rewrite <- (SF2Prim_Prim2SF f) at 2.
  unfold bits_f64, f64_bits. f_equal.
  pose proof (Prim2SF_valid f) as Hv.
  destruct (Prim2SF f) as [s|s| |s m e].
  - destruct s; reflexivity.
  - destruct s; reflexivity.
  - reflexivity.
  - cbn [valid_binary] in Hv.
    destruct (valid_finite_shape m e Hv) as [[Hm He]|[Hm He]].
    + destruct (Z.ltb_spec (Z.pos m) (2 ^ 52)); [lia|].
      destruct (decode_bit_fields s (e + 1075) (Z.pos m - 2 ^ 52)) as (H1 & H2 & H3); [lia..|].
      cbv zeta in H1, H2, H3. rewrite H1, H2, H3.
      destruct (Z.eqb_spec (e + 1075) 0); [lia|].
      destruct (Z.eqb_spec (e + 1075) 2047); [lia|].
      replace (Z.pos m - 2 ^ 52 + 2 ^ 52) with (Z.pos m) by lia.
      f_equal. lia.
    + destruct (Z.ltb_spec (Z.pos m) (2 ^ 52)); [|lia].
      destruct (decode_bit_fields s 0 (Z.pos m)) as (H1 & H2 & H3); [lia..|].
      cbv zeta in H1, H2, H3. cbn [Z.mul Z.add] in H1, H2, H3.
      rewrite H1, H2, H3. cbn [Z.eqb]. now subst e.
Qed.

Lemma unpack_pack_d (t : float) : unpack_d (pack_d t) = t.
Proof.
  unfold unpack_d, pack_d.
  rewrite le_decode_encode.
  - apply bits_f64_of_bits.
  - change (256 ^ Z.of_nat 8) with (2 ^ 64). apply f64_bits_range.
Qed.

(** *** Slices of a header followed by a payload *)

Lemma len_app {A} (l1 l2 : list A) : len (l1 ++ l2) = len l1 + len l2.
Proof. unfold len. rewrite length_app. lia. Qed.

Lemma len_nonneg {A} (l : list A) : 0 <= len l.
Proof. unfold len. lia. Qed.

Lemma py_slice_from_16 {A} (data : list A) (stop : Z) :
  16 <= len data -> 16 <= stop ->
  py_slice data 16 stop = firstn (Z.to_nat (stop - 16)) (skipn 16 data).
Proof.
  intros Hlen Hstop. unfold py_slice, slice_index.
  destruct (Z.ltb_spec 16 0); [lia|].
  destruct (Z.ltb_spec stop 0); [lia|].
  rewrite (Z.min_l 16) by lia. change (Z.to_nat 16) with 16%nat.
  destruct (Z.le_ge_cases stop (len data)) as [Hle|Hge].
  - now rewrite Z.min_l by lia.
  - rewrite Z.min_r by lia.
    assert (Hsk : length (skipn 16 data) = Z.to_nat (len data - 16)).
    { rewrite length_skipn. unfold len. lia. }
    rewrite !firstn_all2; trivial; rewrite Hsk; lia.
Qed.

Lemma py_slice_header {A} (data : list A) :
  16 <= len data -> py_slice data 0 16 = firstn 16 data.
Proof.
  intros Hlen. unfold py_slice, slice_index. simpl (0 <? 0). simpl (16 <? 0).
  cbv iota. rewrite (Z.min_l 0), (Z.min_l 16) by lia.
  reflexivity.
Qed.

Lemma py_slice_empty_range {A} (data : list A) (stop : Z) :
  16 <= len data -> 0 <= stop <= 16 -> py_slice data 16 stop = [].
Proof.
  intros Hlen Hstop. unfold py_slice, slice_index.
  destruct (Z.ltb_spec 16 0); [lia|].
  destruct (Z.ltb_spec stop 0); [lia|].
  rewrite (Z.min_l 16), (Z.min_l stop) by lia.
  replace (Z.to_nat (stop - 16)) with 0%nat by lia. reflexivity.
Qed.

(** *** What [_parse_packet] returns *)

Lemma parse_short (data : bytes) :
  len data < 16 -> _parse_packet data = Raise ValueError.
Proof.
  intros H. unfold _parse_packet.
  destruct (Z.ltb_spec (len data) 16); [reflexivity|lia].
Qed.

Lemma parse_long (data : bytes) :
  16 <= len data ->
  _parse_packet data =
    Return (header_msg_id data, header_send_time data,
            py_slice data 16 (16 + header_payload_len data)).
Proof.
  intros H. unfold _parse_packet.
  destruct (Z.ltb_spec (len data) 16); [lia|].
  rewrite py_slice_header by assumption.
  unfold struct_unpack_Idi.
  assert (Hl : len (firstn 16 data) = 16).
  { unfold len in *. rewrite length_firstn. lia. }
  rewrite Hl. cbn [Z.eqb Pos.eqb bind].
  unfold header_msg_id, header_send_time, header_payload_len.
  assert (H4 : firstn 4 (firstn 16 data) = firstn 4 data).
  { rewrite firstn_firstn. reflexivity. }
  assert (H8 : firstn 8 (skipn 4 (firstn 16 data)) = firstn 8 (skipn 4 data)).
  { rewrite skipn_firstn_comm, firstn_firstn. reflexivity. }
  assert (H12 : skipn 12 (firstn 16 data) = firstn 4 (skipn 12 data)).
  { rewrite skipn_firstn_comm. reflexivity. }
  rewrite H4, H8, H12. reflexivity.
Qed.

Lemma header_fields_of_pack (a : Z) (t : float) (n : Z) (h payload : bytes) :
  struct_pack_Idi a t n = Return h ->
  length h = 16%nat /\
  header_msg_id (h ++ payload) = a /\
  header_send_time (h ++ payload) = t /\
  header_payload_len (h ++ payload) = n.
Proof.
  unfold struct_pack_Idi.
  destruct (pack_I a) as [x|] eqn:Ea; [|discriminate].
  destruct (pack_i n) as [z|] eqn:En; [|discriminate].
  cbn [bind]. intros H.
  assert (h = x ++ pack_d t ++ z) as -> by congruence. clear H.
  destruct (unpack_pack_I _ _ Ea) as [Lx Vx].
  destruct (unpack_pack_i _ _ En) as [Lz Vz].
  pose proof (pack_d_length t) as Ld.
  unfold header_msg_id, header_send_time, header_payload_len.
  rewrite <- !app_assoc.
  repeat split.
  - rewrite !length_app. lia.
  - rewrite firstn_app, Lx, Nat.sub_diag, firstn_O, app_nil_r.
    rewrite firstn_all2 by lia. exact Vx.
  - rewrite skipn_app, Lx, Nat.sub_diag, skipn_all2 by lia. cbn [app skipn].
    rewrite firstn_app, Ld, Nat.sub_diag, firstn_O, app_nil_r.
    rewrite firstn_all2 by lia. apply unpack_pack_d.
  - rewrite skipn_app, Lx, skipn_all2 by lia. cbn [app].
    replace (12 - 4)%nat with 8%nat by lia.
    rewrite skipn_app, Ld, Nat.sub_diag, skipn_all2 by lia. cbn [app skipn].
    rewrite firstn_app, Lz, Nat.sub_diag, firstn_O, app_nil_r.
    rewrite firstn_all2 by lia. exact Vz.
Qed.

(** A frame made of a packed header and any payload of the declared length
    parses back to the same id, send time and payload. *)
Lemma parse_frame_roundtrip (a : Z) (t : float) (h payload : bytes) :
  struct_pack_Idi a t (len payload) = Return h ->
  _parse_packet (h ++ payload) = Return (a, t, payload).
Proof.
  intros Hp.
  destruct (header_fields_of_pack _ _ _ _ payload Hp) as (Lh & Ha & Ht & Hn).
  assert (Hlen : 16 <= len (h ++ payload)).
  { rewrite len_app. pose proof (len_nonneg payload). unfold len. lia. }
  rewrite parse_long by assumption.
  rewrite Ha, Ht, Hn.
  rewrite py_slice_from_16 by (pose proof (len_nonneg payload); lia).
  replace (16 + len payload - 16) with (len payload) by lia.
  replace (skipn 16 (h ++ payload)) with payload.
  - unfold len. rewrite Nat2Z.id, firstn_all. reflexivity.
  - rewrite skipn_app, Lh, Nat.sub_diag, skipn_all2 by lia. reflexivity.
Qed.

Lemma pack_in_range (a : Z) (t : float) (n : Z) :
  0 <= a < 2 ^ 32 -> - 2 ^ 31 <= n < 2 ^ 31 ->
  exists h, struct_pack_Idi a t n = Return h /\ length h = 16%nat.
Proof.
  intros Ha Hn. unfold struct_pack_Idi, pack_I, pack_i.
  replace ((0 <=? a) && (a <? 2 ^ 32)) with true by (symmetry; apply andb_true_iff; lia).
  replace ((- 2 ^ 31 <=? n) && (n <? 2 ^ 31)) with true by (symmetry; apply andb_true_iff; lia).
  cbn [bind]. eexists. split; [reflexivity|].
  rewrite !length_app, !le_encode_length, pack_d_length. reflexivity.
Qed.

Lemma create_packet_in_range (cfg : BenchmarkConfig) (now : float) (id : Z) :
  0 <= id < 2 ^ 32 -> payload_size cfg < 2 ^ 31 ->
  exists h,
    struct_pack_Idi id now (len (repeat "a"%byte (Z.to_nat (payload_size cfg)))) = Return h /\
    length h = 16%nat /\
    _create_packet cfg now id =
      Return (h ++ repeat "a"%byte (Z.to_nat (payload_size cfg)), now).
Proof.
  intros Hid Hsz. unfold _create_packet, bytes_repeat, PY_SSIZE_T_MAX.
  destruct (Z.gtb_spec (payload_size cfg) (2 ^ 63 - 1)); [lia|].
  cbn [bind].
  destruct (pack_in_range id now (len (repeat "a"%byte (Z.to_nat (payload_size cfg)))))
    as (h & Hh & Lh); trivial.
  { unfold len. rewrite repeat_length. lia. }
  exists h. rewrite Hh. cbn [bind]. auto.
Qed.

(** *** Concrete inputs *)

(** The defaults of the [BenchmarkConfig] dataclass. *)
Definition default_config : BenchmarkConfig := {|
  mode := TCP;
  host := "192.168.1.100"%string;
  port := 5000;
  payload_size := 100;
  max_packets := 1000;
  send_delay := 0x1.47ae147ae147bp-7%float;   (* 0.01 *)
  timeout := 5%float;
  is_sender := true;
  is_receiver := true;
  print_logs := true;
  log_frequency := 10;
  save_results := true;
  results_file := "benchmark_results.json"%string
|}.

(** A 21-byte buffer: id 1, timestamp 0.0, length field -18 (ee ff ff ff),
    then the five bytes [abcde]. *)
Definition negative_length_frame : bytes :=
  [x01; x00; x00; x00;
   x00; x00; x00; x00; x00; x00; x00; x00;
   xee; xff; xff; xff;
   "a"; "b"; "c"; "d"; "e"]%byte.

(** *** Claims on the codec *)

(** C1. Round trip: when the message id is in the unsigned 32-bit range and
    the configured payload size is a non-negative number that fits the
    signed 32-bit length field, [_create_packet] returns a frame that
    [_parse_packet] decodes to the same message id and the same payload
    bytes (the payload being [payload_size] copies of the byte [a]); the
    send time comes back as well. *)
Theorem create_parse_roundtrip (cfg : BenchmarkConfig) (now : float) (id : Z) :
  0 <= id < 2 ^ 32 ->
  0 <= payload_size cfg < 2 ^ 31 ->
  exists data payload,
    _create_packet cfg now id = Return (data, now) /\
    payload = repeat "a"%byte (Z.to_nat (payload_size cfg)) /\
    len payload = payload_size cfg /\
    _parse_packet data = Return (id, now, payload).
Proof.
  intros Hid Hsz.
  destruct (create_packet_in_range cfg now id) as (h & Hp & Lh & Hc); [lia..|].
  exists (h ++ repeat "a"%byte (Z.to_nat (payload_size cfg))).
  exists (repeat "a"%byte (Z.to_nat (payload_size cfg))).
  repeat split.
  - exact Hc.
  - unfold len. rewrite repeat_length. lia.
  - apply parse_frame_roundtrip. exact Hp.
Qed.

Lemma create_parse_roundtrip_witness :
  exists data payload,
    _create_packet default_config 0%float 1 = Return (data, 0%float) /\
    payload = repeat "a"%byte (Z.to_nat (payload_size default_config)) /\
    len payload = payload_size default_config /\
    _parse_packet data = Return (1, 0%float, payload).
Proof.
  apply (create_parse_roundtrip default_config 0%float 1); simpl; lia.
Defined.

(** C7, as the code has it.  [_parse_packet] raises exactly when fewer than
    16 bytes are supplied, and what it raises is [ValueError]; the sign of
    the length field is not inspected.  Every buffer of at least 16 bytes
    is decoded to (id, send time, payload) where the payload is the slice
    [data[16:16+payload_len]]; for a non-negative length field that is the
    first [payload_len] bytes after the header (fewer when the buffer ends
    earlier). *)
Theorem parse_packet_fails_iff_short (data : bytes) :
  (_parse_packet data = Raise ValueError <-> len data < 16) /\
  (forall e, _parse_packet data = Raise e -> e = ValueError /\ len data < 16) /\
  (16 <= len data ->
     _parse_packet data =
       Return (header_msg_id data, header_send_time data,
               py_slice data 16 (16 + header_payload_len data)) /\
     (0 <= header_payload_len data ->
        py_slice data 16 (16 + header_payload_len data) =
          firstn (Z.to_nat (header_payload_len data)) (skipn 16 data))).
Proof.
  destruct (Z.lt_ge_cases (len data) 16) as [Hs|Hl].
  - pose proof (parse_short data Hs) as E. rewrite E.
    repeat split; try lia; intros; try congruence.
  - pose proof (parse_long data Hl) as E. rewrite E.
    split; [split; [discriminate|lia]|].
    split; [intros e; discriminate|].
    intros _. split; [reflexivity|]. intros Hn.
    rewrite py_slice_from_16 by lia. f_equal. lia.
Qed.

(** C7, counterexample to the claim as stated: a buffer of 21 bytes whose
    length field is negative is decoded without error. *)
Lemma parse_packet_negative_length_accepted :
  header_payload_len negative_length_frame = -18 /\
  _parse_packet negative_length_frame = Return (1, 0%float, ["a"; "b"; "c"]%byte).
Proof. split; vm_compute; reflexivity. Qed.

(** C9, as the code has it.  When the message id is in the unsigned 32-bit
    range and the payload ([payload_size] copies of [a], none when the size
    is not positive) has a size that fits the signed 32-bit length field,
    [_create_packet] does not raise: it returns the 16-byte packed header
    followed by the payload, together with the send time. *)
Theorem create_packet_succeeds (cfg : BenchmarkConfig) (now : float) (id : Z) :
  0 <= id < 2 ^ 32 ->
  payload_size cfg < 2 ^ 31 ->
  exists header payload,
    payload = repeat "a"%byte (Z.to_nat (payload_size cfg)) /\
    struct_pack_Idi id now (len payload) = Return header /\
    length header = 16%nat /\
    _create_packet cfg now id = Return (header ++ payload, now).
Proof.
  intros Hid Hsz.
  destruct (create_packet_in_range cfg now id Hid Hsz) as (h & Hp & Lh & Hc).
  exists h, (repeat "a"%byte (Z.to_nat (payload_size cfg))). auto.
Qed.

Lemma create_packet_succeeds_witness :
  exists header payload,
    payload = repeat "a"%byte (Z.to_nat (payload_size default_config)) /\
    struct_pack_Idi 1000 0%float (len payload) = Return header /\
    length header = 16%nat /\
    _create_packet default_config 0%float 1000 = Return (header ++ payload, 0%float).
Proof.
  apply (create_packet_succeeds default_config 0%float 1000); simpl; lia.
Defined.

(** C9, counterexample to the claim as stated: the payload size (100) fits
    the length field, yet packing the message id 2^32 with the format [I]
    raises. *)
Lemma create_packet_id_out_of_range :
  payload_size default_config = 100 /\
  _create_packet default_config 0%float (2 ^ 32) = Raise StructError.
Proof. split; vm_compute; reflexivity. Qed.

End Codec.

(* ================================================================== *)
(** ** Receiver loop                                                   *)
(* ================================================================== *)

Module Receiver.

Import Codec.

(** *** Sockets

    What the peer and the network do is a script, one entry per thing the
    next read can meet.  In stream mode [Data bs] is a run of bytes ready
    to be read (a read takes a prefix and leaves the rest) and the end of
    the script is a peer that has closed: every read returns [b'']. In
    datagram mode [Data bs] is one datagram and the end of the script is
    silence.

    [Silence] is a read that raises [socket.timeout], which only a socket
    with a timeout does.  Setup gives one (1 second) to the datagram
    socket and to the listening socket; the socket [accept()] returns has
    none, so the scripts the stream receiver of [_receiver_loop] can meet
    hold no [Silence].  [_recv_exactly] has a clause for the timeout all
    the same, and the embedding keeps it.  A read that blocks for ever (a
    peer that stays connected and sends nothing to a socket without
    timeout) is no event: a script describes reads that return. *)
Inductive net_event : Type :=
| Data (bs : bytes)
| Silence            (* nothing within the timeout: socket.timeout *)
| Failure.           (* the read fails with another OSError *)

Definition socket := list net_event.

(** [sock.recv(bufsize)] on a stream socket. *)
Definition sock_recv (bufsize : Z) (s : socket) : result bytes * socket :=
  match s with
  | [] => (Return [], [])
  | Data bs :: rest =>
      let k := Z.to_nat bufsize in
      (Return (firstn k bs),
       match skipn k bs with
       | [] => rest
       | more => Data more :: rest
       end)
  | Silence :: rest => (Raise SocketTimeout, rest)
  | Failure :: rest => (Raise OSError, rest)
  end.

(** [sock.recvfrom(bufsize)] on a datagram socket; the bytes of a datagram
    beyond [bufsize] are discarded.  The peer address is not modelled. *)
Definition sock_recvfrom (bufsize : Z) (s : socket) : result bytes * socket :=
  match s with
  | [] => (Raise SocketTimeout, [])
  | Data bs :: rest => (Return (firstn (Z.to_nat bufsize) bs), rest)
  | Silence :: rest => (Raise SocketTimeout, rest)
  | Failure :: rest => (Raise OSError, rest)
  end.

(** *** [_recv_exactly]

    The [while len(data) < n] loop, with a bound on the number of reads;
    [None] means the bound was too small.  Every read that lets the loop go
    on adds at least one byte, so [n] reads are enough
    ([recv_exactly_returns]). *)
Fixpoint recv_exactly_loop (fuel : nat) (n : Z) (data : bytes) (s : socket)
  : option (result bytes * socket) :=
  if len data <? n then
    match fuel with
    | O => None
    | S fuel' =>
        match sock_recv (n - len data) s with
        | (Return [], s') => Some (Return [], s')        (* connection closed *)
        | (Return chunk, s') => recv_exactly_loop fuel' n (data ++ chunk) s'
        | (Raise SocketTimeout, s') => Some (Return [], s')
        | (Raise e, s') => Some (Raise e, s')
        end
    end
  else Some (Return data, s).

Definition _recv_exactly (n : Z) (s : socket) : option (result bytes * socket) :=
  recv_exactly_loop (Z.to_nat n) n [] s.

(** *** [_recv_tcp_packet] *)
Definition _recv_tcp_packet (s : socket) : option (result bytes * socket) :=
  match _recv_exactly 16 s with
  | None => None
  | Some (Raise e, s1) => Some (Raise e, s1)
  | Some (Return [], s1) => Some (Return [], s1)
  | Some (Return header, s1) =>
      match struct_unpack_Idi header with
      | Raise e => Some (Raise e, s1)
      | Return (_, _, payload_len) =>
          match _recv_exactly payload_len s1 with
          | None => None
          | Some (Raise e, s2) => Some (Raise e, s2)
          | Some (Return payload, s2) => Some (Return (header ++ payload), s2)
          end
      end
  end.

(** *** [_receiver_loop], from the point where the connection is accepted *)

Record receiver_state : Type := {
  sock : socket;
  metrics : list PacketMetrics;
  packets_received : Z;
  consecutive_timeouts : Z
}.

Definition max_timeouts : Z := 20.

(** The three [break]s of the loop, and the loop condition turning false. *)
Inductive stop_reason : Type :=
| NoData                (* "No data for 20 attempts, stopping..." *)
| TimeoutLimit          (* "Timeout limit reached, stopping..." *)
| Error (e : exn)       (* except Exception: break *)
| Cancelled.            (* self.running is False at the loop head *)

Inductive flow : Type :=
| Continue
| Break (r : stop_reason).

(** The data of one iteration: a whole frame in stream mode, a datagram in
    datagram mode. *)
Definition receive (cfg : BenchmarkConfig) (s : socket)
  : option (result bytes * socket) :=
  match mode cfg with
  | TCP => _recv_tcp_packet s
  | UDP => Some (sock_recvfrom 65535 s)
  end.

Definition with_timeouts (st : receiver_state) (s : socket) (c : Z)
  : receiver_state :=
  {| sock := s; metrics := metrics st;
     packets_received := packets_received st; consecutive_timeouts := c |}.

(** The two [except] clauses. *)
Definition handle (e : exn) (st : receiver_state) (s : socket) (c : Z)
  : flow * receiver_state :=
  match e with
  | SocketTimeout =>
      if c + 1 >=? max_timeouts then (Break TimeoutLimit, with_timeouts st s (c + 1))
      else (Continue, with_timeouts st s (c + 1))
  | _ => (Break (Error e), with_timeouts st s c)
  end.

(** One pass through the body of [while self.running].  [clock k] is what
    [time.time()] returns when [k] packets have been received so far. *)
Definition receiver_iteration (cfg : BenchmarkConfig) (clock : Z -> float)
  (st : receiver_state) : option (flow * receiver_state) :=
  match receive cfg (sock st) with
  | None => None
  | Some (Raise e, s) => Some (handle e st s (consecutive_timeouts st))
  | Some (Return [], s) =>
      let c := consecutive_timeouts st + 1 in
      if c >=? max_timeouts then Some (Break NoData, with_timeouts st s c)
      else Some (Continue, with_timeouts st s c)
  | Some (Return data, s) =>
      let recv_time := clock (packets_received st) in
      match _parse_packet data with
      | Raise e => Some (handle e st s 0)
      | Return (msg_id, send_time, payload) =>
          let latency_ms := ((recv_time - send_time) * 1000)%float in
          let metric :=
            {| msg_id := msg_id; send_time := send_time; recv_time := recv_time;
               metric_payload_size := len payload; latency_ms := latency_ms |} in
          let st' :=
            {| sock := s; metrics := metrics st ++ [metric];
               packets_received := packets_received st + 1;
               consecutive_timeouts := 0 |} in
          if print_logs cfg && (log_frequency cfg =? 0)
          then Some (handle ZeroDivisionError st' s 0)   (* msg_id % 0 *)
          else Some (Continue, st')
      end
  end.

(** The loop; [running] is the number of times the loop head finds
    [self.running] true. *)
Fixpoint receiver_loop (running : nat) (cfg : BenchmarkConfig)
  (clock : Z -> float) (st : receiver_state)
  : option (stop_reason * receiver_state) :=
  match running with
  | O => Some (Cancelled, st)
  | S running' =>
      match receiver_iteration cfg clock st with
      | None => None
      | Some (Continue, st') => receiver_loop running' cfg clock st'
      | Some (Break r, st') => Some (r, st')
      end
  end.

Definition initial_state (s : socket) : receiver_state :=
  {| sock := s; metrics := []; packets_received := 0; consecutive_timeouts := 0 |}.

Definition _receiver_loop (running : nat) (cfg : BenchmarkConfig)
  (clock : Z -> float) (s : socket) : option (stop_reason * receiver_state) :=
  receiver_loop running cfg clock (initial_state s).

(** The metric the loop builds for a decoded frame. *)
Definition metric_of (recv_time : float) (id : Z) (sent : float) (payload : bytes)
  : PacketMetrics :=
  {| msg_id := id; send_time := sent; recv_time := recv_time;
     metric_payload_size := len payload;
     latency_ms := ((recv_time - sent) * 1000)%float |}.

(** [print_logs and msg_id % log_frequency == 0] can be evaluated. *)
Definition log_check_defined (cfg : BenchmarkConfig) : Prop :=
  print_logs cfg && (log_frequency cfg =? 0) = false.

(** *** Concrete inputs *)

Definition udp_config : BenchmarkConfig := {|
  mode := UDP;
  host := host default_config;
  port := port default_config;
  payload_size := payload_size default_config;
  max_packets := max_packets default_config;
  send_delay := send_delay default_config;
  timeout := timeout default_config;
  is_sender := false;
  is_receiver := true;
  print_logs := print_logs default_config;
  log_frequency := log_frequency default_config;
  save_results := save_results default_config;
  results_file := results_file default_config
|}.

(** A header with id 1, timestamp 0.0 and a declared payload of 100 bytes. *)
Definition header_100 : bytes :=
  [x01; x00; x00; x00;
   x00; x00; x00; x00; x00; x00; x00; x00;
   x64; x00; x00; x00]%byte.

(** A clock that reads 2.0 seconds at every call. *)
Definition clock_2 (k : Z) : float := 2%float.

(** *** [_recv_exactly] *)

Lemma sock_recv_failure_in (k : Z) (s s' : socket) (r : result bytes) :
  sock_recv k s = (r, s') -> In Failure s' -> In Failure s.
Proof.
  destruct s as [|[bs| |] rest]; cbn [sock_recv]; intros [= <- <-]; auto.
  - destruct (skipn (Z.to_nat k) bs); cbn [In]; intuition discriminate.
  - cbn [In]. auto.
  - cbn [In]. auto.
Qed.

Lemma sock_recv_size (k : Z) (s s' : socket) (chunk : bytes) :
  sock_recv k s = (Return chunk, s') -> len chunk <= Z.max k 0.
Proof.
  destruct s as [|[bs| |] rest]; cbn [sock_recv]; intros [= <- <-].
  - unfold len. simpl. lia.
  - unfold len. rewrite length_firstn. lia.
Qed.

Lemma sock_recv_raises (k : Z) (s s' : socket) (e : exn) :
  sock_recv k s = (Raise e, s') ->
  e = SocketTimeout \/ (e = OSError /\ In Failure s).
Proof.
  destruct s as [|[bs| |] rest]; cbn [sock_recv]; intros [= <- <-]; cbn [In]; auto.
Qed.

(** With as many reads allowed as bytes are missing, the loop finishes, and
    what it returns is empty or has exactly [n] bytes. *)
Lemma recv_exactly_loop_result (fuel : nat) :
  forall (n : Z) (data : bytes) (s : socket),
    n - len data <= Z.of_nat fuel ->
    len data <= n \/ data = [] ->
    exists r s',
      recv_exactly_loop fuel n data s = Some (r, s') /\
      match r with
      | Return d => d = [] \/ len d = n
      | Raise e => e = OSError /\ In Failure s
      end.
Proof.
  induction fuel as [|fuel IH]; intros n data s Hfuel Hdata.
  - cbn [recv_exactly_loop].
    destruct (Z.ltb_spec (len data) n) as [Hlt|Hge]; [simpl in Hfuel; lia|].
    exists (Return data), s. split; [reflexivity|].
    destruct Hdata; [right; lia|left; assumption].
  - cbn [recv_exactly_loop].
    destruct (Z.ltb_spec (len data) n) as [Hlt|Hge].
    + destruct (sock_recv (n - len data) s) as [[chunk|e] s'] eqn:Hrecv.
      * destruct chunk as [|b chunk'].
        { exists (Return []), s'. auto. }
        pose proof (sock_recv_size _ _ _ _ Hrecv) as Hsz.
        destruct (IH n (data ++ b :: chunk') s') as (r & s'' & Hr & Hprop).
        { rewrite len_app. unfold len in *. cbn [length] in *. lia. }
        { left. rewrite len_app. lia. }
        exists r, s''. split; [exact Hr|].
        destruct r as [d|e]; [exact Hprop|].
        destruct Hprop as [He Hin]. split; [exact He|].
        eapply sock_recv_failure_in; eassumption.
      * destruct (sock_recv_raises _ _ _ _ Hrecv) as [->|[-> Hin]].
        { exists (Return []), s'. auto. }
        { exists (Raise OSError), s'. auto. }
    + exists (Return data), s. split; [reflexivity|].
      destruct Hdata; [right; lia|left; assumption].
Qed.

(** A run of bytes that holds exactly what is asked for is read whole. *)
Lemma recv_exactly_whole_chunk (n : Z) (bs : bytes) (rest : socket) :
  0 < n -> len bs = n ->
  _recv_exactly n (Data bs :: rest) = Some (Return bs, rest).
Proof.
  intros Hn Hlen. unfold _recv_exactly.
  assert (Hk : Z.to_nat n = length bs) by (unfold len in Hlen; lia).
  rewrite Hk.
  destruct bs as [|b bs']; [unfold len in Hlen; simpl in Hlen; lia|].
  cbn [length recv_exactly_loop sock_recv].
  change (len (@nil byte)) with 0. rewrite Z.sub_0_r.
  destruct (Z.ltb_spec 0 n); [|lia].
  rewrite Hk, firstn_all, skipn_all. cbn [app].
  destruct (length bs'); cbn [recv_exactly_loop];
    rewrite Hlen, Z.ltb_irrefl; reflexivity.
Qed.

(** The ways a read sequence stops short: the socket times out, or the
    peer has closed. *)
Inductive gives_up : socket -> socket -> Prop :=
| gives_up_silence (rest : socket) : gives_up (Silence :: rest) rest
| gives_up_closed : gives_up [] [].

(** Some non-empty runs of bytes arrive, fewer bytes in all than are asked
    for, and then the socket gives up: the bytes read so far are dropped
    and the result is empty. *)
Lemma recv_exactly_loop_gives_up (n : Z) (tail rest : socket) :
  gives_up tail rest ->
  forall (runs : list bytes) (fuel : nat) (data : bytes),
    Forall (fun r => r <> []) runs ->
    len data + len (concat runs) < n ->
    n - len data <= Z.of_nat fuel ->
    recv_exactly_loop fuel n data (map Data runs ++ tail) = Some (Return [], rest).
Proof.
  intros Hend runs.
  induction runs as [|r runs IH]; intros fuel data Hne Hlt Hfuel.
  - change (len (concat [])) with 0 in Hlt.
    destruct fuel as [|fuel]; [simpl in Hfuel; lia|].
    cbn [map app recv_exactly_loop].
    destruct (Z.ltb_spec (len data) n); [|lia].
    destruct Hend; reflexivity.
  - cbn [concat] in Hlt. rewrite len_app in Hlt.
    pose proof (len_nonneg (concat runs)) as Hc.
    apply Forall_cons_iff in Hne. destruct Hne as [Hr Hne].
    destruct fuel as [|fuel]; [pose proof (len_nonneg r); simpl in Hfuel; lia|].
    cbn [map app recv_exactly_loop sock_recv].
    destruct (Z.ltb_spec (len data) n); [|pose proof (len_nonneg r); lia].
    rewrite firstn_all2, skipn_all2 by (unfold len in *; lia).
    destruct r as [|b r']; [contradiction|].
    apply IH; trivial.
    + rewrite len_app. lia.
    + rewrite len_app. unfold len in *. cbn [length] in *. lia.
Qed.

Lemma recv_exactly_gives_up (n : Z) (runs : list bytes) (tail rest : socket) :
  gives_up tail rest ->
  Forall (fun r => r <> []) runs ->
  len (concat runs) < n ->
  _recv_exactly n (map Data runs ++ tail) = Some (Return [], rest).
Proof.
  intros Hend Hne Hlt. unfold _recv_exactly.
  apply recv_exactly_loop_gives_up; trivial;
    change (len (@nil byte)) with 0; pose proof (len_nonneg (concat runs)); lia.
Qed.

(** *** One iteration on decodable data *)

Lemma iteration_records (cfg : BenchmarkConfig) (clock : Z -> float)
  (st : receiver_state) (data : bytes) (s : socket)
  (id : Z) (sent : float) (payload : bytes) :
  receive cfg (sock st) = Some (Return data, s) ->
  data <> [] ->
  _parse_packet data = Return (id, sent, payload) ->
  log_check_defined cfg ->
  receiver_iteration cfg clock st =
    Some (Continue,
          {| sock := s;
             metrics := metrics st ++ [metric_of (clock (packets_received st)) id sent payload];
             packets_received := packets_received st + 1;
             consecutive_timeouts := 0 |}).
Proof.
  intros Hrecv Hne Hparse Hlog. unfold receiver_iteration.
  rewrite Hrecv. destruct data as [|b data']; [contradiction|].
  rewrite Hparse. unfold log_check_defined in Hlog. rewrite Hlog.
  reflexivity.
Qed.

(** *** Claims on the receiver *)

(** *** Stream mode: a payload cut short *)

Lemma header_len_whole (h : bytes) :
  len h = 16 -> unpack_i (skipn 12 h) = header_payload_len h.
Proof.
  intros H. unfold header_payload_len. rewrite firstn_all2; [reflexivity|].
  rewrite length_skipn. unfold len in H. lia.
Qed.

(** The header arrives whole, some of the payload follows (possibly none),
    then the socket gives up: [_recv_tcp_packet] hands back the header
    alone, and the part of the payload already read is gone. *)
Lemma recv_tcp_packet_cut_payload (h : bytes) (runs : list bytes)
  (tail rest : socket) :
  len h = 16 -> gives_up tail rest ->
  Forall (fun r => r <> []) runs ->
  len (concat runs) < header_payload_len h ->
  _recv_tcp_packet (Data h :: map Data runs ++ tail) = Some (Return h, rest).
Proof.
  intros Hh Hend Hne Hlt. unfold _recv_tcp_packet.
  rewrite recv_exactly_whole_chunk by (trivial; lia).
  destruct h as [|b h']; [unfold len in Hh; simpl in Hh; lia|].
  unfold struct_unpack_Idi. rewrite Hh. cbn [Z.eqb Pos.eqb].
  rewrite header_len_whole by exact Hh.
  rewrite (recv_exactly_gives_up _ runs tail rest) by assumption.
  rewrite app_nil_r. reflexivity.
Qed.

Lemma cut_payload_iteration (cfg : BenchmarkConfig) (clock : Z -> float)
  (st : receiver_state) (h : bytes) (runs : list bytes) (tail rest : socket) :
  mode cfg = TCP ->
  sock st = Data h :: map Data runs ++ tail ->
  len h = 16 -> gives_up tail rest ->
  Forall (fun r => r <> []) runs ->
  len (concat runs) < header_payload_len h ->
  log_check_defined cfg ->
  receiver_iteration cfg clock st =
    Some (Continue,
          {| sock := rest;
             metrics := metrics st ++
               [metric_of (clock (packets_received st))
                  (header_msg_id h) (header_send_time h) []];
             packets_received := packets_received st + 1;
             consecutive_timeouts := 0 |}).
Proof.
  intros Hm Hs Hh Hend Hne Hlt Hlog.
  apply iteration_records with (data := h); trivial.
  - unfold receive. rewrite Hm, Hs. now apply recv_tcp_packet_cut_payload.
  - intros ->. unfold len in Hh. simpl in Hh. lia.
  - rewrite parse_long by lia. f_equal. f_equal.
    pose proof (len_nonneg (concat runs)).
    rewrite py_slice_from_16 by lia.
    rewrite skipn_all2 by (unfold len in Hh; lia).
    now rewrite firstn_nil.
Qed.

(** C4, as the code has it.  Stream mode: a 16-byte header has been read,
    and of the payload it declares only a part arrives (in any number of
    pieces, possibly none) before the peer closes (or, on a socket with a
    timeout, a read times out).  [_recv_exactly] then gives up on the
    payload: it returns the empty byte string and the bytes it had read
    are gone.  Nothing is raised and the condition is not treated as
    unrecoverable: with fewer than 19 idle reads counted so far, the
    iteration ends without [break] and the loop goes on with the next
    read (when the log cadence can be evaluated). *)
Theorem cut_stream_payload_goes_on (cfg : BenchmarkConfig) (clock : Z -> float)
  (st : receiver_state) (h : bytes) (runs : list bytes) (tail rest : socket) :
  mode cfg = TCP ->
  sock st = Data h :: map Data runs ++ tail ->
  len h = 16 ->
  gives_up tail rest ->
  Forall (fun r => r <> []) runs ->
  len (concat runs) < header_payload_len h ->
  log_check_defined cfg ->
  consecutive_timeouts st + 1 < max_timeouts ->
  _recv_exactly (header_payload_len h) (map Data runs ++ tail) =
    Some (Return [], rest) /\
  exists st',
    receiver_iteration cfg clock st = Some (Continue, st') /\ sock st' = rest.
Proof.
  intros Hm Hs Hh Hend Hne Hlt Hlog _. split.
  - now apply recv_exactly_gives_up.
  - eexists. split; [eapply cut_payload_iteration; eassumption|reflexivity].
Qed.

Lemma cut_stream_payload_goes_on_witness :
  _recv_exactly (header_payload_len header_100)
    (map Data [repeat "a"%byte 40] ++ []) = Some (Return [], []) /\
  exists st',
    receiver_iteration default_config clock_2
      (initial_state (Data header_100 :: map Data [repeat "a"%byte 40] ++ [])) =
      Some (Continue, st') /\
    sock st' = [].
Proof.
  apply (cut_stream_payload_goes_on default_config clock_2
           (initial_state (Data header_100 :: map Data [repeat "a"%byte 40] ++ []))
           header_100 [repeat "a"%byte 40] [] []).
  - reflexivity.
  - reflexivity.
  - reflexivity.
  - constructor.
  - constructor; [discriminate|constructor].
  - vm_compute. reflexivity.
  - reflexivity.
  - vm_compute. reflexivity.
Defined.

(** C4, counterexample to the claim as stated.  Stream mode, default
    configuration: a header declaring 100 payload bytes arrives, then 40
    payload bytes, then the peer closes the connection.  The iteration
    does not end the loop.  (What it does with the header it is left
    with: it decodes it and appends a metric with payload size 0.) *)
Lemma cut_stream_payload_is_recorded :
  header_payload_len header_100 = 100 /\
  receiver_iteration default_config clock_2
    (initial_state [Data header_100; Data (repeat "a"%byte 40)]) =
  Some (Continue,
        {| sock := [];
           metrics := [ {| msg_id := 1; send_time := 0%float; recv_time := 2%float;
                           metric_payload_size := 0; latency_ms := 2000%float |} ];
           packets_received := 1;
           consecutive_timeouts := 0 |}).
Proof. split; vm_compute; reflexivity. Qed.

(** *** Stream mode: the peer has closed *)

Lemma closed_iteration (cfg : BenchmarkConfig) (clock : Z -> float)
  (st : receiver_state) :
  mode cfg = TCP -> sock st = [] ->
  receiver_iteration cfg clock st =
    Some (if consecutive_timeouts st + 1 >=? max_timeouts
          then Break NoData else Continue,
          with_timeouts st [] (consecutive_timeouts st + 1)).
Proof.
  intros Hm Hs. unfold receiver_iteration, receive. rewrite Hm, Hs.
  change (_recv_tcp_packet []) with (Some (Return (@nil byte), @nil net_event)).
  cbv beta iota zeta.
  destruct (consecutive_timeouts st + 1 >=? max_timeouts); reflexivity.
Qed.

Lemma closed_loop (cfg : BenchmarkConfig) (clock : Z -> float) (running : nat) :
  forall st : receiver_state,
    mode cfg = TCP -> sock st = [] -> consecutive_timeouts st < max_timeouts ->
    receiver_loop running cfg clock st =
      if max_timeouts - consecutive_timeouts st <=? Z.of_nat running
      then Some (NoData, with_timeouts st [] max_timeouts)
      else Some (Cancelled,
                 with_timeouts st [] (consecutive_timeouts st + Z.of_nat running)).
Proof.
  induction running as [|running IH]; intros st Hm Hs Hc.
  - cbn [receiver_loop]. unfold max_timeouts in *.
    destruct (Z.leb_spec (20 - consecutive_timeouts st) (Z.of_nat 0)); [lia|].
    destruct st as [s m pr c]. cbn in Hs |- *. subst s.
    unfold with_timeouts. cbn. now rewrite Z.add_0_r.
  - cbn [receiver_loop]. rewrite closed_iteration by assumption.
    unfold max_timeouts in *.
    destruct (Z.geb_spec (consecutive_timeouts st + 1) 20) as [Hge|Hlt].
    + destruct (Z.leb_spec (20 - consecutive_timeouts st) (Z.of_nat (S running))); [|lia].
      replace (consecutive_timeouts st + 1) with 20 by lia. reflexivity.
    + rewrite IH; trivial.
      unfold max_timeouts, with_timeouts. cbn [consecutive_timeouts metrics packets_received].
      destruct (Z.leb_spec (20 - (consecutive_timeouts st + 1)) (Z.of_nat running));
        destruct (Z.leb_spec (20 - consecutive_timeouts st) (Z.of_nat (S running)));
        try lia; try reflexivity.
      do 3 f_equal. lia.
Qed.

(** C5, as the code has it.  In stream mode, once the peer has closed (every
    read returns zero bytes), an iteration raises nothing and records
    nothing: it adds one to the idle counter, exactly as for a timed-out
    read, and the loop goes on while the counter is below 20.  The loop
    ends with the "no data" stop when the counter reaches 20, that is
    after [20 - c] iterations from a counter [c]; if the run is cancelled
    earlier the loop ends by cancellation. *)
Theorem closed_stream_counts_as_idle (cfg : BenchmarkConfig) (clock : Z -> float)
  (st : receiver_state) (running : nat) :
  mode cfg = TCP ->
  sock st = [] ->
  consecutive_timeouts st < max_timeouts ->
  receiver_iteration cfg clock st =
    Some (if consecutive_timeouts st + 1 >=? max_timeouts
          then Break NoData else Continue,
          with_timeouts st [] (consecutive_timeouts st + 1)) /\
  (max_timeouts - consecutive_timeouts st <= Z.of_nat running ->
     receiver_loop running cfg clock st =
       Some (NoData, with_timeouts st [] max_timeouts)) /\
  (Z.of_nat running < max_timeouts - consecutive_timeouts st ->
     receiver_loop running cfg clock st =
       Some (Cancelled,
             with_timeouts st [] (consecutive_timeouts st + Z.of_nat running))).
Proof.
  intros Hm Hs Hc. split; [now apply closed_iteration|].
  rewrite closed_loop by assumption.
  destruct (Z.leb_spec (max_timeouts - consecutive_timeouts st) (Z.of_nat running));
    split; intros; try lia; reflexivity.
Qed.

Lemma closed_stream_counts_as_idle_witness :
  receiver_iteration default_config clock_2 (initial_state []) =
    Some (Continue, with_timeouts (initial_state []) [] 1) /\
  receiver_loop 25 default_config clock_2 (initial_state []) =
    Some (NoData, with_timeouts (initial_state []) [] 20) /\
  receiver_loop 7 default_config clock_2 (initial_state []) =
    Some (Cancelled, with_timeouts (initial_state []) [] 7).
Proof.
  destruct (closed_stream_counts_as_idle default_config clock_2 (initial_state []) 25
              eq_refl eq_refl eq_refl) as (H1 & H2 & _).
  destruct (closed_stream_counts_as_idle default_config clock_2 (initial_state []) 7
              eq_refl eq_refl eq_refl) as (_ & _ & H3).
  split; [exact H1|].
  split; [apply H2; vm_compute; discriminate|apply H3; vm_compute; reflexivity].
Defined.

(** C5, counterexample to the claim as stated: the peer has closed, the
    receiver has counted no idle read yet, and the iteration continues the
    loop; nineteen iterations later the loop is still running (it is what
    cancels the run that ends it here). *)
Lemma closed_stream_loop_goes_on :
  sock (initial_state []) = [] /\
  receiver_iteration default_config clock_2 (initial_state []) =
    Some (Continue, with_timeouts (initial_state []) [] 1) /\
  _receiver_loop 19 default_config clock_2 [] =
    Some (Cancelled, with_timeouts (initial_state []) [] 19).
Proof. repeat split; vm_compute; reflexivity. Qed.

(** *** Datagram mode: a datagram shorter than it declares *)

(** C6, as the code has it.  In datagram mode, a datagram of at least 16
    bytes whose length field declares more payload than is present is
    decoded without error: the payload is the bytes present.  The receiver
    appends a PacketMetric whose payload size is the number of bytes
    present, resets the idle counter and goes on with the next datagram
    (when the log cadence can be evaluated). *)
Theorem short_datagram_is_recorded (cfg : BenchmarkConfig) (clock : Z -> float)
  (st : receiver_state) (dg : bytes) (rest : socket) :
  mode cfg = UDP ->
  sock st = Data dg :: rest ->
  16 <= len dg <= 65535 ->
  len dg - 16 < header_payload_len dg ->
  log_check_defined cfg ->
  _parse_packet dg =
    Return (header_msg_id dg, header_send_time dg, skipn 16 dg) /\
  len (skipn 16 dg) = len dg - 16 /\
  receiver_iteration cfg clock st =
    Some (Continue,
          {| sock := rest;
             metrics := metrics st ++
               [metric_of (clock (packets_received st))
                  (header_msg_id dg) (header_send_time dg) (skipn 16 dg)];
             packets_received := packets_received st + 1;
             consecutive_timeouts := 0 |}).
Proof.
  intros Hm Hs Hlen Hdecl Hlog.
  assert (Hsk : len (skipn 16 dg) = len dg - 16).
  { unfold len in *. rewrite length_skipn. lia. }
  assert (Hparse : _parse_packet dg =
            Return (header_msg_id dg, header_send_time dg, skipn 16 dg)).
  { rewrite parse_long by lia. do 2 f_equal.
    rewrite py_slice_from_16 by lia.
    apply firstn_all2. unfold len in *. lia. }
  split; [exact Hparse|]. split; [exact Hsk|].
  apply iteration_records with (data := dg); trivial.
  - unfold receive. rewrite Hm, Hs. cbn [sock_recvfrom].
    rewrite firstn_all2 by (unfold len in Hlen; lia). reflexivity.
  - intros ->. unfold len in Hlen. simpl in Hlen. lia.
Qed.

Lemma short_datagram_is_recorded_witness :
  _parse_packet (header_100 ++ ["a"; "b"; "c"]%byte) =
    Return (header_msg_id (header_100 ++ ["a"; "b"; "c"]%byte),
            header_send_time (header_100 ++ ["a"; "b"; "c"]%byte),
            skipn 16 (header_100 ++ ["a"; "b"; "c"]%byte)) /\
  len (skipn 16 (header_100 ++ ["a"; "b"; "c"]%byte)) =
    len (header_100 ++ ["a"; "b"; "c"]%byte) - 16 /\
  receiver_iteration udp_config clock_2
    (initial_state [Data (header_100 ++ ["a"; "b"; "c"]%byte)]) =
    Some (Continue,
          {| sock := [];
             metrics := metrics (initial_state [Data (header_100 ++ ["a"; "b"; "c"]%byte)]) ++
               [metric_of (clock_2 (packets_received (initial_state [Data (header_100 ++ ["a"; "b"; "c"]%byte)])))
                  (header_msg_id (header_100 ++ ["a"; "b"; "c"]%byte))
                  (header_send_time (header_100 ++ ["a"; "b"; "c"]%byte))
                  (skipn 16 (header_100 ++ ["a"; "b"; "c"]%byte))];
             packets_received := packets_received (initial_state [Data (header_100 ++ ["a"; "b"; "c"]%byte)]) + 1;
             consecutive_timeouts := 0 |}).
Proof.
  apply (short_datagram_is_recorded udp_config clock_2
           (initial_state [Data (header_100 ++ ["a"; "b"; "c"]%byte)])
           (header_100 ++ ["a"; "b"; "c"]%byte) []).
  - reflexivity.
  - reflexivity.
  - vm_compute. split; discriminate.
  - vm_compute. reflexivity.
  - reflexivity.
Defined.

(** C6, counterexample to the claim as stated: a datagram that declares 100
    payload bytes and carries 3 is decoded without error, and the
    iteration appends a metric for it (payload size 3). *)
Lemma short_datagram_not_dropped :
  header_payload_len (header_100 ++ ["a"; "b"; "c"]%byte) = 100 /\
  _parse_packet (header_100 ++ ["a"; "b"; "c"]%byte) =
    Return (1, 0%float, ["a"; "b"; "c"]%byte) /\
  receiver_iteration udp_config clock_2
    (initial_state [Data (header_100 ++ ["a"; "b"; "c"]%byte)]) =
    Some (Continue,
          {| sock := [];
             metrics := [ {| msg_id := 1; send_time := 0%float; recv_time := 2%float;
                             metric_payload_size := 3; latency_ms := 2000%float |} ];
             packets_received := 1;
             consecutive_timeouts := 0 |}).
Proof. repeat split; vm_compute; reflexivity. Qed.

(** *** Stream mode: reassembly *)

(** The bytes a stream socket can deliver before it next blocks, fails or
    ends. *)
Fixpoint available (s : socket) : bytes :=
  match s with
  | Data bs :: rest => bs ++ available rest
  | _ => []
  end.

(** No run of bytes in the script is empty. *)
Definition runs_nonempty (s : socket) : Prop :=
  Forall (fun e => e <> Data []) s.

Lemma firstn_across {A} (k : nat) (bs r : list A) :
  firstn k bs ++ firstn (k - length (firstn k bs)) (skipn k bs ++ r) =
  firstn k (bs ++ r).
Proof.
  rewrite (firstn_app k bs r).
  destruct (Nat.le_gt_cases (length bs) k) as [H|H].
  - rewrite firstn_all2, skipn_all2 by lia. reflexivity.
  - rewrite length_firstn, Nat.min_l by lia.
    rewrite Nat.sub_diag. replace (k - length bs)%nat with 0%nat by lia.
    reflexivity.
Qed.

Lemma skipn_across {A} (k : nat) (bs r : list A) :
  skipn (k - length (firstn k bs)) (skipn k bs ++ r) = skipn k (bs ++ r).
Proof.
  rewrite (skipn_app k bs r).
  destruct (Nat.le_gt_cases (length bs) k) as [H|H].
  - rewrite firstn_all2, (skipn_all2 bs) by lia. reflexivity.
  - rewrite length_firstn, Nat.min_l by lia.
    rewrite Nat.sub_diag. replace (k - length bs)%nat with 0%nat by lia.
    reflexivity.
Qed.

Lemma sock_recv_available (k : Z) (bs : bytes) (rest : socket) :
  runs_nonempty (Data bs :: rest) -> 0 < k ->
  exists b chunk s',
    sock_recv k (Data bs :: rest) = (Return (b :: chunk), s') /\
    b :: chunk = firstn (Z.to_nat k) bs /\
    available s' = skipn (Z.to_nat k) bs ++ available rest /\
    runs_nonempty s'.
Proof.
  intros Hwf Hk. apply Forall_cons_iff in Hwf. destruct Hwf as [Hbs Hrest].
  cbn [sock_recv].
  destruct bs as [|b bs']; [congruence|].
  destruct (Z.to_nat k) as [|k'] eqn:Ek; [lia|].
  cbn [firstn]. exists b, (firstn k' bs').
  eexists. split; [reflexivity|]. split; [reflexivity|].
  cbn [skipn]. destruct (skipn k' bs') as [|x more] eqn:Es.
  - split; [reflexivity|exact Hrest].
  - split; [reflexivity|]. constructor; [discriminate|exact Hrest].
Qed.

Lemma recv_exactly_loop_reads (fuel : nat) :
  forall (n : Z) (data : bytes) (s : socket),
    runs_nonempty s ->
    len data <= n ->
    n - len data <= len (available s) ->
    n - len data <= Z.of_nat fuel ->
    exists s',
      recv_exactly_loop fuel n data s =
        Some (Return (data ++ firstn (Z.to_nat (n - len data)) (available s)), s') /\
      available s' = skipn (Z.to_nat (n - len data)) (available s) /\
      runs_nonempty s'.
Proof.
  induction fuel as [|fuel IH]; intros n data s Hwf Hle Hav Hfuel.
  - assert (E : n - len data = 0) by (simpl in Hfuel; lia).
    cbn [recv_exactly_loop]. destruct (Z.ltb_spec (len data) n); [lia|].
    exists s. rewrite E. cbn [Z.to_nat firstn skipn]. rewrite app_nil_r. auto.
  - cbn [recv_exactly_loop].
    destruct (Z.ltb_spec (len data) n) as [Hlt|Hge].
    + destruct s as [|[bs| |] rest];
        try (change (len (available _)) with 0 in Hav; lia).
      assert (Hpos : 0 < n - len data) by lia.
      destruct (sock_recv_available (n - len data) bs rest Hwf Hpos)
        as (b & chunk & s1 & Hrecv & Hchunk & Havail & Hwf1).
      rewrite Hrecv.
      assert (Hcl : len (b :: chunk) <= n - len data).
      { rewrite Hchunk. unfold len in *. rewrite length_firstn. lia. }
      assert (Hc1 : 1 <= len (b :: chunk)) by (unfold len; cbn [length]; lia).
      destruct (IH n (data ++ b :: chunk) s1) as (s' & Hrun & Hav' & Hwf'); trivial.
      * rewrite len_app. lia.
      * rewrite len_app, Havail, len_app. cbn [available] in Hav.
        rewrite len_app in Hav. rewrite Hchunk.
        unfold len in *. rewrite length_firstn, length_skipn. lia.
      * rewrite len_app. lia.
      * exists s'. rewrite Hrun, Hav'. cbn [available].
        assert (Ek : Z.to_nat (n - len (data ++ b :: chunk)) =
                     (Z.to_nat (n - len data) - length (firstn (Z.to_nat (n - len data)) bs))%nat).
        { rewrite len_app, <- Hchunk. unfold len. lia. }
        rewrite Ek, Havail, Hchunk. split; [|split; [|exact Hwf']].
        { rewrite <- app_assoc, firstn_across. reflexivity. }
        { apply skipn_across. }
    + assert (E : n - len data = 0) by lia.
      exists s. rewrite E. cbn [Z.to_nat firstn skipn]. rewrite app_nil_r. auto.
Qed.

Lemma recv_exactly_reads (n : Z) (s : socket) :
  runs_nonempty s -> 0 <= n <= len (available s) ->
  exists s',
    _recv_exactly n s = Some (Return (firstn (Z.to_nat n) (available s)), s') /\
    available s' = skipn (Z.to_nat n) (available s) /\
    runs_nonempty s'.
Proof.
  intros Hwf Hn. unfold _recv_exactly.
  destruct (recv_exactly_loop_reads (Z.to_nat n) n [] s) as (s' & H1 & H2 & H3);
    trivial; change (len (@nil byte)) with 0; try lia.
  rewrite Z.sub_0_r in *. exists s'. auto.
Qed.

(** C10. [_recv_exactly(n)], whatever the socket does and however the
    reads cut the stream.  It finishes, and when it returns the bytes are
    either none at all or exactly [n] of them, never a shorter non-empty
    prefix; it raises only [OSError], only when a read fails with it.
    When at least [n] bytes arrive, in non-empty runs of any sizes, it
    returns exactly the first [n] of them and leaves the rest to be read.
    When fewer than [n] arrive before a read times out or the peer closes,
    it returns the empty byte string and the bytes it had read are
    dropped. *)
Theorem recv_exactly_all_or_nothing (n : Z) (s : socket) :
  (exists r s',
     _recv_exactly n s = Some (r, s') /\
     match r with
     | Return data => data = [] \/ len data = n
     | Raise e => e = OSError /\ In Failure s
     end) /\
  (runs_nonempty s -> 0 <= n <= len (available s) ->
   exists s',
     _recv_exactly n s = Some (Return (firstn (Z.to_nat n) (available s)), s') /\
     len (firstn (Z.to_nat n) (available s)) = n /\
     available s' = skipn (Z.to_nat n) (available s)) /\
  (forall (runs : list bytes) (tail rest : socket),
     s = map Data runs ++ tail ->
     gives_up tail rest ->
     Forall (fun r => r <> []) runs ->
     len (concat runs) < n ->
     _recv_exactly n s = Some (Return [], rest)).
Proof.
  split; [|split].
  - unfold _recv_exactly. apply recv_exactly_loop_result.
    + change (len (@nil byte)) with 0. lia.
    + right. reflexivity.
  - intros Hwf Hn.
    destruct (recv_exactly_reads n s Hwf Hn) as (s' & Hrun & Hav & _).
    exists s'. split; [exact Hrun|]. split; [|exact Hav].
    unfold len in *. rewrite length_firstn. lia.
  - intros runs tail rest -> Hend Hne Hlt.
    now apply recv_exactly_gives_up.
Qed.

Lemma recv_exactly_all_or_nothing_witness :
  (exists s',
     _recv_exactly 4 [Data (repeat "a"%byte 3); Data (repeat "b"%byte 2)] =
       Some (Return (repeat "a"%byte 3 ++ repeat "b"%byte 1), s') /\
     available s' = repeat "b"%byte 1) /\
  _recv_exactly 4 (map Data [repeat "a"%byte 3] ++ []) = Some (Return [], []).
Proof.
  split.
  - destruct (recv_exactly_all_or_nothing 4
                [Data (repeat "a"%byte 3); Data (repeat "b"%byte 2)])
      as (_ & Hfull & _).
    destruct Hfull as (s' & Hrun & _ & Hrest).
    + repeat constructor; discriminate.
    + vm_compute. split; discriminate.
    + exists s'. split; [exact Hrun|exact Hrest].
  - destruct (recv_exactly_all_or_nothing 4 (map Data [repeat "a"%byte 3] ++ []))
      as (_ & _ & Hshort).
    apply (Hshort [repeat "a"%byte 3] [] []).
    + reflexivity.
    + constructor.
    + repeat constructor; discriminate.
    + vm_compute. reflexivity.
Defined.

(** A whole frame is somewhere at the front of the stream, cut into runs
    in any way: [_recv_tcp_packet] returns exactly the frame and leaves the
    bytes that follow it. *)
Theorem recv_tcp_packet_reassembles (s : socket) (h payload more : bytes) :
  runs_nonempty s ->
  available s = h ++ payload ++ more ->
  len h = 16 ->
  header_payload_len h = len payload ->
  exists s',
    _recv_tcp_packet s = Some (Return (h ++ payload), s') /\
    available s' = more /\
    runs_nonempty s'.
Proof.
  intros Hwf Hav Hh Hp.
  assert (Lh : length h = 16%nat) by (unfold len in Hh; lia).
  destruct (recv_exactly_reads 16 s Hwf) as (s1 & H1 & A1 & W1).
  { rewrite Hav, len_app. pose proof (len_nonneg (payload ++ more)). lia. }
  unfold _recv_tcp_packet. rewrite H1.
  change (Z.to_nat 16) with 16%nat in *.
  rewrite Hav in *.
  rewrite firstn_app, Lh, Nat.sub_diag, firstn_O, app_nil_r, firstn_all2 in * by lia.
  rewrite skipn_app, Lh, Nat.sub_diag, skipn_all2 in A1 by lia. cbn [app skipn] in A1.
  destruct h as [|b h']; [discriminate|].
  unfold struct_unpack_Idi. rewrite Hh. cbn [Z.eqb Pos.eqb].
  rewrite header_len_whole by exact Hh. rewrite Hp.
  destruct (recv_exactly_reads (len payload) s1 W1) as (s2 & H2 & A2 & W2).
  { rewrite A1, len_app. pose proof (len_nonneg payload). pose proof (len_nonneg more). lia. }
  rewrite H2. exists s2. rewrite A2, A1. unfold len. rewrite Nat2Z.id.
  rewrite firstn_app, Nat.sub_diag, firstn_O, app_nil_r, firstn_all.
  rewrite skipn_app, Nat.sub_diag, skipn_all. auto.
Qed.

(** X1. A frame built by [_create_packet] and delivered over the stream in
    pieces of any sizes is received whole by one iteration of the loop,
    which records its id, send time and payload size and leaves the stream
    at the first byte after the frame. *)
Theorem stream_frame_is_received (sender cfg : BenchmarkConfig)
  (clock : Z -> float) (st : receiver_state)
  (now : float) (id : Z) (frame more : bytes) :
  mode cfg = TCP ->
  log_check_defined cfg ->
  0 <= id < 2 ^ 32 ->
  0 <= payload_size sender < 2 ^ 31 ->
  _create_packet sender now id = Return (frame, now) ->
  runs_nonempty (sock st) ->
  available (sock st) = frame ++ more ->
  exists st',
    receiver_iteration cfg clock st = Some (Continue, st') /\
    metrics st' = metrics st ++
      [ {| msg_id := id; send_time := now;
           recv_time := clock (packets_received st);
           metric_payload_size := payload_size sender;
           latency_ms := ((clock (packets_received st) - now) * 1000)%float |} ] /\
    available (sock st') = more /\
    runs_nonempty (sock st').
Proof.
  intros Hm Hlog Hid Hsz Hmk Hwf Hav.
  destruct (create_packet_in_range sender now id) as (h & Hp & Lh & Hc); [lia..|].
  rewrite Hc in Hmk.
  set (payload := repeat "a"%byte (Z.to_nat (payload_size sender))) in *.
  assert (frame = h ++ payload) as -> by congruence.
  assert (Hpl : len payload = payload_size sender).
  { unfold len, payload. rewrite repeat_length. lia. }
  destruct (header_fields_of_pack _ _ _ _ [] Hp) as (_ & _ & _ & Hn).
  rewrite app_nil_r in Hn.
  destruct (recv_tcp_packet_reassembles (sock st) h payload more)
    as (s' & Hrecv & Hav' & Hwf'); trivial.
  { now rewrite <- app_assoc in Hav. }
  { unfold len. lia. }
  eexists. split.
  - apply iteration_records with (data := h ++ payload) (s := s'); trivial.
    + unfold receive. rewrite Hm. exact Hrecv.
    + destruct h; [discriminate|discriminate].
    + apply parse_frame_roundtrip. exact Hp.
  - cbn [metrics sock]. unfold metric_of. rewrite Hpl. auto.
Qed.

(** A sender of two-byte payloads, and its frame number 7 stamped 1.0 cut
    the way the specification's example is: the header in a run of 3 and a
    run of 13 bytes, the payload byte by byte, then the first byte of what
    follows. *)
Definition two_byte_sender : BenchmarkConfig := {|
  mode := TCP;
  host := host default_config;
  port := port default_config;
  payload_size := 2;
  max_packets := 10;
  send_delay := 0%float;
  timeout := timeout default_config;
  is_sender := true;
  is_receiver := false;
  print_logs := false;
  log_frequency := 10;
  save_results := false;
  results_file := results_file default_config
|}.

Definition frame_7 : bytes :=
  [x07; x00; x00; x00;
   x00; x00; x00; x00; x00; x00; xf0; x3f;
   x02; x00; x00; x00;
   "a"; "a"]%byte.

Definition frame_7_in_pieces : socket :=
  [Data (firstn 3 frame_7); Data (firstn 13 (skipn 3 frame_7));
   Data ["a"]; Data ["a"]; Data ["z"]]%byte.

Lemma stream_frame_is_received_witness :
  exists st',
    receiver_iteration default_config clock_2 (initial_state frame_7_in_pieces) =
      Some (Continue, st') /\
    metrics st' = metrics (initial_state frame_7_in_pieces) ++
      [ {| msg_id := 7; send_time := 1%float;
           recv_time := clock_2 (packets_received (initial_state frame_7_in_pieces));
           metric_payload_size := payload_size two_byte_sender;
           latency_ms :=
             ((clock_2 (packets_received (initial_state frame_7_in_pieces)) - 1) * 1000)%float |} ] /\
    available (sock st') = ["z"]%byte /\
    runs_nonempty (sock st').
Proof.
  apply (stream_frame_is_received two_byte_sender default_config clock_2
           (initial_state frame_7_in_pieces) 1%float 7 frame_7 ["z"]%byte).
  - reflexivity.
  - reflexivity.
  - lia.
  - simpl. lia.
  - vm_compute. reflexivity.
  - repeat constructor; discriminate.
  - reflexivity.
Defined.

(** *** Datagram mode: no traffic *)

Lemma silent_iteration (cfg : BenchmarkConfig) (clock : Z -> float)
  (st : receiver_state) :
  mode cfg = UDP -> sock st = [] ->
  receiver_iteration cfg clock st =
    Some (if consecutive_timeouts st + 1 >=? max_timeouts
          then Break TimeoutLimit else Continue,
          with_timeouts st [] (consecutive_timeouts st + 1)).
Proof.
  intros Hm Hs. unfold receiver_iteration, receive. rewrite Hm, Hs.
  cbn [sock_recvfrom handle].
  destruct (consecutive_timeouts st + 1 >=? max_timeouts); reflexivity.
Qed.

(** X2. With no datagram arriving, the loop stops on the timeout limit after
    [20 - c] timed-out reads from a counter [c], having recorded nothing. *)
Theorem silent_datagram_receiver_stops (cfg : BenchmarkConfig)
  (clock : Z -> float) (running : nat) :
  forall st : receiver_state,
    mode cfg = UDP -> sock st = [] -> consecutive_timeouts st < max_timeouts ->
    max_timeouts - consecutive_timeouts st <= Z.of_nat running ->
    receiver_loop running cfg clock st =
      Some (TimeoutLimit, with_timeouts st [] max_timeouts).
Proof.
  induction running as [|running IH]; intros st Hm Hs Hc Hrun;
    unfold max_timeouts in *; [lia|].
  cbn [receiver_loop]. rewrite silent_iteration by assumption.
  unfold max_timeouts.
  destruct (Z.geb_spec (consecutive_timeouts st + 1) 20) as [Hge|Hlt].
  - replace (consecutive_timeouts st + 1) with 20 by lia. reflexivity.
  - rewrite IH; trivial; unfold with_timeouts; cbn [consecutive_timeouts]; lia.
Qed.

Lemma silent_datagram_receiver_stops_witness :
  _receiver_loop 30 udp_config clock_2 [] =
    Some (TimeoutLimit,
          {| sock := []; metrics := []; packets_received := 0;
             consecutive_timeouts := 20 |}).
Proof.
  apply (silent_datagram_receiver_stops udp_config clock_2 30 (initial_state []));
    try reflexivity.
  vm_compute. discriminate.
Defined.

End Receiver.

(* ================================================================== *)
(** ** Connection setup in stream mode                                 *)
(* ================================================================== *)

Module Setup.

(** What [sock.connect] meets at each call. *)
Inductive connect_outcome : Type :=
| Connected
| Refused            (* ConnectionRefusedError *)
| Unreachable.       (* any other OSError: it is not caught *)

(** The peer, as the answer to the connect call of each attempt. *)
Definition network := nat -> connect_outcome.

(** What setup does, in order. *)
Inductive event : Type :=
| Listen                    (* server socket bound and listening *)
| Connect (attempt : nat)   (* sock.connect((host, port)) *)
| Sleep (seconds : Z).      (* time.sleep(seconds) *)

Definition max_retries : nat := 10.

(** [for attempt in range(max_retries)] over the attempts still to make. *)
Fixpoint connect_loop (net : network) (attempts : list nat)
  : result unit * list event :=
  match attempts with
  | [] => (Return tt, [])
  | attempt :: later =>
      match net attempt with
      | Connected => (Return tt, [Connect attempt])              (* break *)
      | Refused =>
          if (attempt <? max_retries - 1)%nat then
            let (r, tr) := connect_loop net later in
            (r, Connect attempt :: Sleep 1 :: tr)
          else (Raise ConnectionRefusedError, [Connect attempt])  (* raise *)
      | Unreachable => (Raise OSError, [Connect attempt])
      end
  end.

(** [_setup_tcp]; binding the server socket is taken to succeed. *)
Definition listening (cfg : BenchmarkConfig) : list event :=
  if is_receiver cfg then [Listen] else [].

Definition _setup_tcp (cfg : BenchmarkConfig) (net : network)
  : result unit * list event :=
  if is_sender cfg then
    let (r, tr) := connect_loop net (seq 0 max_retries) in
    (r, listening cfg ++ tr)
  else (Return tt, listening cfg).

(** Attempts [a], [a+1], ..., [a+k-1] refused and each followed by a sleep
    of one second, then attempt [a+k]. *)
Fixpoint retries (a k : nat) : list event :=
  match k with
  | O => [Connect a]
  | S k' => Connect a :: Sleep 1 :: retries (S a) k'
  end.

Definition sender_config : BenchmarkConfig := {|
  mode := TCP;
  host := host Codec.default_config;
  port := port Codec.default_config;
  payload_size := payload_size Codec.default_config;
  max_packets := max_packets Codec.default_config;
  send_delay := send_delay Codec.default_config;
  timeout := timeout Codec.default_config;
  is_sender := true;
  is_receiver := false;
  print_logs := print_logs Codec.default_config;
  log_frequency := log_frequency Codec.default_config;
  save_results := save_results Codec.default_config;
  results_file := results_file Codec.default_config
|}.

(** A peer that starts listening just before the fourth attempt. *)
Definition ready_at_3 : network :=
  fun attempt => if (attempt <? 3)%nat then Refused else Connected.

Definition never_ready : network := fun _ => Refused.

Lemma connect_loop_connected (net : network) (k : nat) :
  forall a n : nat,
    (k < n)%nat -> (a + n <= max_retries)%nat ->
    (forall j, (a <= j < a + k)%nat -> net j = Refused) ->
    net (a + k)%nat = Connected ->
    connect_loop net (seq a n) = (Return tt, retries a k).
Proof.
  induction k as [|k IH]; intros a n Hk Hn Href Hok.
  - destruct n as [|n]; [lia|]. cbn [seq connect_loop retries].
    rewrite Nat.add_0_r in Hok. now rewrite Hok.
  - destruct n as [|n]; [lia|]. cbn [seq connect_loop retries].
    rewrite (Href a) by lia.
    destruct (Nat.ltb_spec a (max_retries - 1)); [|lia].
    rewrite (IH (S a) n); trivial; try lia.
    + intros j Hj. apply Href. lia.
    + now replace (S a + k)%nat with (a + S k)%nat by lia.
Qed.

Lemma connect_loop_exhausted (net : network) (n : nat) :
  forall a : nat,
    (a + S n = max_retries)%nat ->
    (forall j, (a <= j < max_retries)%nat -> net j = Refused) ->
    connect_loop net (seq a (S n)) = (Raise ConnectionRefusedError, retries a n).
Proof.
  induction n as [|n IH]; intros a Ha Href.
  - cbn [seq connect_loop retries]. rewrite (Href a) by lia.
    destruct (Nat.ltb_spec a (max_retries - 1)); [lia|reflexivity].
  - cbn [connect_loop retries]. change (seq a (S (S n))) with (a :: seq (S a) (S n)).
    cbn [connect_loop]. rewrite (Href a) by lia.
    destruct (Nat.ltb_spec a (max_retries - 1)); [|lia].
    rewrite (IH (S a)); trivial; try lia.
    intros j Hj. apply Href. lia.
Qed.

Lemma connect_loop_refused_only_at_end (net : network) (n : nat) :
  forall (a : nat) (tr : list event),
    (a + n = max_retries)%nat ->
    connect_loop net (seq a n) = (Raise ConnectionRefusedError, tr) ->
    forall j, (a <= j < max_retries)%nat -> net j = Refused.
Proof.
  induction n as [|n IH]; intros a tr Ha Hrun j Hj; [lia|].
  cbn [seq connect_loop] in Hrun.
  destruct (net a) eqn:Hnet; try discriminate.
  destruct (Nat.eq_dec j a) as [->|Hne]; [exact Hnet|].
  destruct (Nat.ltb_spec a (max_retries - 1)); [|lia].
  destruct (connect_loop net (seq (S a) n)) as [r tr'] eqn:Hrest.
  injection Hrun as -> _.
  apply (IH (S a) tr'); trivial; lia.
Qed.

(** C8. Stream-mode sender setup against a peer that only ever accepts or
    refuses.  At most 10 connect calls are made, with one sleep of one
    second between a refused call and the next.  If the first call that is
    not refused is call number [k] (counting from 0, [k < 10]), setup
    completes without error after [k] refused calls.  The
    connection-refused error escapes when all 10 calls are refused, after
    the tenth, and in no other case. *)
Theorem setup_tcp_retries (cfg : BenchmarkConfig) (net : network) :
  is_sender cfg = true ->
  (forall k, (k < max_retries)%nat ->
     (forall j, (j < k)%nat -> net j = Refused) ->
     net k = Connected ->
     _setup_tcp cfg net = (Return tt, listening cfg ++ retries 0 k)) /\
  ((forall j, (j < max_retries)%nat -> net j = Refused) ->
     _setup_tcp cfg net =
       (Raise ConnectionRefusedError, listening cfg ++ retries 0 9)) /\
  (forall tr, _setup_tcp cfg net = (Raise ConnectionRefusedError, tr) ->
     forall j, (j < max_retries)%nat -> net j = Refused).
Proof.
  intros Hs. unfold _setup_tcp. rewrite Hs.
  repeat split.
  - intros k Hk Href Hok.
    rewrite (connect_loop_connected net k 0 max_retries); trivial.
    intros j Hj. apply Href. lia.
  - intros Href. change max_retries with 10%nat at 1.
    rewrite (connect_loop_exhausted net 9 0); trivial.
    intros j Hj. apply Href. lia.
  - intros tr Hrun j Hj.
    destruct (connect_loop net (seq 0 max_retries)) as [r tr'] eqn:Hloop.
    injection Hrun as -> _.
    apply (connect_loop_refused_only_at_end net max_retries 0 tr'); trivial. lia.
Qed.

Lemma setup_tcp_retries_witness :
  _setup_tcp Codec.default_config ready_at_3 =
    (Return tt,
     [Listen; Connect 0; Sleep 1; Connect 1; Sleep 1; Connect 2; Sleep 1; Connect 3]) /\
  _setup_tcp sender_config never_ready =
    (Raise ConnectionRefusedError, retries 0 9).
Proof.
  destruct (setup_tcp_retries Codec.default_config ready_at_3 eq_refl) as (H1 & _ & _).
  destruct (setup_tcp_retries sender_config never_ready eq_refl) as (_ & H2 & _).
  split.
  - apply (H1 3%nat); [unfold max_retries; lia| |reflexivity].
    intros j Hj. unfold ready_at_3.
    destruct (Nat.ltb_spec j 3); [reflexivity|lia].
  - apply H2. reflexivity.
Defined.

End Setup.

(* ================================================================== *)
(** ** Binary64 rounding, bounds and order                         *)
(* ================================================================== *)

Module Binary64.

Import Codec.

(** *** Vocabulary *)

(** A record read as a mantissa and whether anything was lost below it. *)
Definition exact (mrs : shr_record) : bool :=
  negb (shr_r mrs) && negb (shr_s mrs).

(** The value just above a mantissa [mx] whose remainder is at [lx]. *)
Definition upper (mx : Z) (lx : location) : Z :=
  match lx with
  | loc_Exact => mx
  | loc_Inexact _ => mx + 1
  end.

(** [x] is a non-negative double, at most [mB * 2^eB]. *)
Definition at_most (mB : positive) (eB : Z) (x : spec_float) : Prop :=
  match x with
  | S754_zero s => s = false
  | S754_finite s m e => s = false /\ e <= eB /\ Z.pos m <= Z.pos mB * 2 ^ (eB - e)
  | _ => False
  end.

(** [x] is a positive double or [+inf], at least [mB * 2^eB]. *)
Definition at_least (mB : positive) (eB : Z) (x : spec_float) : Prop :=
  match x with
  | S754_infinity s => s = false
  | S754_finite s m e => s = false /\ eB <= e /\ Z.pos mB <= Z.pos m * 2 ^ (e - eB)
  | _ => False
  end.

(** [ord] sends the doubles that are not NaN to integers, in order. *)
Definition ord (x : spec_float) : Z :=
  match x with
  | S754_zero _ => 0
  | S754_nan => 0
  | S754_infinity s => if s then - (2047 * 2 ^ 53) else 2047 * 2 ^ 53
  | S754_finite s m e =>
      let a := (e + 1074) * 2 ^ 53 + Z.pos m in
      if s then - a else a
  end.

Definition not_nan (x : spec_float) : Prop := x <> S754_nan.

Definition key (x : float) : Z := ord (Prim2SF x).

(** NaN is the one double that differs from itself. *)
Definition is_nan (x : float) : bool := negb (x =? x)%float.

(** [x] is a non-zero double of sign [s]; when finite its exponent is at
    least [lo]. *)
Definition signed (s : bool) (lo : Z) (x : spec_float) : Prop :=
  match x with
  | S754_finite s' _ e => s' = s /\ lo <= e
  | S754_infinity s' => s' = s
  | _ => False
  end.

(** *** Right shifts of a mantissa *)

Lemma iter_pos_nat {A} (f : A -> A) (p : positive) :
  forall x, iter_pos f p x = Nat.iter (Pos.to_nat p) f x.
Proof.
  induction p as [p IH|p IH|]; intros x; cbn [iter_pos].
  - rewrite !IH, Pos2Nat.inj_xI, Nat.iter_succ_r.
    replace (2 * Pos.to_nat p)%nat with (Pos.to_nat p + Pos.to_nat p)%nat by lia.
    rewrite Nat.iter_add. reflexivity.
  - rewrite !IH, Pos2Nat.inj_xO.
    replace (2 * Pos.to_nat p)%nat with (Pos.to_nat p + Pos.to_nat p)%nat by lia.
    rewrite Nat.iter_add. reflexivity.
  - reflexivity.
Qed.

Lemma shr_1_spec (mrs : shr_record) :
  0 <= shr_m mrs ->
  shr_m (shr_1 mrs) = shr_m mrs / 2 /\
  (exact (shr_1 mrs) = true <->
   exact mrs = true /\ shr_m mrs = 2 * shr_m (shr_1 mrs)).
Proof.
  destruct mrs as [m r s]. cbn [shr_m]. intros Hm.
  destruct m as [|p|p]; [| |lia].
  - cbn. split; [reflexivity|]. destruct r, s; cbn; intuition discriminate.
  - destruct p as [p|p|]; cbn [shr_1 shr_m exact shr_r shr_s].
    + split; [rewrite Pos2Z.inj_xI; apply Z.div_unique with 1; lia|].
      cbn. split; [discriminate|]. intros [_ H]. lia.
    + split; [rewrite Pos2Z.inj_xO; apply Z.div_unique with 0; lia|].
      destruct r, s; cbn; intuition (try discriminate; try lia).
    + split; [reflexivity|]. cbn. split; [discriminate|]. intros [_ H]. lia.
Qed.

Lemma shr_iter_spec (k : nat) (mrs : shr_record) :
  0 <= shr_m mrs ->
  let out := Nat.iter k shr_1 mrs in
  shr_m out = shr_m mrs / 2 ^ Z.of_nat k /\
  (exact out = true <->
   exact mrs = true /\ shr_m mrs = 2 ^ Z.of_nat k * shr_m out).
Proof.
  intros Hm. induction k as [|k IH]; cbn zeta in *.
  - cbn [Nat.iter nat_rect] in *. change (2 ^ Z.of_nat 0) with 1. rewrite Z.div_1_r.
    split; [reflexivity|]. split; [intros H; split; [exact H|lia]|intros [H _]; exact H].
  - rewrite Nat.iter_succ. destruct IH as [IH1 IH2].
    assert (H0 : 0 <= shr_m (Nat.iter k shr_1 mrs)).
    { rewrite IH1. apply Z.div_pos; [exact Hm|]. apply Z.pow_pos_nonneg; lia. }
    destruct (shr_1_spec _ H0) as [S1 S2].
    rewrite Nat2Z.inj_succ, Z.pow_succ_r by lia. split.
    + rewrite S1, IH1, Z.div_div by (try apply Z.pow_pos_nonneg; lia).
      f_equal. lia.
    + rewrite S2, IH2. split.
      * intros [[He0 Hm0] Hm']. split; [exact He0|]. rewrite Hm0, Hm'. ring.
      * intros [He0 Hv]. 
        assert (P : 0 < 2 ^ Z.of_nat k) by (apply Z.pow_pos_nonneg; lia).
        assert (Hq : shr_m (Nat.iter k shr_1 mrs) = 2 * shr_m (shr_1 (Nat.iter k shr_1 mrs))).
        { rewrite IH1, Hv.
          replace (2 * 2 ^ Z.of_nat k * shr_m (shr_1 (Nat.iter k shr_1 mrs)))
            with (2 * shr_m (shr_1 (Nat.iter k shr_1 mrs)) * 2 ^ Z.of_nat k) by ring.
          apply Z.div_mul. lia. }
        split; [split; [exact He0|]|exact Hq].
        rewrite Hv, Hq at 1. rewrite <- Hq. ring_simplify.
        rewrite Hq at 1. ring.
Qed.

Lemma record_of_loc_spec (m : Z) (l : location) :
  shr_m (shr_record_of_loc m l) = m /\
  (exact (shr_record_of_loc m l) = true <-> l = loc_Exact).
Proof.
  destruct l as [|[| |]]; cbn; split; trivial; split; trivial; discriminate.
Qed.

(** [shr]: the mantissa is divided by [2^n], and nothing is reported lost
    exactly when nothing was. *)
Lemma shr_spec (m e n : Z) (l : location) :
  0 <= m ->
  let '(out, e') := shr (shr_record_of_loc m l) e n in
  let k := Z.max n 0 in
  e' = e + k /\
  shr_m out = m / 2 ^ k /\
  (exact out = true <-> l = loc_Exact /\ m = 2 ^ k * shr_m out).
Proof.
  intros Hm. destruct (record_of_loc_spec m l) as [R1 R2].
  destruct n as [|p|p]; cbn [shr].
  - change (Z.max 0 0) with 0. rewrite Z.add_0_r, Z.pow_0_r, Z.div_1_r.
    split; [reflexivity|]. split; [exact R1|]. rewrite R2, R1. intuition lia.
  - rewrite Z.max_l by lia. rewrite iter_pos_nat.
    destruct (shr_iter_spec (Pos.to_nat p) (shr_record_of_loc m l)) as [S1 S2];
      [rewrite R1; exact Hm|].
    rewrite positive_nat_Z, R1 in *.
    split; [reflexivity|]. split; [exact S1|].
    rewrite S2, R2. reflexivity.
  - rewrite Z.max_r by lia. rewrite Z.add_0_r, Z.pow_0_r, Z.div_1_r.
    split; [reflexivity|]. split; [exact R1|]. rewrite R2, R1. intuition lia.
Qed.

Lemma round_nearest_even_spec (mrs : shr_record) :
  let m := round_nearest_even (shr_m mrs) (loc_of_shr_record mrs) in
  shr_m mrs <= m <= shr_m mrs + 1 /\
  (exact mrs = true -> m = shr_m mrs).
Proof.
  destruct mrs as [m [|] [|]]; cbn; try (split; [lia|]; intros; try discriminate; reflexivity).
  destruct (Z.even m); split; try lia; discriminate.
Qed.

(** *** The format *)

Lemma fexp_spec (e : Z) : fexp prec emax e = Z.max (e - 53) (-1074).
Proof. reflexivity. Qed.

Lemma digits_bounds (m : Z) :
  0 < m -> 0 < Zdigits2 m /\ 2 ^ (Zdigits2 m - 1) <= m < 2 ^ Zdigits2 m.
Proof.
  intros Hm. destruct m as [|p|p]; try lia. cbn [Zdigits2].
  split; [lia|apply digits2_pos_bounds].
Qed.

Lemma digits_le (m k : Z) : 0 < m -> m < 2 ^ k -> Zdigits2 m <= k.
Proof.
  intros Hm Hk. destruct (digits_bounds m Hm) as [Hd [Hlo _]].
  destruct (Z.le_gt_cases (Zdigits2 m) k) as [H|H]; [exact H|].
  assert (2 ^ k <= 2 ^ (Zdigits2 m - 1)) by (apply Z.pow_le_mono_r; lia). lia.
Qed.

Lemma bounded_spec (m : positive) (e : Z) :
  bounded prec emax m e = true ->
  Z.max (Zdigits2 (Z.pos m) + e - 53) (-1074) = e /\ e <= 971.
Proof.
  unfold bounded, canonical_mantissa. rewrite fexp_spec. cbn [Zdigits2].
  intros H. apply andb_true_iff in H. destruct H as [H1 H2].
  apply Z.eqb_eq in H1. apply Z.leb_le in H2. split; [exact H1|exact H2].
Qed.


(** *** Rounding does not step over a number of the format

    [binary_round_aux] is given a positive value by a mantissa [mx], an
    exponent [ex] and the place [lx] of the value between [mx] and
    [mx + 1]; the mantissa has at least the bits the format keeps.  If
    the value is at most the number [mB * 2^eB] of the format, so is its
    rounding. *)

Lemma round_le (mx ex : Z) (lx : location) (mB : positive) (eB : Z) :
  0 < mx ->
  ex <= fexp prec emax (Zdigits2 mx + ex) ->
  bounded prec emax mB eB = true ->
  ex <= eB ->
  upper mx lx <= Z.pos mB * 2 ^ (eB - ex) ->
  at_most mB eB (binary_round_aux prec emax false mx ex lx).
Proof.
  intros Hmx Hbits HB Hex Hup.
  destruct (digits_bounds mx Hmx) as [Hd0 [Hd1 Hd2]].
  destruct (bounded_spec _ _ HB) as [HcB HeB].
  destruct (digits_bounds (Z.pos mB) (Pos2Z.is_pos mB)) as [HdB0 [HdB1 HdB2]].
  rewrite fexp_spec in Hbits.
  set (d := Zdigits2 mx) in *. set (dB := Zdigits2 (Z.pos mB)) in *.
  set (e1 := Z.max (d + ex - 53) (-1074)) in *.
  assert (HdB53 : dB <= 53) by lia.
  assert (Hmx_le : mx <= Z.pos mB * 2 ^ (eB - ex)) by (destruct lx; cbn [upper] in Hup; lia).
  assert (P1 : 0 < 2 ^ (eB - ex)) by (apply Z.pow_pos_nonneg; lia).
  assert (He1 : e1 <= eB).
  { assert (H : 2 ^ (d - 1) < 2 ^ (dB + (eB - ex))).
    { rewrite Z.pow_add_r by lia. nia. }
    apply Z.pow_lt_mono_r_iff in H; lia. }
  set (n := e1 - ex) in *.
  assert (Hn : 0 <= n) by (unfold n; lia).
  assert (P2 : 0 < 2 ^ n) by (apply Z.pow_pos_nonneg; lia).
  assert (P3 : 0 < 2 ^ (eB - e1)) by (apply Z.pow_pos_nonneg; lia).
  set (K := Z.pos mB * 2 ^ (eB - e1)).
  assert (HK : Z.pos mB * 2 ^ (eB - ex) = K * 2 ^ n).
  { unfold K. rewrite <- Z.mul_assoc, <- Z.pow_add_r by lia.
    f_equal. f_equal. unfold n. lia. }
  unfold binary_round_aux, shr_fexp. rewrite fexp_spec. fold d. fold e1. fold n.
  pose proof (shr_spec mx ex n lx (Z.lt_le_incl _ _ Hmx)) as Hs.
  destruct (shr (shr_record_of_loc mx lx) ex n) as [mrs' e'].
  rewrite Z.max_l in Hs by lia. destruct Hs as (-> & Hm' & Hexact).
  replace (ex + n) with e1 by (unfold n; lia).
  destruct (round_nearest_even_spec mrs') as [Hr1 Hr2]. cbv zeta in *.
  set (m1 := round_nearest_even (shr_m mrs') (loc_of_shr_record mrs')) in *.
  set (m' := shr_m mrs') in *.
  assert (Hdm : 2 ^ n * m' <= mx < 2 ^ n * (m' + 1)).
  { rewrite Hm'. pose proof (Z.mul_div_le mx (2 ^ n) P2).
    pose proof (Z.mul_succ_div_gt mx (2 ^ n) P2). lia. }
  assert (Hm'0 : 0 <= m') by (rewrite Hm'; apply Z.div_pos; lia).
  assert (Hm'K : m' <= K) by nia.
  assert (Hm1K : m1 <= K).
  { destruct (Z.eq_dec m1 m') as [->|Hne]; [exact Hm'K|].
    destruct (Z.eq_dec m' K) as [E|E]; [|lia].
    exfalso. apply Hne, Hr2, Hexact.
    assert (Hmx_eq : mx = 2 ^ n * m') by nia.
    split; [|exact Hmx_eq].
    destruct lx as [|c]; [reflexivity|]. cbn [upper] in Hup. nia. }
  assert (Hm'53 : m' < 2 ^ 53).
  { assert (H : 2 ^ d <= 2 ^ n * 2 ^ 53).
    { rewrite <- Z.pow_add_r by lia. apply Z.pow_le_mono_r; unfold n; lia. }
    nia. }
  assert (HmB53 : Z.pos mB < 2 ^ 53).
  { assert (2 ^ dB <= 2 ^ 53) by (apply Z.pow_le_mono_r; lia). lia. }
  destruct (Z.eq_dec m1 (2 ^ 53)) as [E53|N53].
  - (* the rounding carries into a new bit *)
    rewrite E53. change (Zdigits2 (2 ^ 53)) with 54. rewrite fexp_spec.
    replace (Z.max (54 + e1 - 53) (-1074) - e1) with 1 by lia.
    cbn [shr shr_record_of_loc iter_pos shr_1 shr_m Z.pow Z.pow_pos Pos.iter Z.mul Pos.mul].
    assert (He2 : e1 + 1 <= eB).
    { destruct (Z.eq_dec e1 eB) as [E|E]; [|lia].
      exfalso. unfold K in Hm1K. rewrite E, Z.sub_diag in Hm1K. lia. }
    change (Z.add e1 (Zpos 1)) with (e1 + 1).
    destruct (Z.leb_spec (e1 + 1) (emax - prec)) as [_|Hov];
      [|change (emax - prec) with 971 in Hov; lia].
    cbn [at_most]. split; [reflexivity|]. split; [exact He2|].
    assert (HK2 : K = Z.pos mB * 2 ^ (eB - (e1 + 1)) * 2).
    { unfold K. replace (eB - e1) with (Z.succ (eB - (e1 + 1))) by lia.
      rewrite Z.pow_succ_r by lia. ring. }
    change (Z.pos 4503599627370496) with (2 ^ 52). lia.
  - assert (Hm153 : m1 < 2 ^ 53) by lia.
    assert (Hshift : fexp prec emax (Zdigits2 m1 + e1) - e1 <= 0).
    { rewrite fexp_spec.
      destruct (Z.eq_dec m1 0) as [->|Hnz]; [cbn [Zdigits2]; lia|].
      pose proof (digits_le m1 53 ltac:(lia) Hm153). lia. }
    assert (Hsame : shr (shr_record_of_loc m1 loc_Exact) e1
                      (fexp prec emax (Zdigits2 m1 + e1) - e1) =
                    (shr_record_of_loc m1 loc_Exact, e1)).
    { destruct (fexp prec emax (Zdigits2 m1 + e1) - e1); try reflexivity. lia. }
    rewrite Hsame. cbn [shr_record_of_loc shr_m].
    destruct m1 as [|p1|p1]; [reflexivity| |lia].
    destruct (Z.leb_spec e1 (emax - prec)) as [_|Hov];
      [|change (emax - prec) with 971 in Hov; lia].
    cbn [at_most]. split; [reflexivity|]. split; [exact He1|exact Hm1K].
Qed.


(** What [binary_round_aux] returns, for a mantissa with enough bits: the
    mantissa cut at the exponent of the format, or the next one up. *)
Lemma round_shape (sx : bool) (mx ex : Z) (lx : location) :
  0 < mx ->
  ex <= fexp prec emax (Zdigits2 mx + ex) ->
  let e1 := fexp prec emax (Zdigits2 mx + ex) in
  let m' := mx / 2 ^ (e1 - ex) in
  exists m1 : Z,
    m' <= m1 <= m' + 1 /\ m1 <= 2 ^ 53 /\
    (lx = loc_Exact -> mx = 2 ^ (e1 - ex) * m' -> m1 = m') /\
    binary_round_aux prec emax sx mx ex lx =
      match m1 with
      | 0 => S754_zero sx
      | Z.pos p =>
          if m1 =? 2 ^ 53 then
            if e1 + 1 <=? 971 then S754_finite sx 4503599627370496 (e1 + 1)
            else S754_infinity sx
          else if e1 <=? 971 then S754_finite sx p e1 else S754_infinity sx
      | Z.neg _ => S754_nan
      end.
Proof.
  intros Hmx Hbits. cbv zeta.
  destruct (digits_bounds mx Hmx) as [Hd0 [Hd1 Hd2]].
  rewrite fexp_spec in *.
  set (d := Zdigits2 mx) in *.
  set (e1 := Z.max (d + ex - 53) (-1074)) in *.
  set (n := e1 - ex) in *.
  assert (Hn : 0 <= n) by (unfold n; lia).
  assert (P2 : 0 < 2 ^ n) by (apply Z.pow_pos_nonneg; lia).
  unfold binary_round_aux, shr_fexp. rewrite fexp_spec. fold d. fold e1. fold n.
  pose proof (shr_spec mx ex n lx (Z.lt_le_incl _ _ Hmx)) as Hs.
  destruct (shr (shr_record_of_loc mx lx) ex n) as [mrs' e'].
  rewrite Z.max_l in Hs by lia. destruct Hs as (-> & Hm' & Hexact).
  replace (ex + n) with e1 by (unfold n; lia).
  destruct (round_nearest_even_spec mrs') as [Hr1 Hr2]. cbv zeta in *.
  set (m1 := round_nearest_even (shr_m mrs') (loc_of_shr_record mrs')) in *.
  rewrite Hm' in *.
  assert (Hm'0 : 0 <= mx / 2 ^ n) by (apply Z.div_pos; lia).
  assert (Hm'53 : mx / 2 ^ n < 2 ^ 53).
  { apply Z.div_lt_upper_bound; [exact P2|].
    assert (H : 2 ^ d <= 2 ^ n * 2 ^ 53).
    { rewrite <- Z.pow_add_r by lia. apply Z.pow_le_mono_r; unfold n; lia. }
    lia. }
  exists m1. split; [exact Hr1|]. split; [lia|]. split.
  { intros Hl Hv. apply Hr2, Hexact. split; assumption. }
  destruct (Z.eq_dec m1 (2 ^ 53)) as [E53|N53].
  - rewrite E53. change (Zdigits2 (2 ^ 53)) with 54. rewrite fexp_spec.
    replace (Z.max (54 + e1 - 53) (-1074) - e1) with 1 by lia.
    cbn [shr shr_record_of_loc iter_pos shr_1 shr_m Z.pow Z.pow_pos Pos.iter Z.mul Pos.mul].
    change (Z.add e1 (Zpos 1)) with (e1 + 1).
    change (emax - prec) with 971. reflexivity.
  - assert (Hm153 : m1 < 2 ^ 53) by lia.
    assert (Hshift : fexp prec emax (Zdigits2 m1 + e1) - e1 <= 0).
    { rewrite fexp_spec.
      destruct (Z.eq_dec m1 0) as [->|Hnz]; [cbn [Zdigits2]; lia|].
      pose proof (digits_le m1 53 ltac:(lia) Hm153). lia. }
    assert (Hsame : shr (shr_record_of_loc m1 loc_Exact) e1
                      (fexp prec emax (Zdigits2 m1 + e1) - e1) =
                    (shr_record_of_loc m1 loc_Exact, e1)).
    { destruct (fexp prec emax (Zdigits2 m1 + e1) - e1); try reflexivity. lia. }
    rewrite Hsame. cbn [shr_record_of_loc shr_m].
    destruct m1 as [|p1|p1]; [reflexivity| |reflexivity].
    destruct (Z.eqb_spec (Z.pos p1) (2 ^ 53)); [contradiction|].
    change (emax - prec) with 971. reflexivity.
Qed.

(** The mirror of [round_le]: a value at least a number of the format is
    rounded to at least that number. *)
Lemma round_ge (mx ex : Z) (lx : location) (mB : positive) (eB : Z) :
  0 < mx ->
  ex <= fexp prec emax (Zdigits2 mx + ex) ->
  bounded prec emax mB eB = true ->
  ex <= eB ->
  Z.pos mB * 2 ^ (eB - ex) <= mx ->
  at_least mB eB (binary_round_aux prec emax false mx ex lx).
Proof.
  intros Hmx Hbits HB Hex Hlow.
  destruct (round_shape false mx ex lx Hmx Hbits) as (m1 & Hm1 & Hm153 & _ & ->).
  destruct (digits_bounds mx Hmx) as [Hd0 [Hd1 Hd2]].
  destruct (bounded_spec _ _ HB) as [HcB HeB].
  destruct (digits_bounds (Z.pos mB) (Pos2Z.is_pos mB)) as [HdB0 [HdB1 HdB2]].
  rewrite fexp_spec in *.
  set (d := Zdigits2 mx) in *. set (dB := Zdigits2 (Z.pos mB)) in *.
  set (e1 := Z.max (d + ex - 53) (-1074)) in *.
  assert (HdB53 : dB <= 53) by lia.
  assert (HmB53 : Z.pos mB < 2 ^ 53).
  { assert (2 ^ dB <= 2 ^ 53) by (apply Z.pow_le_mono_r; lia). lia. }
  assert (P1 : 0 < 2 ^ (eB - ex)) by (apply Z.pow_pos_nonneg; lia).
  assert (He1 : eB <= e1).
  { assert (H : 2 ^ (dB - 1 + (eB - ex)) < 2 ^ d).
    { rewrite Z.pow_add_r by lia. nia. }
    apply Z.pow_lt_mono_r_iff in H; lia. }
  set (n := e1 - ex) in *.
  assert (Hn : 0 <= n) by (unfold n; lia).
  assert (P2 : 0 < 2 ^ n) by (apply Z.pow_pos_nonneg; lia).
  assert (P3 : 0 < 2 ^ (e1 - eB)) by (apply Z.pow_pos_nonneg; lia).
  assert (Hdm : 2 ^ n * (mx / 2 ^ n) <= mx < 2 ^ n * (mx / 2 ^ n + 1)).
  { pose proof (Z.mul_div_le mx (2 ^ n) P2).
    pose proof (Z.mul_succ_div_gt mx (2 ^ n) P2). lia. }
  assert (Hkey : Z.pos mB <= (mx / 2 ^ n) * 2 ^ (e1 - eB)).
  { destruct (Z.eq_dec eB e1) as [E|E].
    - rewrite E, Z.sub_diag, Z.mul_1_r.
      replace (eB - ex) with n in Hlow by (unfold n; lia).
      apply Z.div_le_lower_bound; lia.
    - assert (He1n : e1 = d + ex - 53) by lia.
      assert (H52 : 2 ^ 52 <= mx / 2 ^ n).
      { apply Z.div_le_lower_bound; [exact P2|].
        assert (E2 : 2 ^ n * 2 ^ 52 = 2 ^ (d - 1)).
        { rewrite <- Z.pow_add_r by lia. f_equal. unfold n. lia. }
        lia. }
      assert (H2 : 2 <= 2 ^ (e1 - eB)).
      { change 2 with (2 ^ 1) at 1. apply Z.pow_le_mono_r; lia. }
      change (2 ^ 53) with (2 ^ 52 * 2) in HmB53. nia. }
  assert (Hm1low : Z.pos mB <= m1 * 2 ^ (e1 - eB)) by nia.
  destruct m1 as [|p1|p1]; [lia| |lia].
  destruct (Z.eqb_spec (Z.pos p1) (2 ^ 53)) as [E53|N53].
  - destruct (Z.leb_spec (e1 + 1) 971); [|reflexivity].
    cbn [at_least]. split; [reflexivity|]. split; [lia|].
    replace (e1 + 1 - eB) with (Z.succ (e1 - eB)) by lia.
    rewrite Z.pow_succ_r by lia. change (Z.pos 4503599627370496) with (2 ^ 52).
    rewrite E53 in Hm1low. change (2 ^ 53) with (2 ^ 52 * 2) in Hm1low. lia.
  - destruct (Z.leb_spec e1 971); [|reflexivity].
    cbn [at_least]. split; [reflexivity|]. split; [exact He1|exact Hm1low].
Qed.

Lemma at_least_leb (mB : positive) (eB : Z) (x : spec_float) :
  at_least mB eB x -> SFleb (S754_finite false mB eB) x = true.
Proof.
  destruct x as [s|s| |s m e]; cbn [at_least]; try contradiction.
  - intros ->. reflexivity.
  - intros (-> & He & Hm). unfold SFleb, SFcompare.
    destruct (Z.compare_spec eB e) as [E|E|E]; try reflexivity; [|lia].
    subst e. rewrite Z.sub_diag, Z.mul_1_r in Hm.
    change (Pos.compare_cont Eq mB m) with (Pos.compare mB m).
    rewrite Pos2Z.inj_compare.
    destruct (Z.compare_spec (Z.pos mB) (Z.pos m)); try reflexivity. lia.
Qed.

(** In the normal range the rounding of a positive value is not zero, and
    its exponent is not below that of the format. *)
Lemma round_normal (sx : bool) (mx ex : Z) (lx : location) :
  0 < mx ->
  ex <= fexp prec emax (Zdigits2 mx + ex) ->
  -1074 <= Zdigits2 mx + ex - 53 ->
  match binary_round_aux prec emax sx mx ex lx with
  | S754_finite s m e => s = sx /\ Zdigits2 mx + ex - 53 <= e
  | S754_infinity s => s = sx
  | _ => False
  end.
Proof.
  intros Hmx Hbits Hnorm.
  destruct (round_shape sx mx ex lx Hmx Hbits) as (m1 & Hm1 & Hm153 & _ & ->).
  destruct (digits_bounds mx Hmx) as [Hd0 [Hd1 Hd2]].
  rewrite fexp_spec in *.
  set (d := Zdigits2 mx) in *.
  replace (Z.max (d + ex - 53) (-1074)) with (d + ex - 53) in * by lia.
  set (n := d + ex - 53 - ex) in *.
  assert (P2 : 0 < 2 ^ n) by (apply Z.pow_pos_nonneg; unfold n; lia).
  assert (H52 : 2 ^ 52 <= mx / 2 ^ n).
  { apply Z.div_le_lower_bound; [exact P2|].
    assert (E2 : 2 ^ n * 2 ^ 52 = 2 ^ (d - 1)).
    { rewrite <- Z.pow_add_r by (unfold n; lia). f_equal. unfold n. lia. }
    lia. }
  destruct m1 as [|p1|p1]; [lia| |lia].
  destruct (Z.eqb_spec (Z.pos p1) (2 ^ 53)).
  - destruct (Z.leb_spec (d + ex - 53 + 1) 971); [split; [reflexivity|lia]|reflexivity].
  - destruct (Z.leb_spec (d + ex - 53) 971); [split; [reflexivity|lia]|reflexivity].
Qed.

(** [at_most] in the order the comparisons use. *)
Lemma at_most_leb (mB : positive) (eB : Z) (x : spec_float) :
  at_most mB eB x -> SFleb x (S754_finite false mB eB) = true.
Proof.
  destruct x as [s|s| |s m e]; cbn [at_most]; try contradiction.
  - intros ->. reflexivity.
  - intros (-> & He & Hm). unfold SFleb, SFcompare.
    destruct (Z.compare_spec e eB) as [E|E|E]; try reflexivity; [|lia].
    subst e. rewrite Z.sub_diag, Z.mul_1_r in Hm.
    change (Pos.compare_cont Eq m mB) with (Pos.compare m mB).
    rewrite Pos2Z.inj_compare.
    destruct (Z.compare_spec (Z.pos m) (Z.pos mB)); try reflexivity. lia.
Qed.

(** *** The order of doubles, read on integers

    [ord] sends the doubles that are not NaN to integers, in order: the
    comparisons of two doubles are the comparisons of their images. *)

Lemma compare_ord (x y : spec_float) :
  valid_binary x = true -> valid_binary y = true ->
  not_nan x -> not_nan y ->
  SFcompare x y = Some (ord x ?= ord y).
Proof.
  intros Vx Vy Nx Ny.
  destruct x as [sx|sx| |sx mx ex]; [| |contradiction Nx; reflexivity|];
  destruct y as [sy|sy| |sy my ey]; try (contradiction Ny; reflexivity);
    cbn [valid_binary] in Vx, Vy;
    try (destruct (valid_finite_shape _ _ Vx) as [[Hmx Hex]|[Hmx Hex]]);
    try (destruct (valid_finite_shape _ _ Vy) as [[Hmy Hey]|[Hmy Hey]]);
    cbn [SFcompare ord]; try destruct sx; try destruct sy; cbv zeta;
    try change (Pos.compare_cont Eq mx my) with (Pos.compare mx my);
    try rewrite (Pos2Z.inj_compare mx my);
    f_equal; symmetry;
    try (apply Z.compare_eq_iff; lia);
    try (apply Z.compare_lt_iff; lia);
    try (apply Z.compare_gt_iff; lia);
    try (destruct (Z.compare_spec ex ey) as [E|E|E];
         [subst ey;
          destruct (Z.compare_spec (Z.pos mx) (Z.pos my)) as [F|F|F]; cbn [CompOpp];
          [apply Z.compare_eq_iff; lia
          |first [apply Z.compare_lt_iff; lia | apply Z.compare_gt_iff; lia]
          |first [apply Z.compare_gt_iff; lia | apply Z.compare_lt_iff; lia]]
         |first [apply Z.compare_lt_iff; nia | apply Z.compare_gt_iff; nia]
         |first [apply Z.compare_gt_iff; nia | apply Z.compare_lt_iff; nia]]).
Qed.


Lemma is_nan_spec (x : float) : is_nan x = false <-> not_nan (Prim2SF x).
Proof.
  unfold is_nan, not_nan. rewrite FloatAxioms.eqb_spec. unfold SFeqb.
  destruct (Prim2SF x) as [s|s| |s m e] eqn:E.
  - cbn. split; [discriminate|reflexivity].
  - cbn. destruct s; split; try discriminate; reflexivity.
  - cbn. split; [discriminate|]. intros H. contradiction H. reflexivity.
  - rewrite compare_ord; try discriminate.
    + rewrite Z.compare_refl. cbn. split; [discriminate|reflexivity].
    + rewrite <- E. apply Prim2SF_valid.
    + rewrite <- E. apply Prim2SF_valid.
Qed.

Section Comparisons.
Variables x y : float.
Hypothesis Hx : is_nan x = false.
Hypothesis Hy : is_nan y = false.

Lemma compare_key : SFcompare (Prim2SF x) (Prim2SF y) = Some (key x ?= key y).
Proof.
  apply compare_ord; try apply Prim2SF_valid; apply is_nan_spec; assumption.
Qed.

Lemma leb_key : (x <=? y)%float = (key x <=? key y).
Proof.
  rewrite FloatAxioms.leb_spec. unfold SFleb. rewrite compare_key. unfold Z.leb.
  destruct (key x ?= key y); reflexivity.
Qed.

Lemma ltb_key : (x <? y)%float = (key x <? key y).
Proof.
  rewrite FloatAxioms.ltb_spec. unfold SFltb. rewrite compare_key. unfold Z.ltb.
  destruct (key x ?= key y); reflexivity.
Qed.

Lemma eqb_key : (x =? y)%float = (key x =? key y).
Proof.
  rewrite FloatAxioms.eqb_spec. unfold SFeqb. rewrite compare_key. unfold Z.eqb.
  destruct (key x) as [|p|p], (key y) as [|q|q]; cbn [Z.compare]; try reflexivity.
  - rewrite Pos.compare_cont_spec || idtac.
    destruct (Pos.compare_spec p q) as [E|E|E], (Pos.eqb_spec p q); try reflexivity; try lia.
  - destruct (Pos.compare_spec p q) as [E|E|E], (Pos.eqb_spec p q);
      cbn [CompOpp]; try reflexivity; try lia.
Qed.
End Comparisons.

(** *** Integers below [2^53] are doubles *)

Lemma iter_xO (k : positive) (p : positive) :
  Z.pos (Pos.iter xO p k) = Z.pos p * 2 ^ Z.pos k.
Proof.
  induction k as [|k IH] using Pos.peano_ind.
  - cbn [Pos.iter]. rewrite Pos2Z.inj_xO. change (2 ^ 1) with 2. lia.
  - rewrite Pos.iter_succ, Pos2Z.inj_xO, IH, Pos2Z.inj_succ, Z.pow_succ_r by lia. ring.
Qed.

Lemma round_exact (s : bool) (m : positive) (e : Z) :
  Zdigits2 (Z.pos m) = 53 -> -1074 <= e <= 971 ->
  binary_round_aux prec emax s (Z.pos m) e loc_Exact = S754_finite s m e.
Proof.
  intros Hd He. unfold binary_round_aux, shr_fexp. rewrite Hd, fexp_spec.
  replace (Z.max (53 + e - 53) (-1074) - e) with 0 by lia.
  cbn [shr shr_record_of_loc shr_m loc_of_shr_record round_nearest_even].
  rewrite Hd, fexp_spec.
  replace (Z.max (53 + e - 53) (-1074) - e) with 0 by lia.
  cbn [shr shr_m].
  destruct (Z.leb_spec e (emax - prec)) as [_|H]; [reflexivity|].
  change (emax - prec) with 971 in H. lia.
Qed.

Lemma of_uint63_exact (n : Z) :
  0 < n < 2 ^ 53 ->
  exists (m : positive) (e : Z),
    Prim2SF (of_uint63 (Uint63.of_Z n)) = S754_finite false m e /\
    Zdigits2 (Z.pos m) = 53 /\ -52 <= e <= 0 /\
    Z.pos m = n * 2 ^ (- e).
Proof.
  intros Hn. rewrite of_uint63_spec, Uint63.of_Z_spec.
  rewrite Z.mod_small by (change wB with (2 ^ 63); lia).
  destruct n as [|p|p]; try lia.
  destruct (digits_bounds (Z.pos p) ltac:(lia)) as [Hd0 [Hd1 Hd2]].
  assert (Hd : Zdigits2 (Z.pos p) <= 53) by (apply digits_le; lia).
  cbn [Zdigits2] in *.
  unfold binary_normalize, binary_round, shl_align. rewrite fexp_spec.
  set (d := Z.pos (digits2_pos p)) in *.
  replace (Z.max (d + 0 - 53) (-1074) - 0) with (d - 53) by lia.
  destruct (d - 53) as [|k|k] eqn:Ek; [|lia|].
  - exists p, 0. rewrite round_exact by (cbn [Zdigits2]; lia).
    replace (Z.max (d + 0 - 53) (-1074)) with 0 by lia.
    repeat split; cbn [Zdigits2]; try fold d; lia.
  - replace (Z.max (d + 0 - 53) (-1074)) with (d - 53) by lia.
    assert (Hv : Z.pos (Pos.iter xO p k) = Z.pos p * 2 ^ Z.pos k) by apply iter_xO.
    assert (Hk : Z.pos k = 53 - d) by lia.
    assert (Hdig : Zdigits2 (Z.pos (Pos.iter xO p k)) = 53).
    { destruct (digits_bounds (Z.pos (Pos.iter xO p k)) ltac:(lia)) as [G0 [G1 G2]].
      assert (A1 : 2 ^ (d - 1) * 2 ^ Z.pos k = 2 ^ 52).
      { rewrite <- Z.pow_add_r by lia. f_equal. lia. }
      assert (A2 : 2 ^ d * 2 ^ Z.pos k = 2 ^ 53).
      { rewrite <- Z.pow_add_r by lia. f_equal. lia. }
      assert (P : 0 < 2 ^ Z.pos k) by (apply Z.pow_pos_nonneg; lia).
      set (D := Zdigits2 (Z.pos (Pos.iter xO p k))) in *.
      assert (C1 : Z.pos p * 2 ^ Z.pos k < 2 ^ d * 2 ^ Z.pos k)
        by (apply Z.mul_lt_mono_pos_r; lia).
      assert (C2 : 2 ^ (d - 1) * 2 ^ Z.pos k <= Z.pos p * 2 ^ Z.pos k)
        by (apply Z.mul_le_mono_pos_r; lia).
      assert (B1 : 2 ^ (D - 1) < 2 ^ 53) by lia.
      assert (B2 : 2 ^ 52 < 2 ^ D) by lia.
      apply Z.pow_lt_mono_r_iff in B1; [|lia|lia].
      apply Z.pow_lt_mono_r_iff in B2; lia. }
    exists (Pos.iter xO p k), (d - 53).
    rewrite Ek. rewrite round_exact by (trivial; rewrite <- Ek in *; lia).
    split; [reflexivity|]. split; [exact Hdig|].
    rewrite <- Ek. split; [lia|].
    rewrite Hv. f_equal. f_equal. lia.
Qed.


(** *** Products and quotients against a number of the format *)

Lemma enough_bits (m e : Z) :
  2 ^ 52 <= m -> e <= fexp prec emax (Zdigits2 m + e).
Proof.
  intros Hm. rewrite fexp_spec.
  destruct (digits_bounds m ltac:(lia)) as [Hd0 [Hd1 Hd2]].
  assert (H : 2 ^ 52 < 2 ^ Zdigits2 m) by lia.
  apply Z.pow_lt_mono_r_iff in H; lia.
Qed.

Lemma mul_at_most (x y : float) (mx my mB : positive) (ex ey eB : Z) :
  Prim2SF x = S754_finite false mx ex ->
  Prim2SF y = S754_finite false my ey ->
  2 ^ 52 <= Z.pos mx * Z.pos my ->
  bounded prec emax mB eB = true ->
  ex + ey <= eB ->
  Z.pos mx * Z.pos my <= Z.pos mB * 2 ^ (eB - (ex + ey)) ->
  at_most mB eB (Prim2SF (x * y)).
Proof.
  intros Hx Hy Hbits HB He Hle.
  rewrite FloatAxioms.mul_spec, Hx, Hy. unfold SF64mul, SFmul. cbn [xorb].
  rewrite Pos2Z.inj_mul.
  apply round_le; trivial; [lia|].
  apply enough_bits. exact Hbits.
Qed.

Lemma upper_new_location (nb r q : Z) :
  upper q (new_location nb r) = if r =? 0 then q else q + 1.
Proof.
  unfold new_location, new_location_even, new_location_odd.
  destruct (Z.even nb), (r =? 0); reflexivity.
Qed.

Lemma div_at_most (x y : float) (mx my mB : positive) (ex ey eB : Z) :
  Prim2SF x = S754_finite false mx ex ->
  Prim2SF y = S754_finite false my ey ->
  Zdigits2 (Z.pos mx) = 53 -> Zdigits2 (Z.pos my) = 53 ->
  -1021 <= ex - ey ->
  bounded prec emax mB eB = true ->
  ex - ey - 53 <= eB ->
  Z.pos mx * 2 ^ 53 <= Z.pos my * (Z.pos mB * 2 ^ (eB - (ex - ey - 53))) ->
  at_most mB eB (Prim2SF (x / y)).
Proof.
  intros Hx Hy Dx Dy Hnorm HB He Hle.
  rewrite FloatAxioms.div_spec, Hx, Hy. unfold SF64div, SFdiv, SFdiv_core_binary. cbn [xorb].
  rewrite Dx, Dy, fexp_spec.
  replace (Z.min (Z.max (53 + ex - (53 + ey) - 53) (-1074)) (ex - ey))
    with (ex - ey - 53) by lia.
  replace (ex - ey - (ex - ey - 53)) with 53 by lia.
  rewrite Z.shiftl_mul_pow2 by lia.
  destruct (digits_bounds (Z.pos mx) ltac:(lia)) as [_ [Hx1 Hx2]].
  destruct (digits_bounds (Z.pos my) ltac:(lia)) as [_ [Hy1 Hy2]].
  rewrite Dx in Hx1, Hx2. rewrite Dy in Hy1, Hy2.
  change (53 - 1) with 52 in *.
  pose proof (Z_div_mod (Z.pos mx * 2 ^ 53) (Z.pos my) ltac:(lia)) as Hdm.
  destruct (Z.div_eucl (Z.pos mx * 2 ^ 53) (Z.pos my)) as [q r].
  destruct Hdm as [Hq Hr].
  set (T := Z.pos mB * 2 ^ (eB - (ex - ey - 53))) in *.
  assert (Hq52 : 2 ^ 52 <= q) by nia.
  apply round_le; trivial; [lia|apply enough_bits; exact Hq52|].
  rewrite upper_new_location.
  destruct (Z.eqb_spec r 0) as [E|E]; nia.
Qed.


Lemma mul_at_least (x y : float) (mx my mB : positive) (ex ey eB : Z) :
  Prim2SF x = S754_finite false mx ex ->
  Prim2SF y = S754_finite false my ey ->
  2 ^ 52 <= Z.pos mx * Z.pos my ->
  bounded prec emax mB eB = true ->
  ex + ey <= eB ->
  Z.pos mB * 2 ^ (eB - (ex + ey)) <= Z.pos mx * Z.pos my ->
  at_least mB eB (Prim2SF (x * y)).
Proof.
  intros Hx Hy Hbits HB He Hle.
  rewrite FloatAxioms.mul_spec, Hx, Hy. unfold SF64mul, SFmul. cbn [xorb].
  rewrite Pos2Z.inj_mul.
  apply round_ge; trivial; [lia|].
  apply enough_bits. exact Hbits.
Qed.

Lemma div_at_least (x y : float) (mx my mB : positive) (ex ey eB : Z) :
  Prim2SF x = S754_finite false mx ex ->
  Prim2SF y = S754_finite false my ey ->
  Zdigits2 (Z.pos mx) = 53 -> Zdigits2 (Z.pos my) = 53 ->
  -1021 <= ex - ey ->
  bounded prec emax mB eB = true ->
  ex - ey - 53 <= eB ->
  Z.pos my * (Z.pos mB * 2 ^ (eB - (ex - ey - 53))) <= Z.pos mx * 2 ^ 53 ->
  at_least mB eB (Prim2SF (x / y)).
Proof.
  intros Hx Hy Dx Dy Hnorm HB He Hle.
  rewrite FloatAxioms.div_spec, Hx, Hy. unfold SF64div, SFdiv, SFdiv_core_binary. cbn [xorb].
  rewrite Dx, Dy, fexp_spec.
  replace (Z.min (Z.max (53 + ex - (53 + ey) - 53) (-1074)) (ex - ey))
    with (ex - ey - 53) by lia.
  replace (ex - ey - (ex - ey - 53)) with 53 by lia.
  rewrite Z.shiftl_mul_pow2 by lia.
  destruct (digits_bounds (Z.pos mx) ltac:(lia)) as [_ [Hx1 Hx2]].
  destruct (digits_bounds (Z.pos my) ltac:(lia)) as [_ [Hy1 Hy2]].
  rewrite Dx in Hx1, Hx2. rewrite Dy in Hy1, Hy2.
  change (53 - 1) with 52 in *.
  pose proof (Z_div_mod (Z.pos mx * 2 ^ 53) (Z.pos my) ltac:(lia)) as Hdm.
  destruct (Z.div_eucl (Z.pos mx * 2 ^ 53) (Z.pos my)) as [q r].
  destruct Hdm as [Hq Hr].
  set (T := Z.pos mB * 2 ^ (eB - (ex - ey - 53))) in *.
  assert (Hq52 : 2 ^ 52 <= q) by nia.
  apply round_ge; trivial; [lia|apply enough_bits; exact Hq52|].
  fold T. nia.
Qed.

(** Signs: a quotient or product of two finite doubles, the first with a
    full mantissa and the exponents in range, is a non-zero double with the
    product of the signs. *)
Lemma div_signed (x y : float) (sx sy : bool) (mx my : positive) (ex ey : Z) :
  Prim2SF x = S754_finite sx mx ex ->
  Prim2SF y = S754_finite sy my ey ->
  Zdigits2 (Z.pos mx) = 53 -> Zdigits2 (Z.pos my) = 53 ->
  -1021 <= ex - ey ->
  signed (xorb sx sy) (ex - ey - 53) (Prim2SF (x / y)).
Proof.
  intros Hx Hy Dx Dy Hnorm.
  rewrite FloatAxioms.div_spec, Hx, Hy. unfold SF64div, SFdiv, SFdiv_core_binary.
  rewrite Dx, Dy, fexp_spec.
  replace (Z.min (Z.max (53 + ex - (53 + ey) - 53) (-1074)) (ex - ey))
    with (ex - ey - 53) by lia.
  replace (ex - ey - (ex - ey - 53)) with 53 by lia.
  rewrite Z.shiftl_mul_pow2 by lia.
  destruct (digits_bounds (Z.pos mx) ltac:(lia)) as [_ [Hx1 Hx2]].
  destruct (digits_bounds (Z.pos my) ltac:(lia)) as [_ [Hy1 Hy2]].
  rewrite Dx in Hx1, Hx2. rewrite Dy in Hy1, Hy2.
  change (53 - 1) with 52 in *.
  pose proof (Z_div_mod (Z.pos mx * 2 ^ 53) (Z.pos my) ltac:(lia)) as Hdm.
  destruct (Z.div_eucl (Z.pos mx * 2 ^ 53) (Z.pos my)) as [q r].
  destruct Hdm as [Hq Hr].
  assert (Hq52 : 2 ^ 52 <= q) by nia.
  destruct (digits_bounds q ltac:(lia)) as [Q0 [Q1 Q2]].
  assert (Hdq : 53 <= Zdigits2 q).
  { assert (H : 2 ^ 52 < 2 ^ Zdigits2 q) by lia.
    apply Z.pow_lt_mono_r_iff in H; lia. }
  pose proof (round_normal (xorb sx sy) q (ex - ey - 53) (new_location (Z.pos my) r)
                ltac:(lia) (enough_bits _ _ Hq52) ltac:(lia)) as Hr'.
  destruct (binary_round_aux prec emax (xorb sx sy) q (ex - ey - 53)
              (new_location (Z.pos my) r)) as [s|s| |s m e]; cbn [signed]; try contradiction.
  - exact Hr'.
  - destruct Hr' as [Hs He]. split; [exact Hs|lia].
Qed.

Lemma mul_signed (x y : float) (sx sy : bool) (mx my : positive) (ex ey : Z) :
  Prim2SF x = S754_finite sx mx ex ->
  Prim2SF y = S754_finite sy my ey ->
  2 ^ 52 <= Z.pos mx * Z.pos my ->
  -1074 <= ex + ey ->
  signed (xorb sx sy) (ex + ey) (Prim2SF (x * y)).
Proof.
  intros Hx Hy Hbits Hnorm.
  rewrite FloatAxioms.mul_spec, Hx, Hy. unfold SF64mul, SFmul.
  rewrite Pos2Z.inj_mul.
  set (m := Z.pos mx * Z.pos my) in *.
  destruct (digits_bounds m ltac:(lia)) as [Q0 [Q1 Q2]].
  assert (Hd : 53 <= Zdigits2 m).
  { assert (H : 2 ^ 52 < 2 ^ Zdigits2 m) by lia.
    apply Z.pow_lt_mono_r_iff in H; lia. }
  pose proof (round_normal (xorb sx sy) m (ex + ey) loc_Exact
                ltac:(lia) (enough_bits _ _ Hbits) ltac:(lia)) as Hr'.
  destruct (binary_round_aux prec emax (xorb sx sy) m (ex + ey) loc_Exact)
    as [s|s| |s m' e]; cbn [signed]; try contradiction.
  - exact Hr'.
  - destruct Hr' as [Hs He]. split; [exact Hs|lia].
Qed.

Lemma signed_negative (lo : Z) (x : float) :
  signed true lo (Prim2SF x) -> (x <? 0)%float = true.
Proof.
  rewrite FloatAxioms.ltb_spec. change (Prim2SF 0) with (S754_zero false).
  destruct (Prim2SF x) as [s|s| |s m e]; cbn [signed]; try contradiction.
  - intros ->. reflexivity.
  - intros [-> _]. reflexivity.
Qed.

(** A double pinned from both sides by a number of the format is that
    number. *)
Lemma at_most_at_least (mB : positive) (eB : Z) (x : float) :
  at_most mB eB (Prim2SF x) -> at_least mB eB (Prim2SF x) ->
  Prim2SF x = S754_finite false mB eB.
Proof.
  destruct (Prim2SF x) as [s|s| |s m e]; cbn [at_most at_least]; try contradiction.
  intros (-> & He & Hm) (_ & He' & Hm').
  assert (e = eB) by lia. subst e. rewrite Z.sub_diag, Z.mul_1_r in *.
  f_equal. lia.
Qed.

End Binary64.

(* ================================================================== *)
(** ** The results block: latency statistics and packet loss       *)
(* ================================================================== *)

Module Aggregator.

Import Codec Binary64.

(** *** Python on doubles and lengths *)

(** [float(n)] for an integer of absolute value below [2^63], as lengths
    and their differences are. *)
Definition float_of_int (n : Z) : float :=
  if n <? 0 then (- of_uint63 (Uint63.of_Z (- n)))%float
  else of_uint63 (Uint63.of_Z n).

(** [int(x)]: rounds toward zero. *)
Definition int_of_float (x : float) : result Z :=
  match Prim2SF x with
  | S754_zero _ => Return 0
  | S754_finite s m e =>
      let v := if 0 <=? e then Z.pos m * 2 ^ e else Z.pos m / 2 ^ (- e) in
      Return (if s then - v else v)
  | S754_infinity _ => Raise OverflowError
  | S754_nan => Raise ValueError
  end.

(** [a / b] on two integers of absolute value at most [2^53] (both are
    converted exactly, then divided in binary64). *)
Definition int_truediv (a b : Z) : result float :=
  if b =? 0 then Raise ZeroDivisionError
  else Return (float_of_int a / float_of_int b)%float.

(** [min(l)] and [max(l)]: the first smallest and the first largest item;
    [ValueError] on an empty list. *)
Definition py_min (l : list float) : result float :=
  match l with
  | [] => Raise ValueError
  | x :: rest =>
      Return (fold_left (fun best y => if (y <? best)%float then y else best) rest x)
  end.

Definition py_max (l : list float) : result float :=
  match l with
  | [] => Raise ValueError
  | x :: rest =>
      Return (fold_left (fun best y => if (best <? y)%float then y else best) rest x)
  end.

(** [sum(l)] on doubles: from 0, left to right, each addition rounded
    (CPython up to 3.11; later versions compensate the rounding errors). *)
Definition py_sum (l : list float) : float := fold_left PrimFloat.add l 0%float.

(** [l[i]]: a negative index counts from the end; out of range raises. *)
Definition py_index (l : list float) (i : Z) : result float :=
  let n := len l in
  if (0 <=? i) && (i <? n) then Return (nth (Z.to_nat i) l 0%float)
  else if (- n <=? i) && (i <? 0) then Return (nth (Z.to_nat (n + i)) l 0%float)
  else Raise IndexError.

(** [l.sort()] on doubles none of which is NaN.  The comparison is then a
    total preorder and the result of the sort, which is stable, is
    determined by the values: items in increasing order, equal items in
    their original order.  With a NaN in the list the order the sort
    leaves depends on how it cuts the list into runs; the embedding gives
    no result for such a list. *)
Fixpoint insert (x : float) (l : list float) : list float :=
  match l with
  | [] => [x]
  | y :: rest => if (y <? x)%float then y :: insert x rest else x :: y :: rest
  end.

Definition list_sort (l : list float) : option (list float) :=
  if existsb is_nan l then None else Some (fold_right insert [] l).

(** *** The results block *)

Definition float_095 : float := 0x1.e666666666666p-1%float.   (* 0.95 *)
Definition float_099 : float := 0x1.fae147ae147aep-1%float.   (* 0.99 *)

(** [int(len(latencies) * p)]. *)
Definition float_index (n : Z) (p : float) : result Z :=
  int_of_float (float_of_int n * p)%float.

Record latency_summary : Type := {
  min_ms : float;
  max_ms : float;
  avg_ms : float;
  median_ms : float;
  p95_ms : float;
  p99_ms : float
}.

(** The dict literal of [results['summary']['latency']] in
    [_save_results] (the same expressions are printed by
    [_display_results]); [latencies] is the list after [latencies.sort()]. *)
Definition latency_statistics (latencies : list float) : result latency_summary :=
  let n := len latencies in
  lo <- py_min latencies ;;
  hi <- py_max latencies ;;
  let avg := (py_sum latencies / float_of_int n)%float in
  median <- py_index latencies (n / 2) ;;
  i95 <- float_index n float_095 ;;
  p95 <- py_index latencies i95 ;;
  i99 <- float_index n float_099 ;;
  p99 <- py_index latencies i99 ;;
  Return {| min_ms := lo; max_ms := hi; avg_ms := avg;
            median_ms := median; p95_ms := p95; p99_ms := p99 |}.

(** What [_save_results] does about latencies; [latencies0] is
    [[m.latency_ms for m in self.metrics]]. *)
Inductive latency_report : Type :=
| NoLatency                                   (* no metric: the key is absent *)
| Latency (r : result latency_summary).

Definition summary_latency (latencies0 : list float) : option latency_report :=
  match latencies0 with
  | [] => Some NoLatency
  | _ =>
      match list_sort latencies0 with
      | Some latencies => Some (Latency (latency_statistics latencies))
      | None => None
      end
  end.

(** A JSON number of the summary: an [int] or a [float]. *)
Inductive number : Type :=
| Int (z : Z)
| Float (f : float).

(** ['packet_loss_pct'] of [_save_results]; the arguments are
    [len(self.sent_packets)] and [len(self.metrics)]. *)
Definition packet_loss_pct (packets_sent packets_received : Z) : result number :=
  if packets_sent =? 0 then Return (Int 0)
  else
    q <- int_truediv (packets_sent - packets_received) (Z.max packets_sent 1) ;;
    Return (Float (q * 100)%float).

(** The loss line of [_display_results], printed only when something was
    sent. *)
Definition display_packet_loss (packets_sent packets_received : Z)
  : option (result float) :=
  if packets_sent >? 0 then
    Some (q <- int_truediv (packets_sent - packets_received) packets_sent ;;
          Return (q * 100)%float)
  else None.

(** Lengths [start], [start + 1], ... *)
Fixpoint lengths_from (start : Z) (count : nat) : list Z :=
  match count with
  | O => []
  | S c => start :: lengths_from (start + 1) c
  end.

Definition index_is (n : Z) (p : float) (i : Z) : bool :=
  match float_index n p with
  | Return j => j =? i
  | Raise _ => false
  end.

Definition index_agrees (n : Z) : bool :=
  index_is n float_095 (95 * n / 100) && index_is n float_099 (99 * n / 100).

(** Doubles in increasing order. *)
Definition fle (x y : float) : Prop := (x <=? y)%float = true.

Definition no_nan (l : list float) : Prop := Forall (fun x => is_nan x = false) l.

(** The same order read on the integer images. *)
Definition by_key (x y : float) : Prop := key x <= key y.

(** *** Sorting *)

Lemma insert_permutation (x : float) (l : list float) :
  Permutation (insert x l) (x :: l).
Proof.
  induction l as [|y l IH]; cbn [insert]; [reflexivity|].
  destruct (y <? x)%float; [|reflexivity].
  rewrite IH. apply perm_swap.
Qed.

Lemma sort_permutation (l : list float) :
  Permutation (fold_right insert [] l) l.
Proof.
  induction l as [|x l IH]; cbn [fold_right]; [reflexivity|].
  rewrite insert_permutation. now constructor.
Qed.

Lemma no_nan_existsb (l : list float) : no_nan l <-> existsb is_nan l = false.
Proof.
  unfold no_nan. induction l as [|x l IH]; cbn [existsb].
  - split; [reflexivity|constructor].
  - rewrite Forall_cons_iff, orb_false_iff, IH. reflexivity.
Qed.

Lemma list_sort_no_nan (l : list float) :
  no_nan l -> list_sort l = Some (fold_right insert [] l).
Proof. intros H. unfold list_sort. apply no_nan_existsb in H. now rewrite H. Qed.

Lemma insert_sorted (x : float) (l : list float) :
  is_nan x = false -> no_nan l ->
  Sorted by_key l -> Sorted by_key (insert x l).
Proof.
  intros Hx Hl Hs. induction l as [|y l IH]; cbn [insert].
  - repeat constructor.
  - apply Forall_cons_iff in Hl. destruct Hl as [Hy Hl].
    rewrite (ltb_key y x Hy Hx).
    destruct (Z.ltb_spec (key y) (key x)) as [Hlt|Hge].
    + apply Sorted_inv in Hs. destruct Hs as [Hs Hhd].
      constructor; [apply IH; assumption|].
      destruct l as [|z l]; cbn [insert].
      * constructor. unfold by_key. lia.
      * destruct (z <? x)%float; constructor; [|unfold by_key; lia].
        apply HdRel_inv in Hhd. exact Hhd.
    + constructor; [exact Hs|]. constructor. unfold by_key. lia.
Qed.

Lemma sort_sorted (l : list float) :
  no_nan l -> Sorted by_key (fold_right insert [] l).
Proof.
  intros Hl. induction l as [|x l IH]; cbn [fold_right]; [constructor|].
  apply Forall_cons_iff in Hl. destruct Hl as [Hx Hl].
  apply insert_sorted; [exact Hx| |apply IH; exact Hl].
  unfold no_nan in *. rewrite Forall_forall in *. intros y Hy.
  apply Hl. apply (Permutation_in _ (sort_permutation l)). exact Hy.
Qed.

Lemma by_key_transitive : Relations_1.Transitive by_key.
Proof. intros x y z. unfold by_key. lia. Qed.

Lemma by_key_fle (x y : float) :
  is_nan x = false -> is_nan y = false -> by_key x y -> fle x y.
Proof.
  intros Hx Hy H. unfold fle. rewrite (leb_key x y Hx Hy). apply Z.leb_le. exact H.
Qed.

(** The sorted copy of a list without NaN: a permutation of it, in
    increasing order. *)
Lemma list_sort_spec (l : list float) :
  no_nan l ->
  exists sorted,
    list_sort l = Some sorted /\
    Permutation sorted l /\
    no_nan sorted /\
    StronglySorted by_key sorted /\
    StronglySorted fle sorted.
Proof.
  intros Hl. exists (fold_right insert [] l).
  assert (Hn : no_nan (fold_right insert [] l)).
  { unfold no_nan in *. rewrite Forall_forall in *. intros y Hy.
    apply Hl. apply (Permutation_in _ (sort_permutation l)). exact Hy. }
  assert (Hs : StronglySorted by_key (fold_right insert [] l)).
  { apply Sorted_StronglySorted; [exact by_key_transitive|apply sort_sorted; exact Hl]. }
  split; [apply list_sort_no_nan; exact Hl|].
  split; [apply sort_permutation|]. split; [exact Hn|]. split; [exact Hs|].
  revert Hn. induction Hs as [|x r Hr IH Hall]; intros Hn; constructor.
  - apply IH. apply Forall_inv_tail in Hn. exact Hn.
  - apply Forall_cons_iff in Hn. destruct Hn as [Hx Hn].
    unfold no_nan in Hn. rewrite Forall_forall in *.
    intros y Hy. apply by_key_fle; auto.
Qed.


(** *** [min] and [max] of a sorted list *)

Lemma min_of_sorted (x : float) (rest : list float) :
  no_nan (x :: rest) -> StronglySorted by_key (x :: rest) ->
  py_min (x :: rest) = Return x.
Proof.
  intros Hn Hs. apply StronglySorted_inv in Hs. destruct Hs as [_ Hall].
  apply Forall_cons_iff in Hn. destruct Hn as [Hx Hn].
  cbn [py_min]. f_equal.
  induction rest as [|y rest IH]; [reflexivity|].
  cbn [fold_left].
  apply Forall_cons_iff in Hn. destruct Hn as [Hy Hn].
  apply Forall_cons_iff in Hall. destruct Hall as [Hxy Hall].
  rewrite (ltb_key y x Hy Hx).
  destruct (Z.ltb_spec (key y) (key x)) as [H|H]; [unfold by_key in Hxy; lia|].
  apply IH; assumption.
Qed.

Lemma max_fold_sorted (rest : list float) :
  forall best x : float,
    no_nan (best :: x :: rest) -> key best = key x ->
    StronglySorted by_key (x :: rest) ->
    let r := fold_left (fun b y => if (b <? y)%float then y else b) rest best in
    key r = key (last (x :: rest) 0%float) /\ In r (best :: rest).
Proof.
  induction rest as [|y rest IH]; intros best x Hn Hk Hs; cbv zeta.
  - cbn [fold_left last]. split; [exact Hk|left; reflexivity].
  - cbn [fold_left].
    change (last (x :: y :: rest) 0%float) with (last (y :: rest) 0%float).
    apply Forall_cons_iff in Hn. destruct Hn as [Hb Hn].
    apply Forall_cons_iff in Hn. destruct Hn as [Hx Hn].
    pose proof Hn as Hn'. apply Forall_cons_iff in Hn'. destruct Hn' as [Hy _].
    apply StronglySorted_inv in Hs. destruct Hs as [Hs Hall].
    apply Forall_inv in Hall. unfold by_key in Hall.
    rewrite (ltb_key best y Hb Hy).
    destruct (Z.ltb_spec (key best) (key y)) as [H|H].
    + destruct (IH y y) as [K I]; trivial; [constructor; assumption|].
      cbv zeta in K, I. split; [exact K|]. right. exact I.
    + destruct (IH best y) as [K I]; trivial; [constructor; assumption|lia|].
      cbv zeta in K, I. split; [exact K|].
      destruct I as [I|I]; [left; exact I|right; right; exact I].
Qed.

Lemma last_in (x : float) (rest : list float) : In (last (x :: rest) 0%float) (x :: rest).
Proof.
  revert x. induction rest as [|y rest IH]; intros x; [left; reflexivity|].
  change (last (x :: y :: rest) 0%float) with (last (y :: rest) 0%float).
  right. apply IH.
Qed.

Lemma max_of_sorted (x : float) (rest : list float) :
  no_nan (x :: rest) -> StronglySorted by_key (x :: rest) ->
  exists m,
    py_max (x :: rest) = Return m /\
    (m =? last (x :: rest) 0)%float = true.
Proof.
  intros Hn Hs. eexists. split; [reflexivity|].
  destruct (max_fold_sorted rest x x) as [K I]; trivial.
  { constructor; [apply Forall_inv in Hn; exact Hn|exact Hn]. }
  cbv zeta in K, I. unfold no_nan in Hn. rewrite Forall_forall in Hn.
  rewrite eqb_key; [apply Z.eqb_eq; exact K| |].
  - apply Hn. exact I.
  - apply Hn. apply last_in.
Qed.

(** *** Lengths as doubles *)

Lemma float_of_int_0 : Prim2SF (float_of_int 0) = S754_zero false.
Proof. reflexivity. Qed.

Lemma float_of_int_pos (n : Z) :
  0 < n < 2 ^ 53 ->
  exists (m : positive) (e : Z),
    Prim2SF (float_of_int n) = S754_finite false m e /\
    Zdigits2 (Z.pos m) = 53 /\ -52 <= e <= 0 /\
    Z.pos m = n * 2 ^ (- e).
Proof.
  intros Hn. unfold float_of_int.
  destruct (Z.ltb_spec n 0); [lia|]. apply of_uint63_exact. exact Hn.
Qed.

Lemma bounded_normal (m : positive) (e : Z) :
  Zdigits2 (Z.pos m) = 53 -> -1074 <= e <= 971 -> bounded prec emax m e = true.
Proof.
  intros Hd He. unfold bounded, canonical_mantissa. rewrite fexp_spec.
  cbn [Zdigits2] in Hd. rewrite Hd.
  apply andb_true_iff. split; [apply Z.eqb_eq; lia|apply Z.leb_le].
  change (emax - prec) with 971. lia.
Qed.

(** *** The percentile indices *)

Lemma index_in_range (l : list float) (i : Z) :
  0 <= i < len l -> py_index l i = Return (nth (Z.to_nat i) l 0%float).
Proof.
  intros H. unfold py_index.
  replace ((0 <=? i) && (i <? len l)) with true; [reflexivity|].
  symmetry. apply andb_true_iff. lia.
Qed.

(** [int(n * c)] is below [n] for a factor [c] in [1/2, 1) and a length
    [n] with [n * c <= n - 1]. *)
Lemma float_index_below (n : Z) (c : float) (mc : positive) :
  Prim2SF c = S754_finite false mc (-53) ->
  2 ^ 52 <= Z.pos mc ->
  2 <= n < 2 ^ 53 ->
  n * Z.pos mc <= (n - 1) * 2 ^ 53 ->
  exists i, float_index n c = Return i /\ 0 <= i < n.
Proof.
  intros Hc Hmc Hn Hle.
  destruct (float_of_int_pos n ltac:(lia)) as (mn & en & Hfn & Dn & Hen & Vn).
  destruct (float_of_int_pos (n - 1) ltac:(lia)) as (mB & eB & _ & DB & HeB & VB).
  assert (Hat : at_most mB eB (Prim2SF (float_of_int n * c))).
  { apply (mul_at_most _ _ mn mc mB en (-53) eB); trivial.
    - nia.
    - apply bounded_normal; [exact DB|lia].
    - lia.
    - rewrite Vn, VB.
      replace (eB - (en + -53)) with (- en + 53 + eB) by lia.
      assert (P1 : 0 < 2 ^ (- en)) by (apply Z.pow_pos_nonneg; lia).
      assert (E : 2 ^ (- eB) * 2 ^ (- en + 53 + eB) = 2 ^ (- en) * 2 ^ 53).
      { rewrite <- !Z.pow_add_r by lia. f_equal. lia. }
      replace ((n - 1) * 2 ^ (- eB) * 2 ^ (- en + 53 + eB))
        with ((n - 1) * (2 ^ (- eB) * 2 ^ (- en + 53 + eB))) by ring.
      rewrite E. nia. }
  unfold float_index, int_of_float.
  destruct (Prim2SF (float_of_int n * c)) as [s|s| |s m e]; cbn [at_most] in Hat;
    try contradiction.
  - exists 0. split; [reflexivity|lia].
  - destruct Hat as (-> & He & Hm). rewrite VB in Hm.
    eexists. split; [reflexivity|]. cbv zeta.
    destruct (Z.leb_spec 0 e) as [H0|H0].
    + assert (e = 0) by lia. assert (eB = 0) by lia. subst e eB.
      cbn in Hm |- *. lia.
    + assert (P : 0 < 2 ^ (- e)) by (apply Z.pow_pos_nonneg; lia).
      assert (E : 2 ^ (- eB) * 2 ^ (eB - e) = 2 ^ (- e)).
      { rewrite <- Z.pow_add_r by lia. f_equal. lia. }
      replace ((n - 1) * 2 ^ (- eB) * 2 ^ (eB - e))
        with ((n - 1) * (2 ^ (- eB) * 2 ^ (eB - e))) in Hm by ring.
      rewrite E in Hm. split; [apply Z.div_pos; lia|].
      apply Z.div_lt_upper_bound; [exact P|]. nia.
Qed.

Lemma lengths_from_In (count : nat) :
  forall start n : Z,
    start <= n < start + Z.of_nat count -> In n (lengths_from start count).
Proof.
  induction count as [|count IH]; intros start n H; [lia|].
  cbn [lengths_from In].
  destruct (Z.eq_dec start n) as [E|E]; [left; exact E|right].
  apply IH. lia.
Qed.

(** The indices computed in binary64 are [floor(95 * len / 100)] and
    [floor(99 * len / 100)], for every length up to 100000. *)
Lemma float_index_agrees (n : Z) :
  0 <= n <= 100000 ->
  float_index n float_095 = Return (95 * n / 100) /\
  float_index n float_099 = Return (99 * n / 100).
Proof.
  intros H.
  assert (Hall : forallb index_agrees (lengths_from 0 (Z.to_nat 100001)) = true)
    by (vm_cast_no_check (eq_refl true)).
  rewrite forallb_forall in Hall.
  assert (Hin : In n (lengths_from 0 (Z.to_nat 100001))) by (apply lengths_from_In; lia).
  specialize (Hall n Hin).
  unfold index_agrees, index_is in Hall. apply andb_true_iff in Hall.
  destruct Hall as [H95 H99].
  destruct (float_index n float_095) as [i|]; [|discriminate].
  destruct (float_index n float_099) as [j|]; [|discriminate].
  apply Z.eqb_eq in H95, H99. subst. split; reflexivity.
Qed.

Lemma float_index_range (n : Z) :
  0 < n < 2 ^ 53 ->
  exists i95 i99,
    float_index n float_095 = Return i95 /\
    float_index n float_099 = Return i99 /\
    0 <= i95 < n /\ 0 <= i99 < n /\
    (n <= 100000 -> i95 = 95 * n / 100 /\ i99 = 99 * n / 100).
Proof.
  intros Hn. destruct (Z.le_gt_cases n 100000) as [Hs|Hb].
  - destruct (float_index_agrees n ltac:(lia)) as [H95 H99].
    exists (95 * n / 100), (99 * n / 100). rewrite H95, H99.
    repeat split; try reflexivity.
    + apply Z.div_pos; lia.
    + apply Z.div_lt_upper_bound; lia.
    + apply Z.div_pos; lia.
    + apply Z.div_lt_upper_bound; lia.
  - destruct (float_index_below n float_095 8556839292003942) as (i95 & H95 & B95);
      try reflexivity; try lia.
    destruct (float_index_below n float_099 8917127262193582) as (i99 & H99 & B99);
      try reflexivity; try lia.
    exists i95, i99. repeat split; trivial; lia.
Qed.


(** *** The loss percentage *)

Lemma at_most_nonneg (mB : positive) (eB : Z) (x : spec_float) :
  at_most mB eB x -> SFleb (S754_zero false) x = true.
Proof.
  destruct x as [s|s| |s m e]; cbn [at_most]; try contradiction.
  - intros ->. reflexivity.
  - intros (-> & _). reflexivity.
Qed.

(** A share [a / b] of a positive count is at most 1. *)
Lemma share_at_most_one (a b : Z) :
  0 <= a <= b -> 0 < b < 2 ^ 53 ->
  at_most 4503599627370496 (-52) (Prim2SF (float_of_int a / float_of_int b)).
Proof.
  intros Ha Hb.
  destruct (float_of_int_pos b Hb) as (mb & eb & Hfb & Db & Heb & Vb).
  destruct (Z.eq_dec a 0) as [->|Hnz].
  - rewrite FloatAxioms.div_spec, float_of_int_0, Hfb. reflexivity.
  - destruct (float_of_int_pos a ltac:(lia)) as (ma & ea & Hfa & Da & Hea & Va).
    destruct (digits_bounds (Z.pos ma) ltac:(lia)) as [_ [A1 A2]].
    destruct (digits_bounds (Z.pos mb) ltac:(lia)) as [_ [B1 B2]].
    rewrite Da in A1, A2. rewrite Db in B1, B2. change (53 - 1) with 52 in *.
    assert (Pa : 0 < 2 ^ (- ea)) by (apply Z.pow_pos_nonneg; lia).
    assert (Pb : 0 < 2 ^ (- eb)) by (apply Z.pow_pos_nonneg; lia).
    assert (Hexp : ea <= eb).
    { destruct (Z.le_gt_cases ea eb) as [H|H]; [exact H|exfalso].
      assert (E : 2 ^ (- eb) = 2 ^ (- ea) * 2 ^ (ea - eb)).
      { rewrite <- Z.pow_add_r by lia. f_equal. lia. }
      assert (P : 2 <= 2 ^ (ea - eb)).
      { change 2 with (2 ^ 1) at 1. apply Z.pow_le_mono_r; lia. }
      rewrite Va in A1. rewrite Vb, E in B2.
      assert (b * 2 ^ (- ea) * 2 <= b * 2 ^ (- ea) * 2 ^ (ea - eb)) by nia.
      assert (a * 2 ^ (- ea) <= b * 2 ^ (- ea)) by nia.
      change (2 ^ 53) with (2 ^ 52 * 2) in B2. nia. }
    apply (div_at_most _ _ ma mb _ ea eb); trivial; try lia.
    replace (-52 - (ea - eb - 53)) with (1 + (eb - ea)) by lia.
    rewrite Va, Vb.
    assert (E : 2 ^ (- ea) = 2 ^ (- eb) * 2 ^ (eb - ea)).
    { rewrite <- Z.pow_add_r by lia. f_equal. lia. }
    rewrite E, (Z.pow_add_r 2 1 (eb - ea)) by lia.
    change (2 ^ 1) with 2. change (Z.pos 4503599627370496) with (2 ^ 52).
    change (2 ^ 53) with (2 ^ 52 * 2).
    assert (P : 0 < 2 ^ (eb - ea)) by (apply Z.pow_pos_nonneg; lia).
    assert (H : a * (2 ^ (- eb) * 2 ^ (eb - ea)) <= b * (2 ^ (- eb) * 2 ^ (eb - ea))) by nia.
    nia.
Qed.

(** A percentage of at most 1: between 0 and 100. *)
Lemma percent_bounds (q : float) :
  at_most 4503599627370496 (-52) (Prim2SF q) ->
  (0 <=? q * 100)%float = true /\ (q * 100 <=? 100)%float = true.
Proof.
  intros Hq.
  assert (Hat : at_most 7036874417766400 (-46) (Prim2SF (q * 100))).
  { destruct (Prim2SF q) as [s|s| |s m e] eqn:Eq; cbn [at_most] in Hq; try contradiction.
    - subst s. rewrite FloatAxioms.mul_spec, Eq. reflexivity.
    - destruct Hq as (-> & He & Hm).
      apply (mul_at_most _ _ m 7036874417766400 _ e (-46)); trivial; try reflexivity; try lia.
      replace (-46 - (e + -46)) with (- e) by lia.
      replace (-52 - e) with (Z.succ (- e - 53)) in Hm by lia.
      assert (P : 0 < 2 ^ (- e)) by (apply Z.pow_pos_nonneg; lia).
      assert (E : Z.pos 4503599627370496 * 2 ^ (-52 - e) = 2 ^ (- e)).
      { change (Z.pos 4503599627370496) with (2 ^ 52).
        rewrite <- Z.pow_add_r by lia. f_equal. lia. }
      replace (Z.succ (- e - 53)) with (-52 - e) in Hm by lia.
      rewrite E in Hm. nia. }
  rewrite !FloatAxioms.leb_spec.
  change (Prim2SF 0) with (S754_zero false).
  change (Prim2SF 100) with (S754_finite false 7036874417766400 (-46)).
  split; [eapply at_most_nonneg|apply at_most_leb]; exact Hat.
Qed.

(** *** Claims on the results block *)

(** The summary of a list without NaN, field by field. *)
Lemma statistics_fields (latencies : list float) :
  latencies <> [] ->
  no_nan latencies ->
  len latencies < 2 ^ 53 ->
  exists (sorted : list float) (s : latency_summary) (i95 i99 : Z),
    list_sort latencies = Some sorted /\
    summary_latency latencies = Some (Latency (Return s)) /\
    let n := length latencies in
    Permutation latencies sorted /\
    no_nan sorted /\
    StronglySorted by_key sorted /\
    StronglySorted fle sorted /\
    min_ms s = hd 0%float sorted /\
    (max_ms s =? last sorted 0)%float = true /\
    avg_ms s = (py_sum sorted / float_of_int (Z.of_nat n))%float /\
    median_ms s = nth (n / 2) sorted 0%float /\
    float_index (Z.of_nat n) float_095 = Return i95 /\
    float_index (Z.of_nat n) float_099 = Return i99 /\
    0 <= i95 < Z.of_nat n /\ 0 <= i99 < Z.of_nat n /\
    p95_ms s = nth (Z.to_nat i95) sorted 0%float /\
    p99_ms s = nth (Z.to_nat i99) sorted 0%float /\
    (Z.of_nat n <= 100000 ->
     i95 = 95 * Z.of_nat n / 100 /\ i99 = 99 * Z.of_nat n / 100).
Proof.
  intros Hne Hnan Hlen.
  assert (Hn : (0 < length latencies)%nat).
  { destruct latencies; [contradiction|simpl; lia]. }
  destruct (list_sort_spec latencies Hnan) as (sorted & Hsort & Hperm & Hnn & Hkey & Hfle).
  assert (Hl : len sorted = Z.of_nat (length latencies)).
  { unfold len. f_equal. apply Permutation_length. exact Hperm. }
  destruct (float_index_range (Z.of_nat (length latencies)))
    as (i95 & i99 & H95 & H99 & B95 & B99 & Hsmall); [unfold len in Hlen; lia|].
  unfold summary_latency. rewrite Hsort.
  destruct latencies as [|x0 l0] eqn:El; [contradiction|]. rewrite <- El in *.
  unfold latency_statistics.
  destruct sorted as [|x rest] eqn:Es; [unfold len in Hl; simpl in Hl; lia|].
  rewrite <- Es in *.
  assert (Hmin : py_min sorted = Return x) by (rewrite Es; apply min_of_sorted; rewrite <- Es; assumption).
  destruct (max_of_sorted x rest) as (m & Hmax & Hm); try (rewrite <- Es; assumption).
  rewrite <- Es in Hmax, Hm.
  rewrite Hmin, Hmax. cbn [bind]. rewrite Hl, H95, H99. cbn [bind].
  assert (Bmed : 0 <= Z.of_nat (length latencies) / 2 < Z.of_nat (length latencies)).
  { split; [apply Z.div_pos; lia|apply Z.div_lt_upper_bound; lia]. }
  rewrite !index_in_range by (rewrite Hl; assumption).
  cbn [bind].
  exists sorted, {| min_ms := x; max_ms := m;
                    avg_ms := (py_sum sorted / float_of_int (Z.of_nat (length latencies)))%float;
                    median_ms := nth (Z.to_nat (Z.of_nat (length latencies) / 2)) sorted 0%float;
                    p95_ms := nth (Z.to_nat i95) sorted 0%float;
                    p99_ms := nth (Z.to_nat i99) sorted 0%float |}, i95, i99.
  split; [reflexivity|]. split; [reflexivity|].
  cbn [min_ms max_ms avg_ms median_ms p95_ms p99_ms]. cbv zeta.
  assert (Emed : Z.to_nat (Z.of_nat (length latencies) / 2) = (length latencies / 2)%nat).
  { rewrite <- (Nat2Z.id (length latencies / 2)). f_equal.
    rewrite Nat2Z.inj_div. reflexivity. }
  rewrite Emed.
  split; [symmetry; exact Hperm|]. split; [exact Hnn|]. split; [exact Hkey|].
  split; [exact Hfle|].
  split; [rewrite Es; reflexivity|]. split; [exact Hm|].
  split; [reflexivity|]. split; [reflexivity|].
  split; [reflexivity|]. split; [reflexivity|].
  split; [exact B95|]. split; [exact B99|].
  split; [reflexivity|]. split; [reflexivity|].
  exact Hsmall.
Qed.

(** C2, as the code has it.  For every non-empty list of latencies none
    of which is NaN, the statistics are computed over the value-sorted
    copy: min is its first element, max equals its last, the mean is the
    binary64 sum of the sorted latencies divided by their number, the
    median is the element at index [len // 2] (the middle one for an odd
    length [2k+1]; for an even length [2k] the element at index [k], the
    upper of the two middles, with no interpolation), and p95/p99 are the
    elements at index [int(len * 0.95)] and [int(len * 0.99)], both within
    the list; up to 100000 latencies these indices are floor(95*len/100)
    and floor(99*len/100). *)
Theorem latency_statistics_by_rank (latencies : list float) :
  latencies <> [] ->
  no_nan latencies ->
  len latencies < 2 ^ 53 ->
  exists (sorted : list float) (s : latency_summary) (i95 i99 : Z),
    list_sort latencies = Some sorted /\
    summary_latency latencies = Some (Latency (Return s)) /\
    let n := length latencies in
    Permutation latencies sorted /\
    StronglySorted fle sorted /\
    min_ms s = hd 0%float sorted /\
    (max_ms s =? last sorted 0)%float = true /\
    avg_ms s = (py_sum sorted / float_of_int (Z.of_nat n))%float /\
    median_ms s = nth (n / 2) sorted 0%float /\
    (forall k, n = (2 * k + 1)%nat -> median_ms s = nth k sorted 0%float) /\
    (forall k, n = (2 * k)%nat -> median_ms s = nth k sorted 0%float) /\
    float_index (Z.of_nat n) float_095 = Return i95 /\
    float_index (Z.of_nat n) float_099 = Return i99 /\
    0 <= i95 < Z.of_nat n /\ 0 <= i99 < Z.of_nat n /\
    p95_ms s = nth (Z.to_nat i95) sorted 0%float /\
    p99_ms s = nth (Z.to_nat i99) sorted 0%float /\
    (Z.of_nat n <= 100000 ->
     i95 = 95 * Z.of_nat n / 100 /\ i99 = 99 * Z.of_nat n / 100).
Proof.
  intros Hne Hnan Hlen.
  destruct (statistics_fields latencies Hne Hnan Hlen)
    as (sorted & s & i95 & i99 & H1 & H2 & H3). cbv zeta in H3.
  destruct H3 as (Hperm & _ & _ & Hfle & Hmin & Hmax & Havg & Hmed & H95 & H99 &
                  B95 & B99 & P95 & P99 & Hsmall).
  exists sorted, s, i95, i99. cbv zeta.
  repeat (split; [assumption|]).
  split.
  { intros k Hk. rewrite Hmed. f_equal. rewrite Hk.
    replace (2 * k + 1)%nat with (1 + k * 2)%nat by lia.
    rewrite Nat.div_add by lia. reflexivity. }
  split.
  { intros k Hk. rewrite Hmed. f_equal. rewrite Hk.
    replace (2 * k)%nat with (k * 2)%nat by lia. apply Nat.div_mul. lia. }
  repeat (split; [assumption|]). exact Hsmall.
Qed.

Lemma latency_statistics_by_rank_witness :
  exists (sorted : list float) (s : latency_summary) (i95 i99 : Z),
    list_sort [5; 1; 3; 2; 4]%float = Some sorted /\
    summary_latency [5; 1; 3; 2; 4]%float = Some (Latency (Return s)) /\
    let n := length [5; 1; 3; 2; 4]%float in
    Permutation [5; 1; 3; 2; 4]%float sorted /\
    StronglySorted fle sorted /\
    min_ms s = hd 0%float sorted /\
    (max_ms s =? last sorted 0)%float = true /\
    avg_ms s = (py_sum sorted / float_of_int (Z.of_nat n))%float /\
    median_ms s = nth (n / 2) sorted 0%float /\
    (forall k, n = (2 * k + 1)%nat -> median_ms s = nth k sorted 0%float) /\
    (forall k, n = (2 * k)%nat -> median_ms s = nth k sorted 0%float) /\
    float_index (Z.of_nat n) float_095 = Return i95 /\
    float_index (Z.of_nat n) float_099 = Return i99 /\
    0 <= i95 < Z.of_nat n /\ 0 <= i99 < Z.of_nat n /\
    p95_ms s = nth (Z.to_nat i95) sorted 0%float /\
    p99_ms s = nth (Z.to_nat i99) sorted 0%float /\
    (Z.of_nat n <= 100000 ->
     i95 = 95 * Z.of_nat n / 100 /\ i99 = 99 * Z.of_nat n / 100).
Proof.
  apply (latency_statistics_by_rank [5; 1; 3; 2; 4]%float).
  - discriminate.
  - repeat constructor.
  - vm_compute. reflexivity.
Defined.

(** C2, counterexample to the claim as stated: for the four latencies
    4, 1, 3, 2 the two middles of the sorted copy are 2 and 3; the median
    reported is 3, not the lower one. *)
Lemma median_of_four_is_upper_middle :
  list_sort [4; 1; 3; 2]%float = Some [1; 2; 3; 4]%float /\
  summary_latency [4; 1; 3; 2]%float =
    Some (Latency (Return {| min_ms := 1; max_ms := 4; avg_ms := 2.5;
                             median_ms := 3; p95_ms := 4; p99_ms := 4 |})) /\
  nth 1 [1; 2; 3; 4]%float 0%float = 2%float /\
  (3 =? 2)%float = false.
Proof. repeat split; vm_compute; reflexivity. Qed.

(** The example of the specification: latencies 1..5 give median 3 and
    p95 at index 4, the value 5. *)
Lemma spec_example_five :
  summary_latency [1; 2; 3; 4; 5]%float =
    Some (Latency (Return {| min_ms := 1; max_ms := 5; avg_ms := 3;
                             median_ms := 3; p95_ms := 5; p99_ms := 5 |})).
Proof. vm_compute. reflexivity. Qed.


(** C3.  With [sent] frames sent and [received] of them received
    ([received <= sent]), the persisted loss percentage is
    [(sent - received) / max(sent, 1) * 100], computed in binary64; it
    lies in [0, 100]; it is 0 when nothing was sent; and when something
    was sent it is [(sent - received) / sent * 100], which is also the
    figure displayed. *)
Theorem packet_loss_pct_spec (sent received : Z) :
  0 <= received <= sent ->
  sent < 2 ^ 53 ->
  (sent = 0 -> packet_loss_pct sent received = Return (Int 0)) /\
  (0 < sent ->
   exists f : float,
     packet_loss_pct sent received = Return (Float f) /\
     f = (float_of_int (sent - received) / float_of_int (Z.max sent 1) * 100)%float /\
     f = (float_of_int (sent - received) / float_of_int sent * 100)%float /\
     (0 <=? f)%float = true /\ (f <=? 100)%float = true /\
     display_packet_loss sent received = Some (Return f)).
Proof.
  intros H Hbig. unfold packet_loss_pct, display_packet_loss, int_truediv. split.
  - intros ->. reflexivity.
  - intros Hs. rewrite Z.max_l by lia.
    destruct (Z.eqb_spec sent 0); [lia|].
    destruct (Z.gtb_spec sent 0); [|lia].
    cbn [bind]. eexists. split; [reflexivity|].
    split; [reflexivity|]. split; [reflexivity|].
    destruct (percent_bounds (float_of_int (sent - received) / float_of_int sent))
      as [Hlo Hhi]; [apply share_at_most_one; lia|].
    split; [exact Hlo|]. split; [exact Hhi|reflexivity].
Qed.

Lemma packet_loss_pct_spec_witness :
  (10 = 0 -> packet_loss_pct 10 7 = Return (Int 0)) /\
  (0 < 10 ->
   exists f : float,
     packet_loss_pct 10 7 = Return (Float f) /\
     f = (float_of_int (10 - 7) / float_of_int (Z.max 10 1) * 100)%float /\
     f = (float_of_int (10 - 7) / float_of_int 10 * 100)%float /\
     (0 <=? f)%float = true /\ (f <=? 100)%float = true /\
     display_packet_loss 10 7 = Some (Return f)).
Proof. apply (packet_loss_pct_spec 10 7); [lia|vm_compute; reflexivity]. Defined.

End Aggregator.


(* ================================================================== *)
(** ** Sender loop                                                 *)
(* ================================================================== *)

Module Sender.

Import Codec.

(** [time.sleep(secs)] as CPython has it: NaN is refused, a duration whose
    nanoseconds do not fit 64 bits overflows, a negative one is refused. *)
Definition time_sleep (secs : float) : result unit :=
  if negb (secs =? secs)%float then Raise ValueError
  else
    let ns := (secs * 0x1.dcd65p+29)%float in
    if (ns <? - 0x1p+63)%float || (0x1p+63 <? ns)%float then Raise OverflowError
    else if (secs <? 0)%float then Raise ValueError
    else Return tt.

(** [self.sent_packets]: a dict from message id to send time, in insertion
    order. *)
Definition dict := list (Z * float).

Fixpoint dict_set (d : dict) (k : Z) (v : float) : dict :=
  match d with
  | [] => [(k, v)]
  | (k', v') :: rest =>
      if k' =? k then (k, v) :: rest else (k', v') :: dict_set rest k v
  end.

Fixpoint dict_get (d : dict) (k : Z) : option float :=
  match d with
  | [] => None
  | (k', v') :: rest => if k' =? k then Some v' else dict_get rest k
  end.

Record sender_state : Type := {
  cur_msg_id : Z;              (* msg_id *)
  packets_sent : Z;
  sent_packets : dict;
  wire : list bytes            (* the packets the socket took, in order *)
}.

Inductive sender_stop : Type :=
| Finished                     (* msg_id > max_packets *)
| SenderCancelled              (* self.running is False at the loop head *)
| SenderError (e : exn).       (* except Exception: break *)

Inductive sender_flow : Type :=
| Next
| Stop (r : sender_stop).

(** One pass through the body of the [while].  [clock id] is what
    [time.time()] returns in [_create_packet(id)]; [link id] is what
    [sendall]/[sendto] does with the packet of that id. *)
Definition sender_iteration (cfg : BenchmarkConfig) (clock : Z -> float)
  (link : Z -> result unit) (st : sender_state) : sender_flow * sender_state :=
  let id := cur_msg_id st in
  match _create_packet cfg (clock id) id with
  | Raise e => (Stop (SenderError e), st)
  | Return (packet, send_time) =>
      match link id with
      | Raise e => (Stop (SenderError e), st)
      | Return _ =>
          let st1 :=
            {| cur_msg_id := id;
               packets_sent := packets_sent st + 1;
               sent_packets := dict_set (sent_packets st) id send_time;
               wire := wire st ++ [packet] |} in
          if print_logs cfg && (log_frequency cfg =? 0)
          then (Stop (SenderError ZeroDivisionError), st1)      (* msg_id % 0 *)
          else
            let st2 :=
              {| cur_msg_id := id + 1;
                 packets_sent := packets_sent st1;
                 sent_packets := sent_packets st1;
                 wire := wire st1 |} in
            match time_sleep (send_delay cfg) with
            | Raise e => (Stop (SenderError e), st2)
            | Return _ => (Next, st2)
            end
      end
  end.

(** The loop; [running] is the number of times the loop head finds
    [self.running] true. *)
Fixpoint sender_loop (running : nat) (cfg : BenchmarkConfig)
  (clock : Z -> float) (link : Z -> result unit) (st : sender_state)
  : sender_stop * sender_state :=
  match running with
  | O => (SenderCancelled, st)
  | S running' =>
      if cur_msg_id st <=? max_packets cfg then
        match sender_iteration cfg clock link st with
        | (Next, st') => sender_loop running' cfg clock link st'
        | (Stop r, st') => (r, st')
        end
      else (Finished, st)
  end.

Definition sender_start : sender_state :=
  {| cur_msg_id := 1; packets_sent := 0; sent_packets := []; wire := [] |}.

Definition _sender_loop (running : nat) (cfg : BenchmarkConfig)
  (clock : Z -> float) (link : Z -> result unit) : sender_stop * sender_state :=
  sender_loop running cfg clock link sender_start.

(** The packet [_create_packet] builds for an id at a time. *)
Definition frame_of (cfg : BenchmarkConfig) (t : float) (id : Z) : bytes :=
  match _create_packet cfg t id with
  | Return (packet, _) => packet
  | Raise _ => []
  end.

(** Ids [a], [a+1], ..., [a+m-1]. *)
Fixpoint ids_from (a : Z) (m : nat) : list Z :=
  match m with
  | O => []
  | S m' => a :: ids_from (a + 1) m'
  end.

Definition link_up : Z -> result unit := fun _ => Return tt.
(** A clock that reads [id] seconds when packet [id] is created. *)
Definition tick (id : Z) : float := PrimFloat.of_uint63 (Uint63.of_Z id).

(** The state at the loop head when the next id is [a]: ids 1 .. a-1 have
    been sent and recorded. *)
Definition sent_up_to (cfg : BenchmarkConfig) (clock : Z -> float) (n : nat)
  (next : Z) : sender_state :=
  {| cur_msg_id := next;
     packets_sent := Z.of_nat n;
     sent_packets := map (fun k => (k, clock k)) (ids_from 1 n);
     wire := map (fun k => frame_of cfg (clock k) k) (ids_from 1 n) |}.

(** The cadence test and the pause of an iteration go through. *)
Definition paces (cfg : BenchmarkConfig) : Prop :=
  print_logs cfg && (log_frequency cfg =? 0) = false /\
  time_sleep (send_delay cfg) = Return tt.

Definition many_packets_config : BenchmarkConfig := {|
  mode := mode default_config;
  host := host default_config;
  port := port default_config;
  payload_size := payload_size default_config;
  max_packets := 2 ^ 32;
  send_delay := 0%float;
  timeout := timeout default_config;
  is_sender := true;
  is_receiver := false;
  print_logs := false;
  log_frequency := log_frequency default_config;
  save_results := save_results default_config;
  results_file := results_file default_config
|}.

Definition zero_cadence_config : BenchmarkConfig := {|
  mode := mode default_config;
  host := host default_config;
  port := port default_config;
  payload_size := payload_size default_config;
  max_packets := max_packets default_config;
  send_delay := send_delay default_config;
  timeout := timeout default_config;
  is_sender := is_sender default_config;
  is_receiver := is_receiver default_config;
  print_logs := true;
  log_frequency := 0;
  save_results := save_results default_config;
  results_file := results_file default_config
|}.

Definition negative_delay_config : BenchmarkConfig := {|
  mode := mode default_config;
  host := host default_config;
  port := port default_config;
  payload_size := payload_size default_config;
  max_packets := max_packets default_config;
  send_delay := (-1)%float;
  timeout := timeout default_config;
  is_sender := is_sender default_config;
  is_receiver := is_receiver default_config;
  print_logs := print_logs default_config;
  log_frequency := log_frequency default_config;
  save_results := save_results default_config;
  results_file := results_file default_config
|}.

(** Every packet in the state was built by [_create_packet] without error. *)
Definition all_created (cfg : BenchmarkConfig) (clock : Z -> float) (n : nat) : Prop :=
  forall k, In k (ids_from 1 n) ->
    _create_packet cfg (clock k) k = Return (frame_of cfg (clock k) k, clock k).

Lemma ids_from_snoc (m : nat) :
  forall a : Z, ids_from a (S m) = ids_from a m ++ [a + Z.of_nat m].
Proof.
  induction m as [|m IH]; intros a.
  - cbn [ids_from app Z.of_nat]. now rewrite Z.add_0_r.
  - change (ids_from a (S (S m))) with (a :: ids_from (a + 1) (S m)).
    rewrite IH. cbn [ids_from app]. do 3 f_equal. lia.
Qed.

Lemma ids_from_bounds (m : nat) :
  forall a k : Z, In k (ids_from a m) <-> a <= k < a + Z.of_nat m.
Proof.
  induction m as [|m IH]; intros a k.
  - cbn [ids_from In]. lia.
  - cbn [ids_from In]. rewrite IH. lia.
Qed.

Lemma ids_from_length (m : nat) (a : Z) : length (ids_from a m) = m.
Proof. revert a. induction m as [|m IH]; intros a; simpl; [reflexivity|now rewrite IH]. Qed.

Lemma dict_set_fresh (d : dict) (k : Z) (v : float) :
  (forall k' v', In (k', v') d -> k' <> k) -> dict_set d k v = d ++ [(k, v)].
Proof.
  induction d as [|[k' v'] d IH]; intros Hfresh; [reflexivity|].
  cbn [dict_set app].
  destruct (Z.eqb_spec k' k) as [E|E].
  - exfalso. apply (Hfresh k' v'); [left; reflexivity|exact E].
  - f_equal. apply IH. intros k2 v2 Hin. apply (Hfresh k2 v2). right. exact Hin.
Qed.

Lemma create_packet_shape (cfg : BenchmarkConfig) (t t' : float) (id : Z) (p : bytes) :
  _create_packet cfg t id = Return (p, t') -> t' = t /\ p = frame_of cfg t id.
Proof.
  intros H. unfold frame_of. rewrite H. split; [|reflexivity].
  unfold _create_packet in H.
  destruct (bytes_repeat "a"%byte (payload_size cfg)) as [payload|]; [|discriminate].
  cbn [bind] in H.
  destruct (struct_pack_Idi id t (len payload)) as [h|]; [|discriminate].
  cbn [bind] in H. congruence.
Qed.

Lemma record_next (clock : Z -> float) (n : nat) :
  dict_set (map (fun k => (k, clock k)) (ids_from 1 n)) (1 + Z.of_nat n)
    (clock (1 + Z.of_nat n)) =
  map (fun k => (k, clock k)) (ids_from 1 (S n)).
Proof.
  rewrite dict_set_fresh.
  - rewrite ids_from_snoc, map_app. reflexivity.
  - intros k' v' Hin. apply in_map_iff in Hin. destruct Hin as (k & [= <- _] & Hk).
    apply ids_from_bounds in Hk. lia.
Qed.

(** What one iteration does at the loop head, case by case. *)
Lemma iteration_cases (cfg : BenchmarkConfig) (clock : Z -> float)
  (link : Z -> result unit) (n : nat) :
  let id := 1 + Z.of_nat n in
  let st := sent_up_to cfg clock n id in
  match _create_packet cfg (clock id) id with
  | Raise e => sender_iteration cfg clock link st = (Stop (SenderError e), st)
  | Return _ =>
      match link id with
      | Raise e => sender_iteration cfg clock link st = (Stop (SenderError e), st)
      | Return _ =>
          if print_logs cfg && (log_frequency cfg =? 0) then
            sender_iteration cfg clock link st =
              (Stop (SenderError ZeroDivisionError), sent_up_to cfg clock (S n) id)
          else
            match time_sleep (send_delay cfg) with
            | Raise e =>
                sender_iteration cfg clock link st =
                  (Stop (SenderError e), sent_up_to cfg clock (S n) (id + 1))
            | Return _ =>
                sender_iteration cfg clock link st =
                  (Next, sent_up_to cfg clock (S n) (id + 1))
            end
      end
  end.
Proof.
  intros id st. unfold sender_iteration. cbn [cur_msg_id st sent_up_to].
  fold id.
  destruct (_create_packet cfg (clock id) id) as [[p t]|e] eqn:Hc; [|reflexivity].
  destruct (create_packet_shape _ _ _ _ _ Hc) as [-> ->].
  destruct (link id) as [u|e]; [|reflexivity].
  assert (Hst : {| cur_msg_id := id;
                   packets_sent := packets_sent st + 1;
                   sent_packets := dict_set (sent_packets st) id (clock id);
                   wire := wire st ++ [frame_of cfg (clock id) id] |} =
                sent_up_to cfg clock (S n) id).
  { unfold st, sent_up_to. cbn [packets_sent sent_packets wire].
    unfold id at 3 4. rewrite record_next.
    rewrite (ids_from_snoc n 1), !map_app. cbn [map]. fold id.
    f_equal. lia. }
  cbn [packets_sent sent_packets wire] in *.
  destruct (print_logs cfg && (log_frequency cfg =? 0)).
  - now rewrite Hst.
  - apply (f_equal packets_sent) in Hst as Hps.
    apply (f_equal sent_packets) in Hst as Hsp.
    apply (f_equal wire) in Hst as Hw.
    cbn [packets_sent sent_packets wire sent_up_to] in Hps, Hsp, Hw.
    destruct (time_sleep (send_delay cfg)); unfold sent_up_to;
      rewrite Hps, Hsp, Hw; reflexivity.
Qed.

Lemma create_packet_ok (cfg : BenchmarkConfig) (t : float) (id : Z) :
  0 <= id < 2 ^ 32 -> payload_size cfg < 2 ^ 31 ->
  exists p, _create_packet cfg t id = Return (p, t).
Proof.
  intros Hid Hsz.
  destruct (create_packet_in_range cfg t id Hid Hsz) as (h & _ & _ & Hc).
  eexists. exact Hc.
Qed.

Lemma iteration_next (cfg : BenchmarkConfig) (clock : Z -> float)
  (link : Z -> result unit) (n : nat) :
  paces cfg -> payload_size cfg < 2 ^ 31 ->
  1 + Z.of_nat n < 2 ^ 32 ->
  link (1 + Z.of_nat n) = Return tt ->
  sender_iteration cfg clock link (sent_up_to cfg clock n (1 + Z.of_nat n)) =
    (Next, sent_up_to cfg clock (S n) (1 + Z.of_nat n + 1)).
Proof.
  intros [Hlog Hsleep] Hsz Hid Hlink.
  pose proof (iteration_cases cfg clock link n) as H. cbv zeta in H.
  destruct (create_packet_ok cfg (clock (1 + Z.of_nat n)) (1 + Z.of_nat n)) as (p & Hc);
    [lia|exact Hsz|].
  rewrite Hc, Hlink, Hlog, Hsleep in H. exact H.
Qed.

(** [m] iterations in a row that all go through. *)
Lemma loop_advances (cfg : BenchmarkConfig) (clock : Z -> float)
  (link : Z -> result unit) (m : nat) :
  forall (n running : nat),
    paces cfg -> payload_size cfg < 2 ^ 31 ->
    Z.of_nat (n + m) <= max_packets cfg ->
    Z.of_nat (n + m) < 2 ^ 32 ->
    (forall k, Z.of_nat n < k <= Z.of_nat (n + m) -> link k = Return tt) ->
    sender_loop (m + running) cfg clock link (sent_up_to cfg clock n (1 + Z.of_nat n)) =
    sender_loop running cfg clock link
      (sent_up_to cfg clock (n + m) (1 + Z.of_nat (n + m))).
Proof.
  induction m as [|m IH]; intros n running Hp Hsz Hmax Hid Hlink.
  - rewrite Nat.add_0_r. reflexivity.
  - cbn [Nat.add sender_loop]. cbn [cur_msg_id sent_up_to].
    destruct (Z.leb_spec (1 + Z.of_nat n) (max_packets cfg)); [|lia].
    rewrite iteration_next; trivial; try lia.
    + replace (1 + Z.of_nat n + 1) with (1 + Z.of_nat (S n)) by lia.
      rewrite (IH (S n) running); trivial; try lia.
      * replace (S n + m)%nat with (n + S m)%nat by lia. reflexivity.
      * intros k Hk. apply Hlink. lia.
    + apply Hlink. lia.
Qed.

Lemma create_packet_id_too_large (cfg : BenchmarkConfig) (t : float) (id : Z) :
  2 ^ 32 <= id -> payload_size cfg < 2 ^ 31 ->
  _create_packet cfg t id = Raise StructError.
Proof.
  intros Hid Hsz. unfold _create_packet, bytes_repeat, PY_SSIZE_T_MAX.
  destruct (Z.gtb_spec (payload_size cfg) (2 ^ 63 - 1)); [lia|].
  cbn [bind]. unfold struct_pack_Idi, pack_I.
  replace ((0 <=? id) && (id <? 2 ^ 32)) with false; [reflexivity|].
  symmetry. apply andb_false_iff. right. apply Z.ltb_ge. exact Hid.
Qed.

Lemma sleep_refuses_negative (secs : float) :
  (secs <? 0)%float = true -> exists e, time_sleep secs = Raise e.
Proof.
  intros H. unfold time_sleep.
  destruct (negb (secs =? secs)%float); [eauto|].
  destruct ((secs * 0x1.dcd65p+29 <? - 0x1p+63)%float
            || (0x1p+63 <? secs * 0x1.dcd65p+29)%float); [eauto|].
  rewrite H. eauto.
Qed.

(** *** Properties of the sender loop *)

(** X3. A run in which nothing fails.  With a payload size that fits the
    length field, fewer than 2^32 packets to send, a usable log cadence
    and delay, and a link that takes every packet: if the run is not
    cancelled the loop ends by itself after sending the packets 1 ..
    max_packets in order, each recorded in the sent record under its id
    with its send time; if it is cancelled after [running] passes it has
    sent and recorded exactly the packets 1 .. running. *)
Theorem sender_run_completes (cfg : BenchmarkConfig) (clock : Z -> float)
  (link : Z -> result unit) (running : nat) :
  paces cfg ->
  payload_size cfg < 2 ^ 31 ->
  max_packets cfg < 2 ^ 32 ->
  (forall k, 1 <= k <= max_packets cfg -> link k = Return tt) ->
  ((Z.to_nat (max_packets cfg) < running)%nat ->
     _sender_loop running cfg clock link =
       (Finished,
        sent_up_to cfg clock (Z.to_nat (max_packets cfg))
          (1 + Z.of_nat (Z.to_nat (max_packets cfg))))) /\
  ((running <= Z.to_nat (max_packets cfg))%nat ->
     _sender_loop running cfg clock link =
       (SenderCancelled, sent_up_to cfg clock running (1 + Z.of_nat running))).
Proof.
  intros Hp Hsz Hmax Hlink. unfold _sender_loop.
  change sender_start with (sent_up_to cfg clock 0 (1 + Z.of_nat 0)).
  split; intros Hrun.
  - set (n := Z.to_nat (max_packets cfg)) in *.
    replace running with (n + S (running - n - 1))%nat by lia.
    destruct (Z.le_gt_cases 0 (max_packets cfg)) as [Hnn|Hneg].
    + rewrite (loop_advances cfg clock link n 0); trivial; try lia.
      * cbn [Nat.add sender_loop cur_msg_id sent_up_to].
        destruct (Z.leb_spec (1 + Z.of_nat n) (max_packets cfg)); [lia|reflexivity].
      * intros k Hk. apply Hlink. lia.
    + replace n with 0%nat by lia.
      cbn [Nat.add sender_loop cur_msg_id sent_up_to].
      destruct (Z.leb_spec (1 + Z.of_nat 0) (max_packets cfg)); [lia|reflexivity].
  - destruct running as [|running]; [reflexivity|].
    replace (S running) with (S running + 0)%nat at 1 by lia.
    rewrite (loop_advances cfg clock link (S running) 0); trivial; try lia.
    intros k Hk. apply Hlink. lia.
Qed.

Lemma sender_run_completes_witness :
  _sender_loop 8 default_config tick link_up =
    (SenderCancelled, sent_up_to default_config tick 8 (1 + Z.of_nat 8)).
Proof.
  apply (sender_run_completes default_config tick link_up 8).
  - split; reflexivity.
  - reflexivity.
  - reflexivity.
  - reflexivity.
  - cbn [max_packets default_config]. lia.
Defined.

(** X4. A transmission error aborts the sender.  If the link takes the
    packets 1 .. k-1 and fails on packet [k], the loop ends there with that
    error: exactly k-1 packets are sent and recorded, and nothing is
    recorded for packet [k]. *)
Theorem sender_aborts_on_send_error (cfg : BenchmarkConfig) (clock : Z -> float)
  (link : Z -> result unit) (running : nat) (k : nat) (e : exn) :
  paces cfg ->
  payload_size cfg < 2 ^ 31 ->
  (0 < k <= running)%nat ->
  Z.of_nat k <= max_packets cfg ->
  Z.of_nat k < 2 ^ 32 ->
  (forall j, 1 <= j < Z.of_nat k -> link j = Return tt) ->
  link (Z.of_nat k) = Raise e ->
  _sender_loop running cfg clock link =
    (SenderError e, sent_up_to cfg clock (k - 1) (Z.of_nat k)).
Proof.
  intros Hp Hsz Hk Hmax Hid Hok Hfail. unfold _sender_loop.
  change sender_start with (sent_up_to cfg clock 0 (1 + Z.of_nat 0)).
  replace running with ((k - 1) + S (running - k))%nat by lia.
  rewrite (loop_advances cfg clock link (k - 1) 0); trivial; try lia.
  - cbn [Nat.add sender_loop cur_msg_id sent_up_to].
    replace (1 + Z.of_nat (k - 1)) with (Z.of_nat k) by lia.
    destruct (Z.leb_spec (Z.of_nat k) (max_packets cfg)); [|lia].
    pose proof (iteration_cases cfg clock link (k - 1)) as Hit. cbv zeta in Hit.
    replace (1 + Z.of_nat (k - 1)) with (Z.of_nat k) in Hit by lia.
    destruct (create_packet_ok cfg (clock (Z.of_nat k)) (Z.of_nat k)) as (p & Hc);
      [lia|exact Hsz|].
    rewrite Hc, Hfail in Hit. rewrite Hit. reflexivity.
  - intros j Hj. apply Hok. lia.
Qed.

Lemma sender_aborts_on_send_error_witness :
  _sender_loop 10 default_config tick
    (fun id => if id =? 3 then Raise OSError else Return tt) =
    (SenderError OSError, sent_up_to default_config tick (3 - 1) (Z.of_nat 3)).
Proof.
  apply (sender_aborts_on_send_error default_config tick _ 10 3 OSError).
  - split; reflexivity.
  - reflexivity.
  - lia.
  - vm_compute. intros H. discriminate H.
  - reflexivity.
  - intros j Hj. destruct (Z.eqb_spec j 3); [lia|reflexivity].
  - reflexivity.
Defined.

(** X5. The message id runs out at 2^32.  When more than 2^32 - 1 packets
    are asked for and nothing else fails, the sender sends the packets 1 ..
    2^32 - 1 and then stops with the packing error of id 2^32: the count of
    packets sent never exceeds 2^32 - 1. *)
Theorem sender_stops_at_id_overflow (cfg : BenchmarkConfig) (clock : Z -> float)
  (link : Z -> result unit) (running : nat) :
  paces cfg ->
  payload_size cfg < 2 ^ 31 ->
  2 ^ 32 <= max_packets cfg ->
  2 ^ 32 <= Z.of_nat running ->
  (forall k, 1 <= k < 2 ^ 32 -> link k = Return tt) ->
  _sender_loop running cfg clock link =
    (SenderError StructError,
     sent_up_to cfg clock (Z.to_nat (2 ^ 32 - 1)) (2 ^ 32)).
Proof.
  intros Hp Hsz Hmax Hrun Hlink. unfold _sender_loop.
  change sender_start with (sent_up_to cfg clock 0 (1 + Z.of_nat 0)).
  assert (Hn : Z.of_nat (Z.to_nat (2 ^ 32 - 1)) = 2 ^ 32 - 1)
    by (apply Z2Nat.id; discriminate).
  generalize dependent (Z.to_nat (2 ^ 32 - 1)). intros n Hn.
  replace running with (n + S (running - n - 1))%nat by lia.
  rewrite (loop_advances cfg clock link n 0); trivial; try lia.
  - cbn [Nat.add sender_loop cur_msg_id sent_up_to].
    replace (1 + Z.of_nat n) with (2 ^ 32) by lia.
    destruct (Z.leb_spec (2 ^ 32) (max_packets cfg)); [|lia].
    pose proof (iteration_cases cfg clock link n) as Hit. cbv zeta in Hit.
    replace (1 + Z.of_nat n) with (2 ^ 32) in Hit by lia.
    rewrite create_packet_id_too_large in Hit by (trivial; lia).
    rewrite Hit. reflexivity.
  - intros k Hk. apply Hlink. lia.
Qed.

Lemma sender_stops_at_id_overflow_witness :
  _sender_loop (Z.to_nat (2 ^ 32)) many_packets_config tick link_up =
    (SenderError StructError,
     sent_up_to many_packets_config tick (Z.to_nat (2 ^ 32 - 1)) (2 ^ 32)).
Proof.
  apply (sender_stops_at_id_overflow many_packets_config tick link_up (Z.to_nat (2 ^ 32))).
  - split; reflexivity.
  - reflexivity.
  - cbn [max_packets many_packets_config]. lia.
  - rewrite Z2Nat.id; lia.
  - reflexivity.
Defined.

(** X6. A log cadence of zero stops the sender at its first packet.  With
    logging on and [log_frequency = 0], the first packet is sent and
    recorded, then the cadence test divides by zero and the loop ends:
    one packet, whatever [max_packets] is. *)
Theorem sender_zero_log_frequency (cfg : BenchmarkConfig) (clock : Z -> float)
  (link : Z -> result unit) (running : nat) :
  print_logs cfg = true ->
  log_frequency cfg = 0 ->
  payload_size cfg < 2 ^ 31 ->
  1 <= max_packets cfg ->
  (0 < running)%nat ->
  link 1 = Return tt ->
  _sender_loop running cfg clock link =
    (SenderError ZeroDivisionError, sent_up_to cfg clock 1 1).
Proof.
  intros Hpl Hlf Hsz Hmax Hrun Hlink. unfold _sender_loop.
  destruct running as [|running]; [lia|].
  cbn [sender_loop sender_start cur_msg_id].
  destruct (Z.leb_spec 1 (max_packets cfg)); [|lia].
  pose proof (iteration_cases cfg clock link 0) as Hit. cbv zeta in Hit.
  change (1 + Z.of_nat 0) with 1 in Hit.
  destruct (create_packet_ok cfg (clock 1) 1) as (p & Hc); [lia|exact Hsz|].
  rewrite Hc, Hlink, Hpl, Hlf in Hit. cbn [andb Z.eqb] in Hit.
  change sender_start with (sent_up_to cfg clock 0 1). rewrite Hit. reflexivity.
Qed.

(** X7. A negative send delay stops the sender after its first packet.
    The first packet is sent and recorded and the id moves to 2; then
    [time.sleep] refuses the negative duration and the loop ends. *)
Theorem sender_negative_delay (cfg : BenchmarkConfig) (clock : Z -> float)
  (link : Z -> result unit) (running : nat) :
  (send_delay cfg <? 0)%float = true ->
  print_logs cfg && (log_frequency cfg =? 0) = false ->
  payload_size cfg < 2 ^ 31 ->
  1 <= max_packets cfg ->
  (0 < running)%nat ->
  link 1 = Return tt ->
  exists e,
    _sender_loop running cfg clock link =
      (SenderError e, sent_up_to cfg clock 1 2).
Proof.
  intros Hneg Hlog Hsz Hmax Hrun Hlink. unfold _sender_loop.
  destruct (sleep_refuses_negative _ Hneg) as (e & He). exists e.
  destruct running as [|running]; [lia|].
  cbn [sender_loop sender_start cur_msg_id].
  destruct (Z.leb_spec 1 (max_packets cfg)); [|lia].
  pose proof (iteration_cases cfg clock link 0) as Hit. cbv zeta in Hit.
  change (1 + Z.of_nat 0) with 1 in Hit.
  destruct (create_packet_ok cfg (clock 1) 1) as (p & Hc); [lia|exact Hsz|].
  rewrite Hc, Hlink, Hlog, He in Hit.
  change sender_start with (sent_up_to cfg clock 0 1). rewrite Hit. reflexivity.
Qed.

Lemma sender_zero_log_frequency_witness :
  _sender_loop 5 zero_cadence_config tick link_up =
    (SenderError ZeroDivisionError, sent_up_to zero_cadence_config tick 1 1).
Proof.
  apply (sender_zero_log_frequency zero_cadence_config tick link_up 5);
    try reflexivity; cbn; lia.
Defined.

Lemma sender_negative_delay_witness :
  exists e,
    _sender_loop 5 negative_delay_config tick link_up =
      (SenderError e, sent_up_to negative_delay_config tick 1 2).
Proof.
  apply (sender_negative_delay negative_delay_config tick link_up 5);
    try reflexivity; cbn; lia.
Defined.

Lemma all_created_next (cfg : BenchmarkConfig) (clock : Z -> float) (n : nat) (p : bytes * float) :
  all_created cfg clock n ->
  _create_packet cfg (clock (1 + Z.of_nat n)) (1 + Z.of_nat n) = Return p ->
  all_created cfg clock (S n).
Proof.
  intros Hall Hc k Hk. rewrite ids_from_snoc in Hk. apply in_app_or in Hk.
  destruct Hk as [Hk|[<-|[]]]; [now apply Hall|].
  destruct p as [f t]. destruct (create_packet_shape _ _ _ _ _ Hc) as [-> ->].
  exact Hc.
Qed.

Lemma dict_get_from (clock : Z -> float) (m : nat) :
  forall a k : Z,
    dict_get (map (fun j => (j, clock j)) (ids_from a m)) k =
      if (a <=? k) && (k <? a + Z.of_nat m) then Some (clock k) else None.
Proof.
  induction m as [|m IH]; intros a k.
  - cbn [ids_from map dict_get].
    destruct (Z.leb_spec a k), (Z.ltb_spec k (a + Z.of_nat 0)); try reflexivity; lia.
  - cbn [ids_from map dict_get]. rewrite IH.
    destruct (Z.eqb_spec a k) as [->|Hne].
    + destruct (Z.leb_spec k k), (Z.ltb_spec k (k + Z.of_nat (S m))); try reflexivity; lia.
    + destruct (Z.leb_spec (a + 1) k), (Z.ltb_spec k (a + 1 + Z.of_nat m)),
        (Z.leb_spec a k), (Z.ltb_spec k (a + Z.of_nat (S m))); try reflexivity; lia.
Qed.

Lemma dict_get_recorded (clock : Z -> float) (n : nat) (k : Z) :
  1 <= k <= Z.of_nat n ->
  dict_get (map (fun j => (j, clock j)) (ids_from 1 n)) k = Some (clock k).
Proof.
  intros H. rewrite dict_get_from.
  destruct (Z.leb_spec 1 k), (Z.ltb_spec k (1 + Z.of_nat n)); try reflexivity; lia.
Qed.

Lemma dict_get_absent (clock : Z -> float) (n : nat) (k : Z) :
  k < 1 \/ Z.of_nat n < k ->
  dict_get (map (fun j => (j, clock j)) (ids_from 1 n)) k = None.
Proof.
  intros H. rewrite dict_get_from.
  destruct (Z.leb_spec 1 k), (Z.ltb_spec k (1 + Z.of_nat n)); try reflexivity; lia.
Qed.

(** From any loop head, the loop ends in a state of the same shape. *)
Lemma sender_loop_shape (cfg : BenchmarkConfig) (clock : Z -> float)
  (link : Z -> result unit) (running : nat) :
  forall n : nat,
    Z.of_nat n <= Z.max (max_packets cfg) 0 ->
    all_created cfg clock n ->
    exists n' next,
      snd (sender_loop running cfg clock link
             (sent_up_to cfg clock n (1 + Z.of_nat n))) =
        sent_up_to cfg clock n' next /\
      (n <= n' <= n + running)%nat /\
      Z.of_nat n' <= Z.max (max_packets cfg) 0 /\
      all_created cfg clock n'.
Proof.
  induction running as [|running IH]; intros n Hn Hall.
  - exists n, (1 + Z.of_nat n). cbn [sender_loop snd].
    split; [reflexivity|]. split; [lia|]. split; [lia|exact Hall].
  - cbn [sender_loop cur_msg_id sent_up_to].
    destruct (Z.leb_spec (1 + Z.of_nat n) (max_packets cfg)) as [Hle|Hgt].
    + pose proof (iteration_cases cfg clock link n) as Hit. cbv zeta in Hit.
      destruct (_create_packet cfg (clock (1 + Z.of_nat n)) (1 + Z.of_nat n))
        as [p|e] eqn:Hc.
      * pose proof (all_created_next cfg clock n p Hall Hc) as Hall'.
        destruct (link (1 + Z.of_nat n)).
        { destruct (print_logs cfg && (log_frequency cfg =? 0)).
          - rewrite Hit. cbn [snd]. exists (S n), (1 + Z.of_nat n).
            split; [reflexivity|]. split; [lia|]. split; [lia|exact Hall'].
          - destruct (time_sleep (send_delay cfg)); rewrite Hit.
            + replace (1 + Z.of_nat n + 1) with (1 + Z.of_nat (S n)) by lia.
              destruct (IH (S n)) as (n' & next & H1 & H2 & H3 & H4); [lia|exact Hall'|].
              exists n', next. split; [exact H1|]. split; [lia|]. split; [lia|exact H4].
            + cbn [snd]. exists (S n), (1 + Z.of_nat n + 1).
              split; [reflexivity|]. split; [lia|]. split; [lia|exact Hall']. }
        { rewrite Hit. cbn [snd]. exists n, (1 + Z.of_nat n).
          split; [reflexivity|]. split; [lia|]. split; [lia|exact Hall]. }
      * rewrite Hit. cbn [snd]. exists n, (1 + Z.of_nat n).
        split; [reflexivity|]. split; [lia|]. split; [lia|exact Hall].
    + cbn [snd]. exists n, (1 + Z.of_nat n).
      split; [reflexivity|]. split; [lia|]. split; [lia|exact Hall].
Qed.

Lemma sender_end_shape (cfg : BenchmarkConfig) (clock : Z -> float)
  (link : Z -> result unit) (running : nat) :
  exists (n : nat) (next : Z),
    snd (_sender_loop running cfg clock link) = sent_up_to cfg clock n next /\
    (n <= running)%nat /\
    Z.of_nat n <= Z.max (max_packets cfg) 0 /\
    all_created cfg clock n.
Proof.
  unfold _sender_loop.
  change sender_start with (sent_up_to cfg clock 0 (1 + Z.of_nat 0)).
  destruct (sender_loop_shape cfg clock link running 0%nat) as (n & next & H1 & H2 & H3 & H4).
  - simpl. lia.
  - intros k [].
  - exists n, next. split; [exact H1|]. split; [lia|]. split; [lia|exact H4].
Qed.

(** X8. The sent record matches the wire, whatever happens.  For every
    configuration, clock, link and number of passes, when the sender loop
    ends there is a count [n] such that [packets_sent = n], the wire got
    exactly the packets of ids 1 .. n in order, each built without error,
    and the sent record holds exactly those ids, each with the send time
    of its packet; [n] is at most the number of passes and at most
    [max_packets]. *)
Theorem sender_record_matches_wire (cfg : BenchmarkConfig) (clock : Z -> float)
  (link : Z -> result unit) (running : nat) :
  let st := snd (_sender_loop running cfg clock link) in
  exists n : nat,
    packets_sent st = Z.of_nat n /\
    (n <= running)%nat /\
    Z.of_nat n <= Z.max (max_packets cfg) 0 /\
    wire st = map (fun k => frame_of cfg (clock k) k) (ids_from 1 n) /\
    sent_packets st = map (fun k => (k, clock k)) (ids_from 1 n) /\
    (forall k, 1 <= k <= Z.of_nat n ->
       dict_get (sent_packets st) k = Some (clock k) /\
       _create_packet cfg (clock k) k = Return (frame_of cfg (clock k) k, clock k)) /\
    (forall k, k < 1 \/ Z.of_nat n < k -> dict_get (sent_packets st) k = None).
Proof.
  cbv zeta.
  destruct (sender_end_shape cfg clock link running) as (n & next & -> & Hr & Hm & Hall).
  exists n. cbn [packets_sent wire sent_packets sent_up_to].
  repeat split; trivial.
  - apply dict_get_recorded. lia.
  - apply Hall. apply ids_from_bounds. lia.
  - intros k Hk. apply dict_get_absent. lia.
Qed.
End Sender.

(* ================================================================== *)
(** ** A sender and a receiver on one stream                       *)
(* ================================================================== *)

Module Loopback.

Import Codec.

Import Receiver Sender.

(** A script in which bytes only arrive: no timeout, no failure, and then
    the peer closes. *)
Definition only_data (s : socket) : Prop :=
  Forall (fun e => exists bs, e = Data bs) s.

(** The size [b'a' * payload_size] has. *)
Definition payload_len_of (cfg : BenchmarkConfig) : Z :=
  Z.max (payload_size cfg) 0.

(** What the receiver keeps of a packet: its id and send time. *)
Definition id_and_time (m : PacketMetrics) : Z * float :=
  (msg_id m, send_time m).

(** Three two-byte packets, sent at 1.0, 2.0 and 3.0 s. *)
Definition three_packets : BenchmarkConfig := {|
  mode := TCP;
  host := host default_config;
  port := port default_config;
  payload_size := 2;
  max_packets := 3;
  send_delay := 0%float;
  timeout := timeout default_config;
  is_sender := true;
  is_receiver := false;
  print_logs := false;
  log_frequency := 10;
  save_results := false;
  results_file := results_file default_config
|}.

(** Their 54 bytes cut after 5 and after 30 bytes. *)
Definition three_packets_stream : socket :=
  let bs := concat (wire (snd (_sender_loop 10 three_packets tick link_up))) in
  [Data (firstn 5 bs); Data (firstn 25 (skipn 5 bs)); Data (skipn 30 bs)].

Lemma sock_recv_only_data (k : Z) (s s' : socket) (r : result bytes) :
  sock_recv k s = (r, s') -> only_data s -> only_data s'.
Proof.
  destruct s as [|[bs| |] rest]; cbn [sock_recv]; intros [= <- <-] H; trivial.
  - apply Forall_inv_tail in H.
    destruct (skipn (Z.to_nat k) bs); [exact H|].
    constructor; [eauto|exact H].
  - now apply Forall_inv_tail in H.
  - now apply Forall_inv_tail in H.
Qed.

Lemma recv_exactly_loop_only_data (fuel : nat) :
  forall (n : Z) (data : bytes) (s s' : socket) (r : result bytes),
    recv_exactly_loop fuel n data s = Some (r, s') ->
    only_data s -> only_data s'.
Proof.
  induction fuel as [|fuel IH]; intros n data s s' r Hrun Hs;
    cbn [recv_exactly_loop] in Hrun;
    destruct (len data <? n); try discriminate;
    try (injection Hrun as <- <-; exact Hs).
  destruct (sock_recv (n - len data) s) as [[chunk|e] s1] eqn:Hrecv.
  - pose proof (sock_recv_only_data _ _ _ _ Hrecv Hs) as Hs1.
    destruct chunk as [|b chunk'].
    + injection Hrun as <- <-. exact Hs1.
    + eapply IH; eassumption.
  - pose proof (sock_recv_only_data _ _ _ _ Hrecv Hs) as Hs1.
    destruct e; injection Hrun as <- <-; exact Hs1.
Qed.

Lemma recv_tcp_packet_only_data (s s' : socket) (r : result bytes) :
  _recv_tcp_packet s = Some (r, s') -> only_data s -> only_data s'.
Proof.
  unfold _recv_tcp_packet, _recv_exactly. intros Hrun Hs.
  destruct (recv_exactly_loop (Z.to_nat 16) 16 [] s) as [[[h|e] s1]|] eqn:H1;
    try discriminate.
  - pose proof (recv_exactly_loop_only_data _ _ _ _ _ _ H1 Hs) as Hs1.
    destruct h as [|b h'].
    + injection Hrun as <- <-. exact Hs1.
    + destruct (struct_unpack_Idi (b :: h')) as [[[i t] pl]|e].
      * destruct (recv_exactly_loop (Z.to_nat pl) pl [] s1) as [[[p|e] s2]|] eqn:H2;
          try discriminate;
          pose proof (recv_exactly_loop_only_data _ _ _ _ _ _ H2 Hs1) as Hs2;
          injection Hrun as <- <-; exact Hs2.
      * injection Hrun as <- <-. exact Hs1.
  - pose proof (recv_exactly_loop_only_data _ _ _ _ _ _ H1 Hs) as Hs1.
    injection Hrun as <- <-. exact Hs1.
Qed.

Lemma drained (s : socket) :
  only_data s -> runs_nonempty s -> available s = [] -> s = [].
Proof.
  intros Hd Hn Ha. destruct s as [|e rest]; [reflexivity|].
  apply Forall_inv in Hd. destruct Hd as (bs & ->).
  apply Forall_inv in Hn. cbn [available] in Ha.
  apply app_eq_nil in Ha. destruct Ha as [-> _]. congruence.
Qed.

(** One created frame at the front of the stream, in any pieces. *)
Lemma created_frame_iteration (sender cfg : BenchmarkConfig)
  (clock : Z -> float) (st : receiver_state)
  (now : float) (id : Z) (more : bytes) :
  mode cfg = TCP ->
  log_check_defined cfg ->
  _create_packet sender now id = Return (frame_of sender now id, now) ->
  only_data (sock st) -> runs_nonempty (sock st) ->
  available (sock st) = frame_of sender now id ++ more ->
  exists m st',
    receiver_iteration cfg clock st = Some (Continue, st') /\
    metrics st' = metrics st ++ [m] /\
    id_and_time m = (id, now) /\
    metric_payload_size m = payload_len_of sender /\
    packets_received st' = packets_received st + 1 /\
    consecutive_timeouts st' = 0 /\
    available (sock st') = more /\
    only_data (sock st') /\ runs_nonempty (sock st').
Proof.
  intros Hm Hlog Hmk Hd Hwf Hav.
  set (frame := frame_of sender now id) in *.
  unfold _create_packet, bytes_repeat in Hmk.
  destruct (payload_size sender >? PY_SSIZE_T_MAX); [discriminate|].
  cbn [bind] in Hmk.
  set (payload := repeat "a"%byte (Z.to_nat (payload_size sender))) in *.
  destruct (struct_pack_Idi id now (len payload)) as [h|] eqn:Hp; [|discriminate].
  cbn [bind] in Hmk.
  assert (Hf : frame = h ++ payload) by congruence.
  destruct (header_fields_of_pack _ _ _ _ [] Hp) as (Lh & _ & _ & Hn).
  rewrite app_nil_r in Hn.
  destruct (recv_tcp_packet_reassembles (sock st) h payload more)
    as (s' & Hrecv & Hav' & Hwf'); trivial.
  { rewrite Hav, Hf, <- app_assoc. reflexivity. }
  { unfold len. lia. }
  exists (metric_of (clock (packets_received st)) id now payload).
  eexists. split.
  - apply iteration_records with (data := h ++ payload) (s := s'); trivial.
    + unfold receive. rewrite Hm. exact Hrecv.
    + destruct h; discriminate.
    + apply parse_frame_roundtrip. exact Hp.
  - cbn [metrics sock packets_received consecutive_timeouts].
    repeat split; trivial.
    + unfold metric_of, payload_len_of, payload, len. cbn [metric_payload_size].
      rewrite repeat_length. lia.
    + eapply recv_tcp_packet_only_data; eassumption.
Qed.

(** The frames of ids [a .. a+m-1] at the front of a stream that then
    closes: [m] iterations record them all and leave a closed socket. *)
Lemma frames_are_received (sender cfg : BenchmarkConfig)
  (clock_s clock_r : Z -> float) (m : nat) :
  forall (a : Z) (st : receiver_state) (running : nat),
    mode cfg = TCP ->
    log_check_defined cfg ->
    (forall k, In k (ids_from a m) ->
       _create_packet sender (clock_s k) k =
         Return (frame_of sender (clock_s k) k, clock_s k)) ->
    only_data (sock st) -> runs_nonempty (sock st) ->
    available (sock st) =
      concat (map (fun k => frame_of sender (clock_s k) k) (ids_from a m)) ->
    exists st',
      receiver_loop (m + running) cfg clock_r st =
        receiver_loop running cfg clock_r st' /\
      sock st' = [] /\
      map id_and_time (metrics st') =
        map id_and_time (metrics st) ++ map (fun k => (k, clock_s k)) (ids_from a m) /\
      (Forall (fun x => metric_payload_size x = payload_len_of sender) (metrics st) ->
       Forall (fun x => metric_payload_size x = payload_len_of sender) (metrics st')) /\
      packets_received st' = packets_received st + Z.of_nat m /\
      (consecutive_timeouts st = 0 -> consecutive_timeouts st' = 0).
Proof.
  induction m as [|m IH]; intros a st running Hm Hlog Hall Hd Hwf Hav.
  - cbn [ids_from map concat] in Hav.
    exists st. cbn [Nat.add ids_from map]. rewrite app_nil_r, Z.add_0_r.
    repeat split; trivial. now apply drained.
  - cbn [ids_from map concat] in Hav.
    destruct (created_frame_iteration sender cfg clock_r st (clock_s a) a _
                Hm Hlog (Hall a (or_introl eq_refl)) Hd Hwf Hav)
      as (x & st1 & Hit & Hmet & Hx & Hsz & Hpr & Hct & Hav1 & Hd1 & Hwf1).
    destruct (IH (a + 1) st1 running Hm Hlog) as (st' & Hrun & Hs & Hids & Hszs & Hprs & Hcts);
      trivial.
    { intros k Hk. apply Hall. right. exact Hk. }
    exists st'. cbn [Nat.add receiver_loop]. rewrite Hit.
    split; [exact Hrun|]. split; [exact Hs|].
    split; [|split; [|split]].
    + rewrite Hids, Hmet, map_app. cbn [map ids_from]. rewrite Hx, <- app_assoc.
      reflexivity.
    + intros HF. apply Hszs. rewrite Hmet. apply Forall_app. split; [exact HF|].
      constructor; [exact Hsz|constructor].
    + rewrite Hprs, Hpr. lia.
    + intros _. apply Hcts. exact Hct.
Qed.

(** X9. A stream-mode run end to end.  Take any sender run (any
    configuration, link and number of passes) and let the bytes of the
    packets it handed to the socket reach a stream-mode receiver, cut into
    non-empty pieces of any sizes, after which the peer closes.  The
    receiver loop records one metric per packet, in order, with the ids
    and send times of the sender's sent record and the sender's payload
    size; it then counts 20 empty reads and stops.  The receiver has as
    many metrics as the sender has sent packets. *)
Theorem stream_run_is_received (sender receiver : BenchmarkConfig)
  (clock_s clock_r : Z -> float) (link : Z -> result unit)
  (running_s running_r : nat) (s : socket) :
  let sent := snd (_sender_loop running_s sender clock_s link) in
  mode receiver = TCP ->
  log_check_defined receiver ->
  only_data s -> runs_nonempty s ->
  available s = concat (wire sent) ->
  (Z.to_nat (packets_sent sent) + 20 <= running_r)%nat ->
  exists st',
    _receiver_loop running_r receiver clock_r s = Some (NoData, st') /\
    map id_and_time (metrics st') = sent_packets sent /\
    Forall (fun m => metric_payload_size m = payload_len_of sender) (metrics st') /\
    len (metrics st') = packets_sent sent /\
    packets_received st' = packets_sent sent.
Proof.
  cbv zeta.
  destruct (sender_end_shape sender clock_s link running_s) as (n & next & -> & _ & _ & Hall).
  cbn [wire packets_sent sent_packets sent_up_to].
  intros Hm Hlog Hd Hwf Hav Hrun.
  destruct (frames_are_received sender receiver clock_s clock_r n 1 (initial_state s)
              (running_r - n) Hm Hlog Hall Hd Hwf Hav)
    as (st1 & Hloop & Hs1 & Hids & Hsz & Hpr & Hct).
  cbn [metrics packets_received consecutive_timeouts initial_state app map] in *.
  exists (with_timeouts st1 [] max_timeouts).
  assert (Hlen : len (metrics st1) = Z.of_nat n).
  { unfold len. rewrite <- (length_map id_and_time (metrics st1)), Hids.
    rewrite length_map, ids_from_length. reflexivity. }
  split.
  - unfold _receiver_loop. replace running_r with (n + (running_r - n))%nat by lia.
    rewrite Hloop, closed_loop; trivial.
    + rewrite Hct by reflexivity.
      destruct (Z.leb_spec (max_timeouts - 0) (Z.of_nat (running_r - n))) as [_|Hlt];
        [reflexivity|unfold max_timeouts in Hlt; lia].
    + rewrite Hct by reflexivity. reflexivity.
  - cbn [metrics packets_received with_timeouts].
    split; [exact Hids|]. split; [apply Hsz; constructor|].
    split; [exact Hlen|]. lia.
Qed.

Lemma stream_run_is_received_witness :
  exists st',
    _receiver_loop 30 default_config clock_2 three_packets_stream = Some (NoData, st') /\
    map id_and_time (metrics st') =
      sent_packets (snd (_sender_loop 10 three_packets tick link_up)) /\
    Forall (fun m => metric_payload_size m = payload_len_of three_packets) (metrics st') /\
    len (metrics st') = packets_sent (snd (_sender_loop 10 three_packets tick link_up)) /\
    packets_received st' = packets_sent (snd (_sender_loop 10 three_packets tick link_up)).
Proof.
  apply (stream_run_is_received three_packets default_config tick clock_2 link_up
           10 30 three_packets_stream).
  - reflexivity.
  - reflexivity.
  - repeat constructor; eexists; reflexivity.
  - repeat constructor; vm_compute; discriminate.
  - vm_compute. reflexivity.
  - vm_compute. lia.
Defined.

End Loopback.

(* ================================================================== *)
(** ** A sender and a receiver exchanging datagrams                *)
(* ================================================================== *)

Module Datagrams.

Import Codec Receiver Sender Loopback.

(** The datagrams that reach the receiver, named by the ids of the packets
    they carry, in the order they arrive; then silence.  An id missing from
    the list is a lost packet, an id listed twice a duplicated one. *)
Definition arriving (sender : BenchmarkConfig) (clock_s : Z -> float)
  (arrivals : list Z) : socket :=
  map (fun k => Data (frame_of sender (clock_s k) k)) arrivals.

(** What a metric says against the sender's record. *)
Definition matches_record (sender : BenchmarkConfig) (record : dict)
  (m : PacketMetrics) : Prop :=
  dict_get record (msg_id m) = Some (send_time m) /\
  metric_payload_size m = payload_len_of sender.

(** Packets 2, 3, 2 and 1 of a run of three reach the receiver. *)
Definition three_datagrams : BenchmarkConfig := {|
  mode := UDP;
  host := host three_packets;
  port := port three_packets;
  payload_size := payload_size three_packets;
  max_packets := max_packets three_packets;
  send_delay := send_delay three_packets;
  timeout := timeout three_packets;
  is_sender := is_sender three_packets;
  is_receiver := is_receiver three_packets;
  print_logs := print_logs three_packets;
  log_frequency := log_frequency three_packets;
  save_results := save_results three_packets;
  results_file := results_file three_packets
|}.

Lemma created_datagram_iteration (sender cfg : BenchmarkConfig)
  (clock : Z -> float) (st : receiver_state)
  (now : float) (id : Z) (rest : socket) :
  mode cfg = UDP ->
  log_check_defined cfg ->
  _create_packet sender now id = Return (frame_of sender now id, now) ->
  payload_size sender <= 65519 ->
  sock st = Data (frame_of sender now id) :: rest ->
  exists m,
    receiver_iteration cfg clock st =
      Some (Continue,
            {| sock := rest; metrics := metrics st ++ [m];
               packets_received := packets_received st + 1;
               consecutive_timeouts := 0 |}) /\
    id_and_time m = (id, now) /\
    metric_payload_size m = payload_len_of sender.
Proof.
  intros Hm Hlog Hmk Hsz Hs.
  set (frame := frame_of sender now id) in *.
  unfold _create_packet, bytes_repeat in Hmk.
  destruct (payload_size sender >? PY_SSIZE_T_MAX); [discriminate|].
  cbn [bind] in Hmk.
  set (payload := repeat "a"%byte (Z.to_nat (payload_size sender))) in *.
  destruct (struct_pack_Idi id now (len payload)) as [h|] eqn:Hp; [|discriminate].
  cbn [bind] in Hmk.
  assert (Hf : frame = h ++ payload) by congruence.
  destruct (header_fields_of_pack _ _ _ _ [] Hp) as (Lh & _ & _ & _).
  assert (Lp : length payload = Z.to_nat (payload_size sender))
    by apply repeat_length.
  exists (metric_of (clock (packets_received st)) id now payload).
  split; [|split].
  - apply iteration_records with (data := h ++ payload).
    + unfold receive. rewrite Hm, Hs, Hf. cbn [sock_recvfrom].
      rewrite firstn_all2; [reflexivity|].
      rewrite length_app, Lh, Lp. lia.
    + destruct h; discriminate.
    + apply parse_frame_roundtrip. exact Hp.
    + exact Hlog.
  - reflexivity.
  - unfold metric_of, payload_len_of, len. cbn [metric_payload_size].
    rewrite Lp. lia.
Qed.

Lemma silent_tail (cfg : BenchmarkConfig) (clock : Z -> float) (running : nat) :
  forall st : receiver_state,
    mode cfg = UDP -> sock st = [] -> consecutive_timeouts st < max_timeouts ->
    max_timeouts - consecutive_timeouts st <= Z.of_nat running ->
    receiver_loop running cfg clock st =
      Some (TimeoutLimit, with_timeouts st [] max_timeouts).
Proof.
  induction running as [|running IH]; intros st Hm Hs Hc Hrun;
    unfold max_timeouts in *; [lia|].
  cbn [receiver_loop]. rewrite silent_iteration by assumption.
  unfold max_timeouts.
  destruct (Z.geb_spec (consecutive_timeouts st + 1) 20) as [Hge|Hlt].
  - replace (consecutive_timeouts st + 1) with 20 by lia. reflexivity.
  - rewrite IH; trivial; unfold with_timeouts; cbn [consecutive_timeouts]; lia.
Qed.

Lemma datagrams_are_received (sender cfg : BenchmarkConfig)
  (clock_s clock_r : Z -> float) (arrivals : list Z) :
  forall (st : receiver_state) (running : nat),
    mode cfg = UDP ->
    log_check_defined cfg ->
    payload_size sender <= 65519 ->
    (forall k, In k arrivals ->
       _create_packet sender (clock_s k) k =
         Return (frame_of sender (clock_s k) k, clock_s k)) ->
    sock st = arriving sender clock_s arrivals ->
    exists st',
      receiver_loop (length arrivals + running) cfg clock_r st =
        receiver_loop running cfg clock_r st' /\
      sock st' = [] /\
      map id_and_time (metrics st') =
        map id_and_time (metrics st) ++ map (fun k => (k, clock_s k)) arrivals /\
      (Forall (fun x => metric_payload_size x = payload_len_of sender) (metrics st) ->
       Forall (fun x => metric_payload_size x = payload_len_of sender) (metrics st')) /\
      packets_received st' = packets_received st + len arrivals /\
      (consecutive_timeouts st = 0 -> consecutive_timeouts st' = 0).
Proof.
  induction arrivals as [|a arrivals IH]; intros st running Hm Hlog Hsz Hall Hs.
  - exists st. cbn [length Nat.add map]. rewrite app_nil_r.
    change (len (@nil Z)) with 0. rewrite Z.add_0_r.
    repeat split; trivial.
  - cbn [arriving map] in Hs.
    destruct (created_datagram_iteration sender cfg clock_r st (clock_s a) a _
                Hm Hlog (Hall a (or_introl eq_refl)) Hsz Hs)
      as (x & Hit & Hx & Hxs).
    match type of Hit with _ = Some (_, ?s) => set (st1 := s) in * end.
    destruct (IH st1 running Hm Hlog Hsz) as (st' & Hrun & Hs' & Hids & Hszs & Hprs & Hcts).
    { intros k Hk. apply Hall. right. exact Hk. }
    { reflexivity. }
    exists st'. cbn [length Nat.add receiver_loop]. rewrite Hit.
    split; [exact Hrun|]. split; [exact Hs'|].
    split; [|split; [|split]].
    + rewrite Hids. unfold st1. cbn [metrics map]. rewrite map_app. cbn [map].
      rewrite Hx, <- app_assoc. reflexivity.
    + intros HF. apply Hszs. unfold st1. cbn [metrics]. apply Forall_app.
      split; [exact HF|]. constructor; [exact Hxs|constructor].
    + rewrite Hprs. unfold st1, len. cbn [packets_received length]. lia.
    + intros _. apply Hcts. reflexivity.
Qed.

Lemma arrivals_within (n : nat) (arrivals : list Z) :
  (forall k, In k arrivals -> 1 <= k <= Z.of_nat n) ->
  NoDup arrivals -> (length arrivals <= n)%nat.
Proof.
  intros Hin Hnd.
  rewrite <- (ids_from_length n 1).
  apply NoDup_incl_length; [exact Hnd|].
  intros k Hk. apply ids_from_bounds. specialize (Hin k Hk). lia.
Qed.

(** X21. A datagram-mode run end to end.  Take any sender run and let
    any of its packets reach a datagram-mode receiver, in any order, some
    lost and some more than once, followed by silence.  The receiver
    records one metric per datagram that arrives, in arrival order and
    without removing duplicates; every metric carries the send time the
    sender recorded under that id and the sender's payload size; after 20
    timed-out reads the loop stops on the timeout limit.  If no datagram
    arrives twice, no more metrics are recorded than packets were sent. *)
Theorem datagram_run_is_recorded (sender receiver : BenchmarkConfig)
  (clock_s clock_r : Z -> float) (link : Z -> result unit)
  (running_s running_r : nat) (arrivals : list Z) :
  let sent := snd (_sender_loop running_s sender clock_s link) in
  mode receiver = UDP ->
  log_check_defined receiver ->
  payload_size sender <= 65519 ->
  (forall k, In k arrivals -> 1 <= k <= packets_sent sent) ->
  (length arrivals + 20 <= running_r)%nat ->
  exists st',
    _receiver_loop running_r receiver clock_r (arriving sender clock_s arrivals) =
      Some (TimeoutLimit, st') /\
    map id_and_time (metrics st') = map (fun k => (k, clock_s k)) arrivals /\
    Forall (matches_record sender (sent_packets sent)) (metrics st') /\
    packets_received st' = len arrivals /\
    len (metrics st') = len arrivals /\
    (NoDup arrivals -> len (metrics st') <= len (sent_packets sent)).
Proof.
  cbv zeta.
  destruct (sender_end_shape sender clock_s link running_s) as (n & next & -> & _ & _ & Hall).
  cbn [wire packets_sent sent_packets sent_up_to].
  intros Hm Hlog Hsz Hin Hrun.
  destruct (datagrams_are_received sender receiver clock_s clock_r arrivals
              (initial_state (arriving sender clock_s arrivals))
              (running_r - length arrivals) Hm Hlog Hsz)
    as (st1 & Hloop & Hs1 & Hids & Hszs & Hpr & Hct).
  { intros k Hk. apply Hall. apply ids_from_bounds. specialize (Hin k Hk). lia. }
  { reflexivity. }
  cbn [metrics packets_received consecutive_timeouts initial_state app map] in *.
  exists (with_timeouts st1 [] max_timeouts).
  assert (Hlen : len (metrics st1) = len arrivals).
  { unfold len. rewrite <- (length_map id_and_time (metrics st1)), Hids.
    rewrite length_map. reflexivity. }
  split.
  - unfold _receiver_loop.
    replace running_r with (length arrivals + (running_r - length arrivals))%nat by lia.
    rewrite Hloop. apply silent_tail; trivial.
    + rewrite Hct by reflexivity. unfold max_timeouts. lia.
    + rewrite Hct by reflexivity. unfold max_timeouts. lia.
  - cbn [metrics packets_received with_timeouts].
    split; [exact Hids|]. split; [|split; [lia|split; [exact Hlen|]]].
    + specialize (Hszs (Forall_nil _)).
      apply Forall_forall. intros m Hmx. split.
      * assert (Hi : In (id_and_time m) (map id_and_time (metrics st1)))
          by (apply in_map; exact Hmx).
        rewrite Hids in Hi. apply in_map_iff in Hi.
        destruct Hi as (k & Hk & Hkin). unfold id_and_time in Hk.
        assert (msg_id m = k) as -> by congruence.
        assert (send_time m = clock_s k) as -> by congruence.
        apply dict_get_recorded. apply Hin. exact Hkin.
      * exact (proj1 (Forall_forall _ _) Hszs m Hmx).
    + intros Hnd. rewrite Hlen. unfold len at 2.
      rewrite length_map, ids_from_length. unfold len.
      apply Nat2Z.inj_le. apply arrivals_within; trivial.
Qed.

Lemma datagram_run_is_recorded_witness :
  exists st',
    _receiver_loop 30 udp_config clock_2 (arriving three_datagrams tick [2; 3; 2; 1]) =
      Some (TimeoutLimit, st') /\
    map id_and_time (metrics st') = map (fun k => (k, tick k)) [2; 3; 2; 1] /\
    Forall (matches_record three_datagrams
              (sent_packets (snd (_sender_loop 10 three_datagrams tick link_up))))
      (metrics st') /\
    packets_received st' = len [2; 3; 2; 1] /\
    len (metrics st') = len [2; 3; 2; 1] /\
    (NoDup [2; 3; 2; 1] ->
     len (metrics st') <=
     len (sent_packets (snd (_sender_loop 10 three_datagrams tick link_up)))).
Proof.
  apply (datagram_run_is_recorded three_datagrams udp_config tick clock_2 link_up
           10 30 [2; 3; 2; 1]).
  - reflexivity.
  - reflexivity.
  - vm_compute. discriminate.
  - intros k Hk. vm_compute in Hk. vm_compute. intuition (subst; discriminate).
  - cbn [length]. lia.
Defined.

End Datagrams.

(* ================================================================== *)
(** ** Whole runs of the receiver loop                             *)
(* ================================================================== *)

Module ReceiverRuns.

Import Codec.

Import Receiver.

(** *** How much of a script is left *)

(** One for each event, one for each byte still to be read. *)
Fixpoint weight (s : socket) : nat :=
  match s with
  | [] => 0
  | Data bs :: rest => S (length bs + weight rest)
  | _ :: rest => S (weight rest)
  end.

(** The metrics list only grows, by as many entries as [packets_received];
    the script only shrinks; once the script is used up it stays so and the
    idle counter goes up by one; the counter stays within 0 .. 20. *)
Record step_ok (f : flow) (st st' : receiver_state) : Prop := {
  step_metrics : exists new,
    metrics st' = metrics st ++ new /\
    packets_received st' = packets_received st + len new;
  step_weight : (weight (sock st') <= weight (sock st))%nat;
  step_strict : sock st <> [] -> (weight (sock st') < weight (sock st))%nat;
  step_closed : sock st = [] ->
    sock st' = [] /\ metrics st' = metrics st /\
    consecutive_timeouts st' = consecutive_timeouts st + 1;
  step_counter : 0 <= consecutive_timeouts st ->
    0 <= consecutive_timeouts st' /\
    (f = Continue -> consecutive_timeouts st' < max_timeouts)
}.

Definition udp_zero_cadence_config : BenchmarkConfig := {|
  mode := UDP;
  host := host default_config;
  port := port default_config;
  payload_size := payload_size default_config;
  max_packets := max_packets default_config;
  send_delay := send_delay default_config;
  timeout := timeout default_config;
  is_sender := false;
  is_receiver := true;
  print_logs := true;
  log_frequency := 0;
  save_results := save_results default_config;
  results_file := results_file default_config
|}.

Lemma sock_recv_weight (k : Z) (s s' : socket) (r : result bytes) :
  sock_recv k s = (r, s') ->
  (weight s' <= weight s)%nat /\
  (0 < k -> s <> [] -> (weight s' < weight s)%nat).
Proof.
  destruct s as [|[bs| |] rest]; cbn [sock_recv]; intros [= <- <-];
    cbn [weight]; try (split; [lia|intros; try congruence; lia]).
  destruct (skipn (Z.to_nat k) bs) as [|x more] eqn:Es.
  - split; [lia|intros; lia].
  - assert (Hl : length (skipn (Z.to_nat k) bs) = S (length more)) by now rewrite Es.
    rewrite length_skipn in Hl. cbn [weight length]. split; [lia|intros; lia].
Qed.

Lemma recv_exactly_loop_weight (fuel : nat) :
  forall (n : Z) (data : bytes) (s s' : socket) (r : result bytes),
    recv_exactly_loop fuel n data s = Some (r, s') ->
    (weight s' <= weight s)%nat /\
    (len data < n -> s <> [] -> (weight s' < weight s)%nat).
Proof.
  induction fuel as [|fuel IH]; intros n data s s' r Hrun;
    cbn [recv_exactly_loop] in Hrun;
    destruct (Z.ltb_spec (len data) n) as [Hlt|Hge]; try discriminate;
    try (injection Hrun as <- <-; split; [lia|intros; lia]).
  destruct (sock_recv (n - len data) s) as [[chunk|e] s1] eqn:Hrecv.
  - destruct (sock_recv_weight _ _ _ _ Hrecv) as [Hle Hstrict].
    destruct chunk as [|b chunk'].
    + injection Hrun as <- <-. split; [exact Hle|intros _ Hne; apply Hstrict; [lia|exact Hne]].
    + destruct (IH _ _ _ _ _ Hrun) as [Hle' _].
      split; [lia|]. intros _ Hne. specialize (Hstrict ltac:(lia) Hne). lia.
  - destruct (sock_recv_weight _ _ _ _ Hrecv) as [Hle Hstrict].
    destruct e; injection Hrun as <- <-;
      (split; [exact Hle|intros _ Hne; apply Hstrict; [lia|exact Hne]]).
Qed.

Lemma recv_tcp_packet_weight (s s' : socket) (r : result bytes) :
  _recv_tcp_packet s = Some (r, s') ->
  (weight s' <= weight s)%nat /\ (s <> [] -> (weight s' < weight s)%nat).
Proof.
  unfold _recv_tcp_packet, _recv_exactly. intros Hrun.
  destruct (recv_exactly_loop (Z.to_nat 16) 16 [] s) as [[[h|e] s1]|] eqn:H1;
    try discriminate.
  - destruct (recv_exactly_loop_weight _ _ _ _ _ _ H1) as [Hle Hst].
    specialize (Hst ltac:(unfold len; simpl; lia)).
    destruct h as [|b h'].
    + injection Hrun as <- <-. auto.
    + destruct (struct_unpack_Idi (b :: h')) as [[[i t] pl]|e].
      * destruct (recv_exactly_loop (Z.to_nat pl) pl [] s1) as [[[p|e] s2]|] eqn:H2;
          try discriminate;
          destruct (recv_exactly_loop_weight _ _ _ _ _ _ H2) as [Hle2 _];
          injection Hrun as <- <-;
          (split; [lia|intros Hne; specialize (Hst Hne); lia]).
      * injection Hrun as <- <-. auto.
  - destruct (recv_exactly_loop_weight _ _ _ _ _ _ H1) as [Hle Hst].
    specialize (Hst ltac:(unfold len; simpl; lia)).
    injection Hrun as <- <-. auto.
Qed.

Lemma sock_recvfrom_weight (k : Z) (s s' : socket) (r : result bytes) :
  sock_recvfrom k s = (r, s') ->
  (weight s' <= weight s)%nat /\ (s <> [] -> (weight s' < weight s)%nat).
Proof.
  destruct s as [|[bs| |] rest]; cbn [sock_recvfrom]; intros H;
    inversion H; subst; cbn [weight]; split; try lia; intros; try congruence; lia.
Qed.

Lemma receive_weight (cfg : BenchmarkConfig) (s s' : socket) (r : result bytes) :
  receive cfg s = Some (r, s') ->
  (weight s' <= weight s)%nat /\ (s <> [] -> (weight s' < weight s)%nat).
Proof.
  unfold receive. destruct (mode cfg).
  - apply recv_tcp_packet_weight.
  - intros [= H]. eapply sock_recvfrom_weight. exact H.
Qed.

(** Reading always ends. *)
Lemma recv_exactly_total (n : Z) (s : socket) :
  exists r s', _recv_exactly n s = Some (r, s').
Proof.
  unfold _recv_exactly.
  destruct (recv_exactly_loop_result (Z.to_nat n) n [] s) as (r & s' & H & _).
  - change (len (@nil byte)) with 0. lia.
  - right. reflexivity.
  - eauto.
Qed.

Lemma recv_tcp_packet_total (s : socket) :
  exists r s', _recv_tcp_packet s = Some (r, s').
Proof.
  unfold _recv_tcp_packet.
  destruct (recv_exactly_total 16 s) as (r1 & s1 & H1).
  rewrite H1. destruct r1 as [[|b h]|e]; eauto.
  destruct (struct_unpack_Idi (b :: h)) as [[[i t] pl]|e]; eauto.
  destruct (recv_exactly_total pl s1) as (r2 & s2 & H2).
  rewrite H2. destruct r2; eauto.
Qed.

Lemma receive_total (cfg : BenchmarkConfig) (s : socket) :
  exists r s', receive cfg s = Some (r, s').
Proof.
  unfold receive. destruct (mode cfg); [apply recv_tcp_packet_total|].
  destruct (sock_recvfrom 65535 s) as [r s']. eauto.
Qed.

Lemma receive_closed (cfg : BenchmarkConfig) :
  receive cfg [] = Some (Return [], []) \/
  receive cfg [] = Some (Raise SocketTimeout, []).
Proof. unfold receive. destruct (mode cfg); [left|right]; reflexivity. Qed.

(** *** What every iteration keeps *)

Lemma handle_cases (e : exn) (st : receiver_state) (s : socket) (c : Z) :
  exists f c',
    handle e st s c = (f, with_timeouts st s c') /\
    (c' = c \/ c' = c + 1) /\
    (e = SocketTimeout -> c' = c + 1) /\
    (f = Continue -> c' < max_timeouts).
Proof.
  unfold handle.
  destruct e;
    try (eexists _, c; split; [reflexivity|]; split; [auto|];
         split; intros Habs; discriminate Habs).
  destruct (Z.geb_spec (c + 1) max_timeouts).
  - exists (Break TimeoutLimit), (c + 1).
    split; [reflexivity|]. split; [auto|]. split; [auto|]. intros Habs. discriminate Habs.
  - exists Continue, (c + 1). repeat split; auto.
Qed.

Lemma iteration_step (cfg : BenchmarkConfig) (clock : Z -> float)
  (st : receiver_state) :
  exists f st',
    receiver_iteration cfg clock st = Some (f, st') /\ step_ok f st st'.
Proof.
  unfold receiver_iteration.
  destruct (receive_total cfg (sock st)) as (r & s & Hr).
  destruct (receive_weight cfg _ _ _ Hr) as [Hw Hs].
  assert (Hclosed : sock st = [] ->
            s = [] /\ (r = Return [] \/ r = Raise SocketTimeout)).
  { intros E. rewrite E in Hr.
    destruct (receive_closed cfg) as [H|H]; rewrite H in Hr;
      injection Hr as <- <-; auto. }
  rewrite Hr. destruct r as [[|b data]|e].
  - (* no data *)
    set (c := consecutive_timeouts st + 1).
    assert (Hok : forall f, (f = Continue -> c < max_timeouts) ->
                    step_ok f st (with_timeouts st s c)).
    { intros f Hf. constructor; cbn [with_timeouts sock metrics packets_received consecutive_timeouts]; trivial.
      - exists []. rewrite app_nil_r. change (len (@nil PacketMetrics)) with 0. split; [reflexivity|lia].
      - intros E. destruct (Hclosed E) as [-> _]. auto.
      - intros Hc. split; [unfold c; lia|exact Hf]. }
    destruct (Z.geb_spec c max_timeouts).
    + eexists _, _. split; [reflexivity|]. apply Hok. discriminate.
    + eexists _, _. split; [reflexivity|]. apply Hok. auto.
  - (* data *)
    destruct (_parse_packet (b :: data)) as [[[id t] payload]|e].
    + set (st1 := {| sock := s;
                     metrics := metrics st ++ [_];
                     packets_received := packets_received st + 1;
                     consecutive_timeouts := 0 |}).
      assert (Hok : forall f, step_ok f st st1).
      { intros f. constructor; cbn [st1 sock metrics packets_received consecutive_timeouts]; trivial.
        - eexists. split; [reflexivity|]. unfold len. simpl. lia.
        - intros E. destruct (Hclosed E) as [_ [H|H]]; discriminate.
        - intros _. split; [lia|intros _; unfold max_timeouts; lia]. }
      destruct (print_logs cfg && (log_frequency cfg =? 0)).
      * cbn [handle]. eexists _, _. split; [reflexivity|].
        assert (E : with_timeouts st1 s 0 = st1) by reflexivity. rewrite E. apply Hok.
      * eexists _, _. split; [reflexivity|]. apply Hok.
    + destruct (handle_cases e st s 0) as (f & c' & Hh & Hc & _ & Hf).
      rewrite Hh. eexists _, _. split; [reflexivity|].
      constructor; cbn [with_timeouts sock metrics packets_received consecutive_timeouts]; trivial.
      * exists []. rewrite app_nil_r. change (len (@nil PacketMetrics)) with 0. split; [reflexivity|lia].
      * intros E. destruct (Hclosed E) as [_ [H|H]]; discriminate.
      * intros _. split; [lia|exact Hf].
  - (* the read raised *)
    destruct (handle_cases e st s (consecutive_timeouts st)) as (f & c' & Hh & Hc & Ht & Hf).
    rewrite Hh. eexists _, _. split; [reflexivity|].
    constructor; cbn [with_timeouts sock metrics packets_received consecutive_timeouts]; trivial.
    + exists []. rewrite app_nil_r. change (len (@nil PacketMetrics)) with 0. split; [reflexivity|lia].
    + intros E. destruct (Hclosed E) as [-> [H|H]]; [discriminate|].
      injection H as ->. rewrite Ht by reflexivity. auto.
    + intros Hc0. split; [lia|exact Hf].
Qed.

Lemma iteration_never_cancels (cfg : BenchmarkConfig) (clock : Z -> float)
  (st st' : receiver_state) :
  receiver_iteration cfg clock st <> Some (Break Cancelled, st').
Proof.
  unfold receiver_iteration, handle. intros H.
  repeat match type of H with
         | context [match ?x with _ => _ end] => destruct x
         | context [if ?x then _ else _] => destruct x
         end; discriminate H.
Qed.

(** *** Properties of whole runs *)

(** X10. The count and the list of metrics agree, and nothing recorded is
    ever touched again.  For every configuration, clock, script and number
    of passes the receiver loop returns, its final metrics list is the
    initial one followed by the new metrics, and [packets_received] has
    grown by exactly the number of new metrics. *)
Theorem receiver_metrics_append_only (cfg : BenchmarkConfig)
  (clock : Z -> float) (running : nat) :
  forall st : receiver_state,
  exists r st' new,
    receiver_loop running cfg clock st = Some (r, st') /\
    metrics st' = metrics st ++ new /\
    packets_received st' = packets_received st + len new.
Proof.
  induction running as [|running IH]; intros st.
  - exists Cancelled, st, []. cbn [receiver_loop]. rewrite app_nil_r.
    change (len (@nil PacketMetrics)) with 0. split; [reflexivity|]. split; [reflexivity|lia].
  - cbn [receiver_loop].
    destruct (iteration_step cfg clock st) as (f & st1 & Hit & Hok).
    rewrite Hit. destruct (step_metrics _ _ _ Hok) as (new1 & Hm1 & Hp1).
    destruct f as [|r].
    + destruct (IH st1) as (r & st' & new & Hrun & Hm & Hp).
      exists r, st', (new1 ++ new). split; [exact Hrun|].
      rewrite Hm, Hm1, Hp, Hp1, app_assoc, len_app. split; [reflexivity|lia].
    + exists r, st1, new1. auto.
Qed.

Lemma loop_stops (cfg : BenchmarkConfig) (clock : Z -> float) (running : nat) :
  forall st : receiver_state,
    0 <= consecutive_timeouts st ->
    (21 * weight (sock st) + Z.to_nat (max_timeouts - consecutive_timeouts st)
       < running)%nat ->
    exists r st',
      receiver_loop running cfg clock st = Some (r, st') /\ r <> Cancelled.
Proof.
  unfold max_timeouts.
  induction running as [|running IH]; intros st Hc Hrun; [lia|].
  cbn [receiver_loop].
  destruct (iteration_step cfg clock st) as (f & st1 & Hit & Hok).
  rewrite Hit. destruct f as [|r].
  - destruct (step_counter _ _ _ Hok Hc) as [Hc1 Hlim].
    specialize (Hlim eq_refl). unfold max_timeouts in Hlim.
    apply IH; [exact Hc1|].
    destruct (sock st) as [|e rest] eqn:Es.
    + destruct (step_closed _ _ _ Hok) as (Es1 & _ & Hc'); [exact Es|].
      rewrite Es1. cbn [weight] in *. lia.
    + pose proof (step_strict _ _ _ Hok) as Hlt. rewrite Es in Hlt.
      specialize (Hlt ltac:(discriminate)). lia.
  - exists r, st1. split; [reflexivity|].
    intros ->. exact (iteration_never_cancels cfg clock st st1 Hit).
Qed.

(** X11. The receiver stops by itself when its reads cannot block: in
    datagram mode, where the socket has a timeout, and in stream mode when
    what the peer sends is followed by a close or a failure (a script
    without timeouts, the accepted socket having none).  For every such
    finite script of socket events, once the loop is allowed
    [21 * weight + 21] passes it ends before they are used up: it stops on
    the idle limit, the timeout limit or an error, never by being
    cancelled, however the script mixes its events. *)
Theorem receiver_stops_by_itself (cfg : BenchmarkConfig) (clock : Z -> float)
  (s : socket) (running : nat) :
  mode cfg = UDP \/ Forall (fun e => e <> Silence) s ->
  (21 * weight s + 20 < running)%nat ->
  exists r st',
    _receiver_loop running cfg clock s = Some (r, st') /\ r <> Cancelled.
Proof.
  intros _ H. unfold _receiver_loop. apply loop_stops.
  - cbn [consecutive_timeouts initial_state]. lia.
  - cbn [consecutive_timeouts initial_state sock]. unfold max_timeouts.
    change (Z.to_nat (20 - 0)) with 20%nat. exact H.
Qed.

Lemma receiver_stops_by_itself_witness :
  exists r st',
    _receiver_loop 600 default_config clock_2
      [Data header_100; Data (repeat "a"%byte 3); Failure] = Some (r, st') /\
    r <> Cancelled.
Proof.
  apply (receiver_stops_by_itself default_config clock_2
           [Data header_100; Data (repeat "a"%byte 3); Failure] 600).
  - right. repeat constructor; discriminate.
  - vm_compute. lia.
Defined.

(** X12. A datagram shorter than a header ends the receiver.  In datagram
    mode a non-empty datagram of fewer than 16 bytes makes [_parse_packet]
    raise; the loop catches the error and breaks: no metric is recorded
    and the later datagrams are never read. *)
Theorem runt_datagram_stops_receiver (cfg : BenchmarkConfig) (clock : Z -> float)
  (st : receiver_state) (dg : bytes) (rest : socket) (running : nat) :
  mode cfg = UDP ->
  sock st = Data dg :: rest ->
  0 < len dg < 16 ->
  receiver_loop (S running) cfg clock st =
    Some (Error ValueError, with_timeouts st rest 0).
Proof.
  intros Hm Hs Hlen. cbn [receiver_loop].
  unfold receiver_iteration, receive. rewrite Hm, Hs. cbn [sock_recvfrom].
  rewrite firstn_all2 by (unfold len in Hlen; lia).
  destruct dg as [|b dg']; [unfold len in Hlen; simpl in Hlen; lia|].
  rewrite parse_short by lia. reflexivity.
Qed.

Lemma runt_datagram_stops_receiver_witness :
  receiver_loop (S 5) udp_config clock_2
    (initial_state [Data ["a"; "b"; "c"]%byte; Data header_100]) =
    Some (Error ValueError,
          with_timeouts (initial_state [Data ["a"; "b"; "c"]%byte; Data header_100])
            [Data header_100] 0).
Proof.
  apply (runt_datagram_stops_receiver udp_config clock_2
           (initial_state [Data ["a"; "b"; "c"]%byte; Data header_100])
           ["a"; "b"; "c"]%byte [Data header_100] 5).
  - reflexivity.
  - reflexivity.
  - vm_compute. split; reflexivity.
Defined.

(** X13. A log cadence of zero ends the receiver at its first packet.  In
    datagram mode with logging on and [log_frequency = 0], a datagram of
    at least 16 bytes is decoded and its metric appended, then the cadence
    test divides by zero and the loop breaks. *)
Theorem receiver_zero_log_frequency (cfg : BenchmarkConfig) (clock : Z -> float)
  (st : receiver_state) (dg : bytes) (rest : socket) (running : nat) :
  mode cfg = UDP ->
  print_logs cfg = true ->
  log_frequency cfg = 0 ->
  sock st = Data dg :: rest ->
  16 <= len dg <= 65535 ->
  receiver_loop (S running) cfg clock st =
    Some (Error ZeroDivisionError,
          {| sock := rest;
             metrics := metrics st ++
               [metric_of (clock (packets_received st))
                  (header_msg_id dg) (header_send_time dg)
                  (py_slice dg 16 (16 + header_payload_len dg))];
             packets_received := packets_received st + 1;
             consecutive_timeouts := 0 |}).
Proof.
  intros Hm Hpl Hlf Hs Hlen. cbn [receiver_loop].
  unfold receiver_iteration, receive. rewrite Hm, Hs. cbn [sock_recvfrom].
  rewrite firstn_all2 by (unfold len in Hlen; lia).
  destruct dg as [|b dg']; [unfold len in Hlen; simpl in Hlen; lia|].
  rewrite parse_long by lia. rewrite Hpl, Hlf. reflexivity.
Qed.

Lemma receiver_zero_log_frequency_witness :
  receiver_loop (S 5) udp_zero_cadence_config clock_2
    (initial_state [Data header_100; Data header_100]) =
    Some (Error ZeroDivisionError,
          {| sock := [Data header_100];
             metrics := [] ++
               [metric_of (clock_2 0)
                  (header_msg_id header_100) (header_send_time header_100)
                  (py_slice header_100 16 (16 + header_payload_len header_100))];
             packets_received := 0 + 1;
             consecutive_timeouts := 0 |}).
Proof.
  apply (receiver_zero_log_frequency udp_zero_cadence_config clock_2
           (initial_state [Data header_100; Data header_100])
           header_100 [Data header_100] 5).
  - reflexivity.
  - reflexivity.
  - reflexivity.
  - reflexivity.
  - vm_compute. split; discriminate.
Defined.
End ReceiverRuns.

(* ================================================================== *)
(** ** Connection setup against any peer                           *)
(* ================================================================== *)

Module SetupRuns.

Import Setup.

(** How the connect call of attempt [k] ends the loop. *)
Definition ending (o : connect_outcome) : result unit :=
  match o with
  | Connected => Return tt
  | Refused => Raise ConnectionRefusedError
  | Unreachable => Raise OSError
  end.

Definition connects (tr : list event) : list nat :=
  flat_map (fun e => match e with Connect a => [a] | _ => [] end) tr.

Definition sleeps (tr : list event) : list Z :=
  flat_map (fun e => match e with Sleep z => [z] | _ => [] end) tr.

(** A peer whose host cannot be reached at the third attempt. *)
Definition unreachable_at_2 : network :=
  fun attempt => if (attempt <? 2)%nat then Refused else Unreachable.

Lemma connect_loop_outcome (net : network) (n : nat) :
  forall a : nat,
    (a + S n = max_retries)%nat ->
    exists k : nat,
      (k <= n)%nat /\
      (forall j, (a <= j < a + k)%nat -> net j = Refused) /\
      connect_loop net (seq a (S n)) = (ending (net (a + k)%nat), retries a k) /\
      (net (a + k)%nat = Refused -> k = n).
Proof.
  induction n as [|n IH]; intros a Ha.
  - exists 0%nat. rewrite Nat.add_0_r. cbn [seq connect_loop retries].
    split; [lia|]. split; [intros j Hj; lia|].
    destruct (net a) eqn:Hnet; cbn [ending]; auto.
    destruct (Nat.ltb_spec a (max_retries - 1)); [lia|auto].
  - change (seq a (S (S n))) with (a :: seq (S a) (S n)). cbn [connect_loop].
    destruct (net a) eqn:Hnet.
    + exists 0%nat. rewrite Nat.add_0_r, Hnet. cbn [retries ending].
      repeat split; try lia; try discriminate.
    + destruct (Nat.ltb_spec a (max_retries - 1)); [|lia].
      destruct (IH (S a)) as (k & Hk & Href & Hrun & Hlast); [lia|].
      exists (S k). replace (a + S k)%nat with (S a + k)%nat by lia.
      rewrite Hrun. cbn [retries].
      split; [lia|]. split; [|split; [reflexivity|]].
      * intros j Hj. destruct (Nat.eq_dec j a) as [->|Hne]; [exact Hnet|].
        apply Href. lia.
      * intros Hr. rewrite (Hlast Hr). reflexivity.
    + exists 0%nat. rewrite Nat.add_0_r, Hnet. cbn [retries ending].
      repeat split; try lia; try discriminate.
Qed.

Lemma retries_connects (k : nat) :
  forall a, connects (retries a k) = seq a (S k).
Proof.
  induction k as [|k IH]; intros a; [reflexivity|].
  cbn [retries]. unfold connects in *. cbn [flat_map app]. rewrite IH. reflexivity.
Qed.

Lemma retries_sleeps (k : nat) :
  forall a, sleeps (retries a k) = repeat 1 k.
Proof.
  induction k as [|k IH]; intros a; [reflexivity|].
  cbn [retries]. unfold sleeps in *. cbn [flat_map app repeat]. rewrite IH. reflexivity.
Qed.

Lemma listening_quiet (cfg : BenchmarkConfig) :
  connects (listening cfg) = [] /\ sleeps (listening cfg) = [].
Proof. unfold listening. destruct (is_receiver cfg); split; reflexivity. Qed.

(** X20. Stream-mode setup against any peer.  A node that does not send
    makes no connect call and setup succeeds.  A sender makes connect
    calls 0, 1, ..., k for some k < 10, the first k of them refused and
    each followed by one sleep of one second, and call k decides: a
    connection ends setup without error, an error other than a refusal
    escapes at once without a retry, and a refusal escapes only at the
    tenth call. *)
Theorem setup_tcp_outcome (cfg : BenchmarkConfig) (net : network) :
  (is_sender cfg = false -> _setup_tcp cfg net = (Return tt, listening cfg)) /\
  (is_sender cfg = true ->
   exists k : nat,
     (k < max_retries)%nat /\
     (forall j, (j < k)%nat -> net j = Refused) /\
     _setup_tcp cfg net = (ending (net k), listening cfg ++ retries 0 k) /\
     connects (snd (_setup_tcp cfg net)) = seq 0 (S k) /\
     sleeps (snd (_setup_tcp cfg net)) = repeat 1 k /\
     (net k = Refused -> k = (max_retries - 1)%nat)).
Proof.
  unfold _setup_tcp. split; intros Hs; rewrite Hs; [reflexivity|].
  destruct (connect_loop_outcome net 9 0 eq_refl) as (k & Hk & Href & Hrun & Hlast).
  cbn [Nat.add] in *. exists k. change (seq 0 max_retries) with (seq 0 10).
  rewrite Hrun. cbn [snd].
  destruct (listening_quiet cfg) as [Hc Hz].
  unfold connects, sleeps in *. rewrite !flat_map_app, Hc, Hz. cbn [app].
  split; [unfold max_retries; lia|].
  split; [intros j Hj; apply Href; lia|].
  split; [reflexivity|].
  split; [apply retries_connects|].
  split; [apply retries_sleeps|].
  intros Hr. rewrite (Hlast Hr). reflexivity.
Qed.

Lemma setup_tcp_outcome_witness :
  exists k : nat,
    (k < max_retries)%nat /\
    (forall j, (j < k)%nat -> unreachable_at_2 j = Refused) /\
    _setup_tcp sender_config unreachable_at_2 =
      (ending (unreachable_at_2 k), listening sender_config ++ retries 0 k) /\
    connects (snd (_setup_tcp sender_config unreachable_at_2)) = seq 0 (S k) /\
    sleeps (snd (_setup_tcp sender_config unreachable_at_2)) = repeat 1 k /\
    (unreachable_at_2 k = Refused -> k = (max_retries - 1)%nat).
Proof.
  apply (proj2 (setup_tcp_outcome sender_config unreachable_at_2)). reflexivity.
Defined.

End SetupRuns.

(* ================================================================== *)
(** ** The figures of the results block                            *)
(* ================================================================== *)

Module Report.

Import Codec Binary64 Aggregator.

(** *** The percentile indices, in order *)

(** [int(n * c)] against an integer [k], from either side. *)
Lemma float_index_at_most (n k : Z) (c : float) (mc : positive) :
  Prim2SF c = S754_finite false mc (-53) ->
  2 ^ 52 <= Z.pos mc ->
  0 < n < 2 ^ 53 -> 0 < k < 2 ^ 53 ->
  n * Z.pos mc <= k * 2 ^ 53 ->
  forall i, float_index n c = Return i -> i <= k.
Proof.
  intros Hc Hmc Hn Hk Hle i.
  destruct (float_of_int_pos n Hn) as (mn & en & Hfn & Dn & Hen & Vn).
  destruct (float_of_int_pos k Hk) as (mB & eB & _ & DB & HeB & VB).
  assert (Hat : at_most mB eB (Prim2SF (float_of_int n * c))).
  { apply (mul_at_most _ _ mn mc mB en (-53) eB); trivial.
    - nia.
    - apply bounded_normal; [exact DB|lia].
    - lia.
    - rewrite Vn, VB.
      replace (eB - (en + -53)) with (- en + 53 + eB) by lia.
      assert (P1 : 0 < 2 ^ (- en)) by (apply Z.pow_pos_nonneg; lia).
      assert (E : 2 ^ (- eB) * 2 ^ (- en + 53 + eB) = 2 ^ (- en) * 2 ^ 53).
      { rewrite <- !Z.pow_add_r by lia. f_equal; lia. }
      replace (k * 2 ^ (- eB) * 2 ^ (- en + 53 + eB))
        with (k * (2 ^ (- eB) * 2 ^ (- en + 53 + eB))) by ring.
      rewrite E. nia. }
  unfold float_index, int_of_float.
  destruct (Prim2SF (float_of_int n * c)) as [s|s| |s m e]; cbn [at_most] in Hat;
    try contradiction.
  - intros [= <-]. lia.
  - destruct Hat as (-> & He & Hm). rewrite VB in Hm. cbv zeta.
    intros [= <-].
    destruct (Z.leb_spec 0 e) as [H0|H0].
    + assert (e = 0) by lia. assert (eB = 0) by lia. subst e eB.
      cbn in Hm |- *. lia.
    + assert (P : 0 < 2 ^ (- e)) by (apply Z.pow_pos_nonneg; lia).
      assert (E : 2 ^ (- eB) * 2 ^ (eB - e) = 2 ^ (- e)).
      { rewrite <- Z.pow_add_r by lia. f_equal; lia. }
      replace (k * 2 ^ (- eB) * 2 ^ (eB - e))
        with (k * (2 ^ (- eB) * 2 ^ (eB - e))) in Hm by ring.
      rewrite E in Hm.
      apply Z.lt_succ_r. apply Z.div_lt_upper_bound; [exact P|]. nia.
Qed.

Lemma float_index_at_least (n k : Z) (c : float) (mc : positive) :
  Prim2SF c = S754_finite false mc (-53) ->
  2 ^ 52 <= Z.pos mc ->
  0 < n < 2 ^ 53 -> 0 < k < 2 ^ 53 ->
  k * 2 ^ 53 <= n * Z.pos mc ->
  forall i, float_index n c = Return i -> k <= i.
Proof.
  intros Hc Hmc Hn Hk Hle i.
  destruct (float_of_int_pos n Hn) as (mn & en & Hfn & Dn & Hen & Vn).
  destruct (float_of_int_pos k Hk) as (mB & eB & _ & DB & HeB & VB).
  assert (Hat : at_least mB eB (Prim2SF (float_of_int n * c))).
  { apply (mul_at_least _ _ mn mc mB en (-53) eB); trivial.
    - nia.
    - apply bounded_normal; [exact DB|lia].
    - lia.
    - rewrite Vn, VB.
      replace (eB - (en + -53)) with (- en + 53 + eB) by lia.
      assert (P1 : 0 < 2 ^ (- en)) by (apply Z.pow_pos_nonneg; lia).
      assert (E : 2 ^ (- eB) * 2 ^ (- en + 53 + eB) = 2 ^ (- en) * 2 ^ 53).
      { rewrite <- !Z.pow_add_r by lia. f_equal; lia. }
      replace (k * 2 ^ (- eB) * 2 ^ (- en + 53 + eB))
        with (k * (2 ^ (- eB) * 2 ^ (- en + 53 + eB))) by ring.
      rewrite E. nia. }
  unfold float_index, int_of_float.
  destruct (Prim2SF (float_of_int n * c)) as [s|s| |s m e]; cbn [at_least] in Hat;
    try contradiction; try discriminate.
  destruct Hat as (-> & He & Hm). rewrite VB in Hm. cbv zeta.
  intros Hi.
  assert (Ei : i = if 0 <=? e then Z.pos m * 2 ^ e else Z.pos m / 2 ^ (- e))
    by congruence.
  clear Hi. subst i.
  assert (PB : 0 < 2 ^ (- eB)) by (apply Z.pow_pos_nonneg; lia).
  destruct (Z.leb_spec 0 e) as [H0|H0].
  + assert (E : 2 ^ (e - eB) = 2 ^ e * 2 ^ (- eB)).
    { rewrite <- Z.pow_add_r by lia. f_equal; lia. }
    rewrite E in Hm.
    apply (Z.mul_le_mono_pos_r _ _ (2 ^ (- eB))); [exact PB|].
    rewrite <- Z.mul_assoc. exact Hm.
  + assert (P : 0 < 2 ^ (- e)) by (apply Z.pow_pos_nonneg; lia).
    assert (P' : 0 < 2 ^ (e - eB)) by (apply Z.pow_pos_nonneg; lia).
    assert (E : 2 ^ (- eB) = 2 ^ (- e) * 2 ^ (e - eB)).
    { rewrite <- Z.pow_add_r by lia. f_equal; lia. }
    rewrite E in Hm.
    apply Z.div_le_lower_bound; [exact P|].
    apply (Z.mul_le_mono_pos_r _ _ (2 ^ (e - eB))); [exact P'|].
    replace (2 ^ (- e) * k * 2 ^ (e - eB)) with (k * (2 ^ (- e) * 2 ^ (e - eB))) by ring.
    exact Hm.
Qed.

(** Half the length, the 95% index and the 99% index come in this order. *)
Lemma float_index_order (n i95 i99 : Z) :
  0 < n < 2 ^ 53 ->
  float_index n float_095 = Return i95 ->
  float_index n float_099 = Return i99 ->
  n / 2 <= i95 /\ i95 <= i99.
Proof.
  intros Hn H95 H99.
  destruct (Z.le_gt_cases n 100000) as [Hs|Hb].
  - destruct (float_index_agrees n ltac:(lia)) as [E95 E99].
    rewrite E95 in H95. rewrite E99 in H99.
    assert (i95 = 95 * n / 100) by congruence.
    assert (i99 = 99 * n / 100) by congruence. subst.
    split.
    + apply Z.div_le_lower_bound; [lia|].
      pose proof (Z.mul_div_le n 2 ltac:(lia)).
      pose proof (Z.mul_succ_div_gt (95 * n) 100 ltac:(lia)). lia.
    + apply Z.div_le_mono; lia.
  - split.
    + apply (float_index_at_least n (n / 2) float_095 8556839292003942);
        try reflexivity; try lia; trivial.
      * split; [apply Z.div_str_pos; lia|].
        apply Z.div_lt_upper_bound; lia.
      * pose proof (Z.mul_div_le n 2 ltac:(lia)). lia.
    + set (k := (n * 8556839292003942 + (2 ^ 53 - 1)) / 2 ^ 53).
      assert (Hk1 : n * 8556839292003942 <= k * 2 ^ 53).
      { unfold k.
        pose proof (Z.mul_succ_div_gt (n * 8556839292003942 + (2 ^ 53 - 1)) (2 ^ 53) ltac:(lia)).
        lia. }
      assert (Hk2 : k * 2 ^ 53 <= n * 8917127262193582).
      { unfold k.
        pose proof (Z.mul_div_le (n * 8556839292003942 + (2 ^ 53 - 1)) (2 ^ 53) ltac:(lia)).
        lia. }
      assert (Hk : 0 < k < 2 ^ 53) by lia.
      apply Z.le_trans with k.
      * apply (float_index_at_most n k float_095 8556839292003942);
          try reflexivity; try lia; trivial.
      * apply (float_index_at_least n k float_099 8917127262193582);
          try reflexivity; try lia; trivial.
Qed.

(** *** The figures on the sorted list *)

Lemma sorted_nth_key (l : list float) :
  StronglySorted by_key l ->
  forall i j, (i <= j < length l)%nat ->
    key (nth i l 0%float) <= key (nth j l 0%float).
Proof.
  induction 1 as [|x l Hs IH Hall]; intros i j Hij; [simpl in Hij; lia|].
  destruct j as [|j].
  - replace i with 0%nat by lia. lia.
  - destruct i as [|i].
    + cbn [nth]. rewrite Forall_forall in Hall. apply Hall.
      apply nth_In. simpl in Hij. lia.
    + cbn [nth]. apply IH. simpl in Hij. lia.
Qed.

Lemma eqb_true_key (x y : float) :
  (x =? y)%float = true ->
  is_nan x = false /\ is_nan y = false /\ key x = key y.
Proof.
  intros H.
  assert (Hx : is_nan x = false).
  { apply is_nan_spec. intros E. rewrite FloatAxioms.eqb_spec, E in H. discriminate H. }
  assert (Hy : is_nan y = false).
  { apply is_nan_spec. intros E. rewrite FloatAxioms.eqb_spec, E in H.
    unfold SFeqb, SFcompare in H. destruct (Prim2SF x); discriminate H. }
  split; [exact Hx|]. split; [exact Hy|].
  rewrite (eqb_key x y Hx Hy) in H. apply Z.eqb_eq. exact H.
Qed.

Lemma last_is_nth (l : list float) :
  l <> [] -> last l 0%float = nth (length l - 1) l 0%float.
Proof.
  induction l as [|x [|y l] IH]; intros H; [contradiction|reflexivity|].
  change (last (x :: y :: l) 0%float) with (last (y :: l) 0%float).
  rewrite IH by discriminate. cbn [length nth].
  rewrite !Nat.sub_succ, !Nat.sub_0_r. reflexivity.
Qed.


(** X14. The latency figures are ordered.  For every non-empty list of
    latencies none of which is NaN, the summary satisfies
    min <= median <= p95 <= p99 <= max, and every latency lies between
    min and max.  (The mean is computed with rounding and is not part of
    this order.) *)
Theorem latency_figures_ordered (l : list float) :
  l <> [] ->
  no_nan l ->
  len l < 2 ^ 53 ->
  exists s : latency_summary,
    summary_latency l = Some (Latency (Return s)) /\
    fle (min_ms s) (median_ms s) /\
    fle (median_ms s) (p95_ms s) /\
    fle (p95_ms s) (p99_ms s) /\
    fle (p99_ms s) (max_ms s) /\
    (forall x, In x l -> fle (min_ms s) x /\ fle x (max_ms s)).
Proof.
  intros Hne Hnan Hlen.
  destruct (statistics_fields l Hne Hnan Hlen)
    as (sorted & s & i95 & i99 & _ & Hs & H3). cbv zeta in H3.
  destruct H3 as (Hperm & Hnn & Hkey & _ & Hmin & Hmax & _ & Hmed & H95 & H99 &
                  B95 & B99 & P95 & P99 & _).
  assert (Hn : (0 < length l)%nat) by (destruct l; [contradiction|simpl; lia]).
  assert (Hlen' : length sorted = length l) by (symmetry; apply Permutation_length; exact Hperm).
  assert (Hsne : sorted <> []) by (intros E; rewrite E in Hlen'; simpl in Hlen'; lia).
  destruct (float_index_order (Z.of_nat (length l)) i95 i99) as [O1 O2];
    trivial; [unfold len in Hlen; lia|].
  destruct (eqb_true_key _ _ Hmax) as (Nmax & _ & Kmax).
  rewrite (last_is_nth sorted Hsne), Hlen' in Kmax.
  pose proof (sorted_nth_key sorted Hkey) as Hmono. rewrite Hlen' in Hmono.
  assert (Hnth : forall i, (i < length l)%nat -> is_nan (nth i sorted 0%float) = false).
  { intros i Hi. unfold no_nan in Hnn. rewrite Forall_forall in Hnn.
    apply Hnn, nth_In. lia. }
  assert (Emed : (length l / 2 < length l)%nat) by (apply Nat.div_lt; lia).
  assert (Omed : (length l / 2 <= Z.to_nat i95)%nat).
  { apply Nat2Z.inj_le. rewrite Nat2Z.inj_div, Z2Nat.id by lia. exact O1. }
  assert (Hhd : hd 0%float sorted = nth 0 sorted 0%float) by (destruct sorted; reflexivity).
  rewrite Hhd in Hmin.
  exists s. split; [exact Hs|].
  rewrite Hmin, Hmed, P95, P99.
  split; [apply by_key_fle; [apply Hnth; lia|apply Hnth; lia|apply Hmono; lia]|].
  split; [apply by_key_fle; [apply Hnth; lia|apply Hnth; lia|apply Hmono; lia]|].
  split; [apply by_key_fle; [apply Hnth; lia|apply Hnth; lia|apply Hmono; lia]|].
  split.
  { apply by_key_fle; [apply Hnth; lia|exact Nmax|].
    unfold by_key. rewrite Kmax. apply Hmono. lia. }
  intros x Hx.
  apply (Permutation_in _ Hperm) in Hx.
  destruct (In_nth _ _ 0%float Hx) as (i & Hi & <-). rewrite Hlen' in Hi.
  split.
  - apply by_key_fle; [apply Hnth; lia|apply Hnth; lia|apply Hmono; lia].
  - apply by_key_fle; [apply Hnth; lia|exact Nmax|].
    unfold by_key. rewrite Kmax. apply Hmono. lia.
Qed.

Lemma latency_figures_ordered_witness :
  exists s : latency_summary,
    summary_latency [4; 1; 3; 2]%float = Some (Latency (Return s)) /\
    fle (min_ms s) (median_ms s) /\
    fle (median_ms s) (p95_ms s) /\
    fle (p95_ms s) (p99_ms s) /\
    fle (p99_ms s) (max_ms s) /\
    (forall x, In x [4; 1; 3; 2]%float -> fle (min_ms s) x /\ fle x (max_ms s)).
Proof.
  apply (latency_figures_ordered [4; 1; 3; 2]%float).
  - discriminate.
  - repeat constructor.
  - vm_compute. reflexivity.
Defined.

(** X15. Percentiles of small samples.  For a list without NaN, with at
    most 100 latencies the 99th-percentile figure equals the maximum, and
    with at most 20 so does the 95th-percentile figure: the index
    [int(len * 0.99)] ([int(len * 0.95)]) is then the last one. *)
Theorem small_sample_percentiles (l : list float) :
  l <> [] ->
  no_nan l ->
  (length l <= 100)%nat ->
  exists s : latency_summary,
    summary_latency l = Some (Latency (Return s)) /\
    (p99_ms s =? max_ms s)%float = true /\
    ((length l <= 20)%nat -> (p95_ms s =? max_ms s)%float = true).
Proof.
  intros Hne Hnan Hsmall.
  destruct (statistics_fields l Hne Hnan)
    as (sorted & s & i95 & i99 & _ & Hs & H3); [unfold len; lia|]. cbv zeta in H3.
  destruct H3 as (Hperm & Hnn & _ & _ & _ & Hmax & _ & _ & _ & _ &
                  _ & _ & P95 & P99 & Htab).
  destruct Htab as [E95 E99]; [lia|].
  assert (Hn : (0 < length l)%nat) by (destruct l; [contradiction|simpl; lia]).
  assert (Hlen' : length sorted = length l) by (symmetry; apply Permutation_length; exact Hperm).
  assert (Hsne : sorted <> []) by (intros E; rewrite E in Hlen'; simpl in Hlen'; lia).
  destruct (eqb_true_key _ _ Hmax) as (Nmax & Nlast & Kmax).
  rewrite (last_is_nth sorted Hsne), Hlen' in Kmax, Nlast.
  exists s. split; [exact Hs|]. split.
  - rewrite P99, E99.
    replace (Z.to_nat (99 * Z.of_nat (length l) / 100)) with (length l - 1)%nat.
    + rewrite (eqb_key _ _ Nlast Nmax). apply Z.eqb_eq. symmetry. exact Kmax.
    + apply Nat2Z.inj. rewrite Z2Nat.id by (apply Z.div_pos; lia).
      apply Z.div_unique with (Z.of_nat (100 - length l)); lia.
  - intros H20. rewrite P95, E95.
    replace (Z.to_nat (95 * Z.of_nat (length l) / 100)) with (length l - 1)%nat.
    + rewrite (eqb_key _ _ Nlast Nmax). apply Z.eqb_eq. symmetry. exact Kmax.
    + apply Nat2Z.inj. rewrite Z2Nat.id by (apply Z.div_pos; lia).
      apply Z.div_unique with (Z.of_nat (100 - 5 * length l)); lia.
Qed.

Lemma small_sample_percentiles_witness :
  exists s : latency_summary,
    summary_latency [4; 1; 3; 2]%float = Some (Latency (Return s)) /\
    (p99_ms s =? max_ms s)%float = true /\
    ((length [4; 1; 3; 2]%float <= 20)%nat -> (p95_ms s =? max_ms s)%float = true).
Proof.
  apply (small_sample_percentiles [4; 1; 3; 2]%float).
  - discriminate.
  - repeat constructor.
  - cbn [length]. lia.
Defined.

(** *** The loss figure at its ends and beyond *)

Lemma float_of_int_neg (a : Z) :
  - 2 ^ 53 < a < 0 ->
  exists (m : positive) (e : Z),
    Prim2SF (float_of_int a) = S754_finite true m e /\
    Zdigits2 (Z.pos m) = 53 /\ -52 <= e <= 0.
Proof.
  intros Ha. unfold float_of_int. destruct (Z.ltb_spec a 0); [|lia].
  destruct (of_uint63_exact (- a) ltac:(lia)) as (m & e & Hf & Hd & He & _).
  exists m, e. rewrite FloatAxioms.opp_spec, Hf. cbn [SFopp]. repeat split; trivial; lia.
Qed.

Lemma whole_share (b : Z) :
  0 < b < 2 ^ 53 -> (float_of_int b / float_of_int b)%float = 1%float.
Proof.
  intros Hb. apply Prim2SF_inj.
  change (Prim2SF 1) with (S754_finite false 4503599627370496 (-52)).
  apply at_most_at_least; [apply share_at_most_one; lia|].
  destruct (float_of_int_pos b Hb) as (mb & eb & Hfb & Db & Heb & Vb).
  apply (div_at_least _ _ mb mb _ eb eb); trivial; try reflexivity; try lia.
  replace (-52 - (eb - eb - 53)) with 1 by lia.
  change (Z.pos 4503599627370496 * 2 ^ 1) with (2 ^ 53). lia.
Qed.

Lemma negative_share (a b : Z) :
  - 2 ^ 53 < a < 0 -> 0 < b < 2 ^ 53 ->
  (float_of_int a / float_of_int b * 100 <? 0)%float = true.
Proof.
  intros Ha Hb.
  destruct (float_of_int_neg a Ha) as (ma & ea & Hfa & Da & Hea).
  destruct (float_of_int_pos b Hb) as (mb & eb & Hfb & Db & Heb & _).
  pose proof (div_signed _ _ true false ma mb ea eb Hfa Hfb Da Db ltac:(lia)) as Hq.
  cbn [xorb] in Hq.
  destruct (Prim2SF (float_of_int a / float_of_int b)) as [s|s| |s mq eq] eqn:Eq;
    cbn [signed] in Hq; try contradiction.
  - subst s. apply (signed_negative 0).
    rewrite FloatAxioms.mul_spec, Eq. reflexivity.
  - destruct Hq as [-> Heq].
    apply (signed_negative (eq + -46)).
    apply (mul_signed _ _ true false mq 7036874417766400 eq (-46) Eq);
      [reflexivity|lia|lia].
Qed.

(** X16. The persisted loss figure at its ends, and beyond them.  When
    nothing was sent it is the integer 0, whatever was received.  When
    something was sent it is exactly 0.0 if as many metrics were recorded
    as packets sent and exactly 100.0 if none was; it is not clamped: with
    more metrics recorded than packets sent it is negative. *)
Theorem packet_loss_not_clamped (sent received : Z) :
  (sent = 0 -> packet_loss_pct sent received = Return (Int 0)) /\
  (0 < sent < 2 ^ 53 ->
   (received = sent -> packet_loss_pct sent received = Return (Float 0)) /\
   (received = 0 -> packet_loss_pct sent received = Return (Float 100)) /\
   (sent < received < sent + 2 ^ 53 ->
    exists f : float,
      packet_loss_pct sent received = Return (Float f) /\
      (f <? 0)%float = true)).
Proof.
  unfold packet_loss_pct, int_truediv. split.
  - intros ->. reflexivity.
  - intros Hs. rewrite Z.max_l by lia.
    destruct (Z.eqb_spec sent 0); [lia|]. cbn [bind].
    destruct (float_of_int_pos sent Hs) as (mb & eb & Hfb & Db & Heb & Vb).
    split; [|split].
    + intros ->. rewrite Z.sub_diag. do 2 f_equal.
      apply Prim2SF_inj. rewrite FloatAxioms.mul_spec, FloatAxioms.div_spec.
      rewrite float_of_int_0, Hfb. reflexivity.
    + intros ->. rewrite Z.sub_0_r, whole_share by exact Hs. reflexivity.
    + intros Hr. eexists. split; [reflexivity|].
      apply negative_share; lia.
Qed.

Lemma packet_loss_not_clamped_witness :
  packet_loss_pct 0 5 = Return (Int 0) /\
  packet_loss_pct 10 10 = Return (Float 0) /\
  packet_loss_pct 10 0 = Return (Float 100) /\
  exists f : float,
    packet_loss_pct 10 13 = Return (Float f) /\ (f <? 0)%float = true.
Proof.
  split; [|split; [|split]].
  - apply (proj1 (packet_loss_not_clamped 0 5)). reflexivity.
  - destruct (packet_loss_not_clamped 10 10) as [_ H].
    destruct H as (H & _); [lia|]. apply H. reflexivity.
  - destruct (packet_loss_not_clamped 10 0) as [_ H].
    destruct H as (_ & H & _); [lia|]. apply H. reflexivity.
  - destruct (packet_loss_not_clamped 10 13) as [_ H].
    destruct H as (_ & _ & H); [lia|]. apply H. lia.
Defined.

End Report.


(* ================================================================== *)
(** ** The single-connection client of benchmark.py                *)
(* ================================================================== *)

Module Radio.

Import Codec Receiver.

(** What [TCPRadioBenchmark] can raise. *)
Inductive error : Type :=
| ConnectionError            (* raise ConnectionError("Socket closed") *)
| NameError                  (* a name bound nowhere *)
| Escaped (e : exn).         (* what the socket or [struct] raises *)

Inductive outcome (A : Type) : Type :=
| Ok (a : A)
| Err (e : error).
Arguments Ok {A} a.
Arguments Err {A} e.

(** [struct] with the format ['<Id'] (no padding, 12 bytes). *)
Definition struct_pack_Id (a : Z) (t : float) : result bytes :=
  x <- pack_I a ;;
  Return (x ++ pack_d t).

Definition struct_unpack_Id (bs : bytes) : result (Z * float) :=
  if len bs =? 12 then
    Return (unpack_I (firstn 4 bs), unpack_d (skipn 4 bs))
  else Raise StructError.

(** [send_packet]: the frame handed to [sendall] and the timestamp
    returned; [sendall] is taken to succeed. *)
Definition send_packet (now : float) (msg_id : Z) (payload : bytes)
  : result (bytes * float) :=
  let timestamp := now in
  header <- struct_pack_Id msg_id timestamp ;;
  let frame := header ++ payload in
  Return (frame, timestamp).

(** The [while len(data) < n] loop of [_recv_exactly], with a bound on the
    number of reads; [None] means the bound was too small. *)
Fixpoint recv_exactly_loop (fuel : nat) (n : Z) (data : bytes) (s : socket)
  : option (outcome bytes * socket) :=
  if len data <? n then
    match fuel with
    | O => None
    | S fuel' =>
        match sock_recv (n - len data) s with
        | (Return [], s') => Some (Err ConnectionError, s')
        | (Return chunk, s') => recv_exactly_loop fuel' n (data ++ chunk) s'
        | (Raise e, s') => Some (Err (Escaped e), s')
        end
    end
  else Some (Ok data, s).

Definition _recv_exactly (n : Z) (s : socket) : option (outcome bytes * socket) :=
  recv_exactly_loop (Z.to_nat n) n [] s.

(** The integers bound to global names when [recv_packet] runs.  The
    module binds [socket], [time], [struct] and [TCPRadioBenchmark] only:
    as written, no name is bound to an integer. *)
Definition namespace := string -> option Z.

Definition as_written : namespace := fun _ => None.

Definition lookup (globals : namespace) (name : string) : outcome Z :=
  match globals name with
  | Some v => Ok v
  | None => Err NameError
  end.

(** [recv_packet]; [recv_time] is the clock read after the payload. *)
Definition recv_packet (globals : namespace) (recv_time : float) (s : socket)
  : option (outcome (Z * bytes * float * float) * socket) :=
  match _recv_exactly 12 s with
  | None => None
  | Some (Err e, s1) => Some (Err e, s1)
  | Some (Ok header, s1) =>
      match struct_unpack_Id header with
      | Raise e => Some (Err (Escaped e), s1)
      | Return (msg_id, send_time) =>
          match lookup globals "payload_length" with
          | Err e => Some (Err e, s1)
          | Ok payload_length =>
              match _recv_exactly payload_length s1 with
              | None => None
              | Some (Err e, s2) => Some (Err e, s2)
              | Some (Ok payload, s2) =>
                  Some (Ok (msg_id, payload, send_time, recv_time), s2)
              end
          end
      end
  end.

(** A namespace in which [payload_length] has been bound from outside. *)
Definition with_payload_length (v : Z) : namespace :=
  fun name => if String.eqb name "payload_length" then Some v else None.

Definition radio_payload : bytes := ["h"; "i"]%byte.

Definition radio_frame : bytes :=
  match send_packet 2%float 7 radio_payload with
  | Return (frame, _) => frame
  | Raise _ => []
  end.

Definition radio_stream : socket :=
  [Data (firstn 5 radio_frame); Data (skipn 5 radio_frame ++ ["z"]%byte)].

(** *** [_recv_exactly] *)

Lemma radio_loop_result (fuel : nat) :
  forall (n : Z) (data : bytes) (s : socket),
    n - len data <= Z.of_nat fuel ->
    len data <= Z.max n 0 ->
    exists r s',
      recv_exactly_loop fuel n data s = Some (r, s') /\
      match r with
      | Ok d => len d = Z.max n 0
      | Err ConnectionError => True
      | Err NameError => False
      | Err (Escaped e) => e = SocketTimeout \/ (e = OSError /\ In Failure s)
      end.
Proof.
  induction fuel as [|fuel IH]; intros n data s Hfuel Hdata.
  - cbn [recv_exactly_loop].
    destruct (Z.ltb_spec (len data) n) as [Hlt|Hge]; [simpl in Hfuel; lia|].
    exists (Ok data), s. split; [reflexivity|].
    pose proof (len_nonneg data). lia.
  - cbn [recv_exactly_loop].
    destruct (Z.ltb_spec (len data) n) as [Hlt|Hge].
    + destruct (sock_recv (n - len data) s) as [[chunk|e] s'] eqn:Hrecv.
      * destruct chunk as [|b chunk'].
        { exists (Err ConnectionError), s'. auto. }
        pose proof (sock_recv_size _ _ _ _ Hrecv) as Hsz.
        destruct (IH n (data ++ b :: chunk') s') as (r & s'' & Hr & Hprop).
        { rewrite len_app. unfold len in *. cbn [length] in *. lia. }
        { rewrite len_app. lia. }
        exists r, s''. split; [exact Hr|].
        destruct r as [d|[| |e]]; trivial.
        destruct Hprop as [He|[He Hin]]; [left; exact He|right].
        split; [exact He|]. eapply sock_recv_failure_in; eassumption.
      * exists (Err (Escaped e)), s'. split; [reflexivity|].
        exact (sock_recv_raises _ _ _ _ Hrecv).
    + exists (Ok data), s. split; [reflexivity|].
      pose proof (len_nonneg data). lia.
Qed.

Lemma radio_loop_reads (fuel : nat) :
  forall (n : Z) (data : bytes) (s : socket),
    runs_nonempty s ->
    len data <= n ->
    n - len data <= len (available s) ->
    n - len data <= Z.of_nat fuel ->
    exists s',
      recv_exactly_loop fuel n data s =
        Some (Ok (data ++ firstn (Z.to_nat (n - len data)) (available s)), s') /\
      available s' = skipn (Z.to_nat (n - len data)) (available s) /\
      runs_nonempty s'.
Proof.
  induction fuel as [|fuel IH]; intros n data s Hwf Hle Hav Hfuel.
  - assert (E : n - len data = 0) by (simpl in Hfuel; lia).
    cbn [recv_exactly_loop]. destruct (Z.ltb_spec (len data) n); [lia|].
    exists s. rewrite E. cbn [Z.to_nat firstn skipn]. rewrite app_nil_r. auto.
  - cbn [recv_exactly_loop].
    destruct (Z.ltb_spec (len data) n) as [Hlt|Hge].
    + destruct s as [|[bs| |] rest];
        try (change (len (available _)) with 0 in Hav; lia).
      assert (Hpos : 0 < n - len data) by lia.
      destruct (sock_recv_available (n - len data) bs rest Hwf Hpos)
        as (b & chunk & s1 & Hrecv & Hchunk & Havail & Hwf1).
      rewrite Hrecv.
      assert (Hcl : len (b :: chunk) <= n - len data).
      { rewrite Hchunk. unfold len in *. rewrite length_firstn. lia. }
      assert (Hc1 : 1 <= len (b :: chunk)) by (unfold len; cbn [length]; lia).
      destruct (IH n (data ++ b :: chunk) s1) as (s' & Hrun & Hav' & Hwf'); trivial.
      * rewrite len_app. lia.
      * rewrite len_app, Havail, len_app. cbn [available] in Hav.
        rewrite len_app in Hav. rewrite Hchunk.
        unfold len in *. rewrite length_firstn, length_skipn. lia.
      * rewrite len_app. lia.
      * exists s'. rewrite Hrun, Hav'. cbn [available].
        assert (Ek : Z.to_nat (n - len (data ++ b :: chunk)) =
                     (Z.to_nat (n - len data) - length (firstn (Z.to_nat (n - len data)) bs))%nat).
        { rewrite len_app, <- Hchunk. unfold len. lia. }
        rewrite Ek, Havail, Hchunk. split; [|split; [|exact Hwf']].
        { rewrite <- app_assoc, firstn_across. reflexivity. }
        { apply skipn_across. }
    + assert (E : n - len data = 0) by lia.
      exists s. rewrite E. cbn [Z.to_nat firstn skipn]. rewrite app_nil_r. auto.
Qed.

Lemma radio_reads (n : Z) (s : socket) :
  runs_nonempty s -> 0 <= n <= len (available s) ->
  exists s',
    _recv_exactly n s = Some (Ok (firstn (Z.to_nat n) (available s)), s') /\
    available s' = skipn (Z.to_nat n) (available s) /\
    runs_nonempty s'.
Proof.
  intros Hwf Hn. unfold _recv_exactly.
  destruct (radio_loop_reads (Z.to_nat n) n [] s) as (s' & H1 & H2 & H3);
    trivial; change (len (@nil byte)) with 0; try lia.
  rewrite Z.sub_0_r in *. exists s'. auto.
Qed.

Lemma radio_recv_exactly_result (n : Z) (s : socket) :
  exists r s',
    _recv_exactly n s = Some (r, s') /\
    match r with
    | Ok d => len d = Z.max n 0
    | Err ConnectionError => True
    | Err NameError => False
    | Err (Escaped e) => e = SocketTimeout \/ (e = OSError /\ In Failure s)
    end.
Proof.
  unfold _recv_exactly. apply radio_loop_result.
  - change (len (@nil byte)) with 0. lia.
  - change (len (@nil byte)) with 0. lia.
Qed.

(** X17. [TCPRadioBenchmark._recv_exactly] is all or error.  For every
    count and every script the call ends; what it returns has exactly
    [max(n, 0)] bytes, and a connection closed before that raises
    [ConnectionError]: it never returns a short or empty result for a
    positive count.  On a closed connection it raises for every positive
    count. *)
Theorem radio_recv_exactly_all_or_error (n : Z) (s : socket) :
  (exists r s',
     _recv_exactly n s = Some (r, s') /\
     match r with
     | Ok d => len d = Z.max n 0
     | Err ConnectionError => True
     | Err NameError => False
     | Err (Escaped e) => e = SocketTimeout \/ (e = OSError /\ In Failure s)
     end) /\
  (0 < n -> _recv_exactly n [] = Some (Err ConnectionError, [])).
Proof.
  split; [apply radio_recv_exactly_result|].
  intros Hn. unfold _recv_exactly.
  destruct (Z.to_nat n) as [|fuel] eqn:E; [lia|].
  cbn [recv_exactly_loop]. change (len (@nil byte)) with 0.
  destruct (Z.ltb_spec 0 n); [reflexivity|lia].
Qed.

(** *** [recv_packet] *)

Lemma unpack_Id_of_12 (header : bytes) :
  len header = 12 ->
  struct_unpack_Id header =
    Return (unpack_I (firstn 4 header), unpack_d (skipn 4 header)).
Proof. intros H. unfold struct_unpack_Id. rewrite H. reflexivity. Qed.

(** X18. [recv_packet] never returns as the module is written.  Whatever
    the peer sends, the call ends with an error: [payload_length] is bound
    nowhere, so once the 12 header bytes are read the name lookup raises
    [NameError]; the header bytes are consumed and the payload is never
    read. *)
Theorem radio_recv_packet_never_returns (recv_time : float) (s : socket) :
  (exists e s', recv_packet as_written recv_time s = Some (Err e, s')) /\
  (runs_nonempty s -> 12 <= len (available s) ->
   exists s',
     recv_packet as_written recv_time s = Some (Err NameError, s') /\
     available s' = skipn 12 (available s)).
Proof.
  split.
  - unfold recv_packet.
    destruct (radio_recv_exactly_result 12 s) as (r & s1 & -> & Hr).
    destruct r as [header|e]; [|eauto].
    rewrite unpack_Id_of_12 by exact Hr. cbn. eauto.
  - intros Hwf Hav. unfold recv_packet.
    destruct (radio_reads 12 s Hwf) as (s1 & -> & Hs1 & _); [lia|].
    rewrite unpack_Id_of_12.
    + cbn. exists s1. split; [reflexivity|exact Hs1].
    + unfold len in *. rewrite length_firstn. lia.
Qed.

Lemma radio_recv_packet_never_returns_witness :
  exists s',
    recv_packet as_written 2%float [Data header_100] = Some (Err NameError, s') /\
    available s' = skipn 12 (available [Data header_100]).
Proof.
  apply (proj2 (radio_recv_packet_never_returns 2%float [Data header_100])).
  - repeat constructor; discriminate.
  - vm_compute. discriminate.
Defined.

(** *** A frame of [send_packet] read back *)

Lemma pack_Id_shape (msg_id : Z) (t : float) (header : bytes) :
  struct_pack_Id msg_id t = Return header ->
  length header = 12%nat /\
  unpack_I (firstn 4 header) = msg_id /\
  unpack_d (skipn 4 header) = t.
Proof.
  unfold struct_pack_Id. destruct (pack_I msg_id) as [x|e] eqn:Hx; [|discriminate].
  cbn [bind]. intros Hh. assert (header = x ++ pack_d t) as -> by congruence.
  destruct (unpack_pack_I _ _ Hx) as [Hl Hv].
  rewrite length_app, Hl, pack_d_length. split; [reflexivity|].
  rewrite firstn_app, Hl, firstn_all2 by lia.
  rewrite skipn_app, Hl, skipn_all2 by lia.
  cbn [Nat.sub firstn skipn app]. rewrite app_nil_r, Hv, unpack_pack_d. auto.
Qed.

(** X19. A frame of [send_packet] is read back once [payload_length] is
    bound.  With the global [payload_length] bound to the payload's
    length, a frame built by [send_packet] and delivered in any
    segmentation is returned by [recv_packet] as the identifier, payload
    and timestamp that were sent; the bytes after it stay in the stream.
    An identifier outside [0, 2^32) makes [send_packet] raise
    [struct.error] instead. *)
Theorem radio_frame_roundtrip (now recv_time : float) (msg_id : Z)
  (payload more : bytes) (s : socket) :
  runs_nonempty s ->
  (0 <= msg_id < 2 ^ 32 ->
   exists frame,
     send_packet now msg_id payload = Return (frame, now) /\
     len frame = 12 + len payload /\
     (available s = frame ++ more ->
      exists s',
        recv_packet (with_payload_length (len payload)) recv_time s =
          Some (Ok (msg_id, payload, now, recv_time), s') /\
        available s' = more)) /\
  (~ 0 <= msg_id < 2 ^ 32 ->
   send_packet now msg_id payload = Raise StructError).
Proof.
  intros Hwf. split.
  - intros Hid. unfold send_packet.
    destruct (struct_pack_Id msg_id now) as [header|e] eqn:Hh.
    2:{ unfold struct_pack_Id, pack_I in Hh.
        replace ((0 <=? msg_id) && (msg_id <? 2 ^ 32)) with true in Hh
          by (symmetry; apply andb_true_iff; lia).
        discriminate. }
    destruct (pack_Id_shape _ _ _ Hh) as (Hl & Hi & Ht).
    cbn [bind]. exists (header ++ payload). split; [reflexivity|].
    split; [rewrite len_app; unfold len; lia|].
    intros Hav. unfold recv_packet.
    destruct (radio_reads 12 s Hwf) as (s1 & -> & Hs1 & Hwf1).
    { rewrite Hav, !len_app. pose proof (len_nonneg payload).
      pose proof (len_nonneg more). unfold len in *. lia. }
    assert (Hfirst : firstn (Z.to_nat 12) (available s) = header).
    { rewrite Hav, <- app_assoc, firstn_app.
      change (Z.to_nat 12) with 12%nat. rewrite Hl, Nat.sub_diag.
      rewrite firstn_O, app_nil_r. apply firstn_all2. lia. }
    assert (Hrest : available s1 = payload ++ more).
    { rewrite Hs1, Hav, <- app_assoc, skipn_app.
      change (Z.to_nat 12) with 12%nat. rewrite Hl, Nat.sub_diag.
      rewrite skipn_all2 by lia. reflexivity. }
    rewrite Hfirst, unpack_Id_of_12 by (unfold len; lia).
    rewrite Hi, Ht. unfold lookup, with_payload_length.
    rewrite String.eqb_refl.
    destruct (radio_reads (len payload) s1 Hwf1) as (s2 & -> & Hs2 & _).
    { rewrite Hrest, len_app. pose proof (len_nonneg payload).
      pose proof (len_nonneg more). lia. }
    exists s2. rewrite Hs2, Hrest. unfold len. rewrite Nat2Z.id.
    rewrite firstn_app, Nat.sub_diag, firstn_all, firstn_O, app_nil_r.
    split; [reflexivity|].
    rewrite skipn_app, Nat.sub_diag, skipn_all. reflexivity.
  - intros Hid. unfold send_packet, struct_pack_Id, pack_I.
    replace ((0 <=? msg_id) && (msg_id <? 2 ^ 32)) with false; [reflexivity|].
    symmetry. apply andb_false_iff. lia.
Qed.

Lemma radio_frame_roundtrip_witness :
  exists s',
    recv_packet (with_payload_length (len radio_payload)) 3%float radio_stream =
      Some (Ok (7, radio_payload, 2%float, 3%float), s') /\
    available s' = ["z"]%byte.
Proof.
  destruct (radio_frame_roundtrip 2%float 3%float 7 radio_payload ["z"]%byte radio_stream)
    as [H _].
  - repeat constructor; vm_compute; discriminate.
  - destruct H as (frame & Hsend & _ & Hrecv).
    + vm_compute. split; [discriminate|reflexivity].
    + apply Hrecv.
      assert (frame = radio_frame) as ->.
      { unfold radio_frame. rewrite Hsend. reflexivity. }
      vm_compute. reflexivity.
Defined.

End Radio.
